(** * Mechanical Turk MCP: bridge protocol, typed values, parameter naming

    A shallow embedding of the controller side (TypeScript) and of the
    target side (GDScript) of the bridge, and the properties of the
    specification stated over it.

    Conventions of the embedding:
    - a JavaScript object, a JavaScript [Map] and a GDScript [Dictionary]
      are association lists in enumeration (insertion) order; assignment
      to a key replaces the value in place when the key is present and
      appends the entry otherwise;
    - numbers are exact rationals ([Q]); the engine's [int()] truncates
      toward zero;
    - a GDScript runtime error (a typed local receiving a value of the
      wrong type, an operator applied to operands it does not accept)
      ends the call with [Raise]. *)

From Stdlib Require Import ZArith QArith String Ascii List Bool Lia.
From stdpp Require Import base tactics option list pretty.
Import ListNotations.

Set Warnings "-register-all".

Local Open Scope string_scope.
Local Open Scope list_scope.

(** ** Association lists in insertion order *)

Module Assoc.

Section Ops.
Context {V : Type}.

Fixpoint get (k : string) (l : list (string * V)) : option V :=
  match l with
  | [] => None
  | (k', v) :: r => if String.eqb k k' then Some v else get k r
  end.

Definition has (k : string) (l : list (string * V)) : bool :=
  match get k l with Some _ => true | None => false end.

(** [l[k] = v]: replace in place, or append. *)
Fixpoint set (k : string) (v : V) (l : list (string * V)) : list (string * V) :=
  match l with
  | [] => [(k, v)]
  | (k', v') :: r =>
      if String.eqb k k' then (k', v) :: r else (k', v') :: set k v r
  end.

Fixpoint delete (k : string) (l : list (string * V)) : list (string * V) :=
  match l with
  | [] => []
  | (k', v') :: r =>
      if String.eqb k k' then delete k r else (k', v') :: delete k r
  end.

Definition keys (l : list (string * V)) : list string := map fst l.
End Ops.

End Assoc.

(** ** JavaScript values (controller side) *)

Module JS.

Inductive Value : Type :=
| Undefined
| Null
| Bool (b : bool)
| Num (n : Q)
| Str (s : string)
| Arr (elems : list Value)
| Obj (props : list (string * Value)).

(** [typeof v] *)
Definition typeof (v : Value) : string :=
  match v with
  | Undefined => "undefined"
  | Null => "object"
  | Bool _ => "boolean"
  | Num _ => "number"
  | Str _ => "string"
  | Arr _ => "object"
  | Obj _ => "object"
  end.

Definition is_null (v : Value) : bool :=
  match v with Null => true | _ => false end.

(** [Array.isArray(v)] *)
Definition isArray (v : Value) : bool :=
  match v with Arr _ => true | _ => false end.

(** [v.k] for the property names the sources read ([id], [error],
    [result], [message], [x], [y], [_type]): an own property of an
    object, [undefined] on every other value that has properties.
    Reading a property of [null] or [undefined] throws; the callers
    below decide that case before they read. *)
Definition prop (v : Value) (k : string) : Value :=
  match v with
  | Obj props => match Assoc.get k props with Some x => x | None => Undefined end
  | _ => Undefined
  end.

(** [k in v], for an object. *)
Definition has_in (k : string) (v : Value) : bool :=
  match v with
  | Obj props => Assoc.has k props
  | _ => false
  end.

(** ECMAScript ToBoolean. [Qnum n =? 0] is [n === 0]. *)
Definition truthy (v : Value) : bool :=
  match v with
  | Undefined | Null => false
  | Bool b => b
  | Num n => negb (Qnum n =? 0)%Z
  | Str s => negb (String.eqb s "")
  | Arr _ | Obj _ => true
  end.

End JS.

(** ** Typed-value helpers of the controller (utils/godot-types) *)

Module GodotTypes.
Import JS.

Definition KNOWN_TYPES : list string :=
  [ "Vector2"; "Vector2i"; "Vector3"; "Vector3i";
    "Color"; "Rect2"; "NodePath"; "Resource";
    "RectangleShape2D"; "CircleShape2D"; "CapsuleShape2D";
    "WorldBoundaryShape2D"; "SegmentShape2D"; "ConvexPolygonShape2D" ].

Definition Set_has (x : string) (s : list string) : bool :=
  existsb (String.eqb x) s.

Definition isTypedValue (value : Value) : bool :=
  String.eqb (typeof value) "object"
  && negb (is_null value)
  && negb (isArray value)
  && String.eqb (typeof (prop value "_type")) "string"
  && match prop value "_type" with
     | Str t => Set_has t KNOWN_TYPES
     | _ => false
     end.

Definition looksLikeVector2 (value : Value) : bool :=
  String.eqb (typeof value) "object"
  && negb (is_null value)
  && negb (isArray value)
  && String.eqb (typeof (prop value "x")) "number"
  && String.eqb (typeof (prop value "y")) "number"
  && negb (has_in "z" value)
  && negb (has_in "_type" value).

Definition autoDetectVector2 (value : Value) : Value :=
  if looksLikeVector2 value
  then Obj [("_type", Str "Vector2"); ("x", prop value "x"); ("y", prop value "y")]
  else value.

End GodotTypes.

(** ** Parameter naming (utils/parameters) *)

Module Parameters.
Import JS.

Definition parameterMappings : list (string * string) :=
  [ ("project_path", "projectPath");
    ("scene_path", "scenePath");
    ("root_node_type", "rootNodeType");
    ("parent_node_path", "parentNodePath");
    ("node_type", "nodeType");
    ("node_name", "nodeName");
    ("texture_path", "texturePath");
    ("node_path", "nodePath");
    ("output_path", "outputPath");
    ("mesh_item_names", "meshItemNames");
    ("new_path", "newPath");
    ("file_path", "filePath");
    ("directory", "directory");
    ("recursive", "recursive");
    ("scene", "scene");
    ("event_type", "eventType");
    ("key_code", "keyCode");
    ("root_path", "rootPath");
    ("include_properties", "includeProperties");
    ("test_script", "testScript");
    ("test_name", "testName");
    ("test_dir", "testDir");
    ("include_subdirs", "includeSubdirs");
    ("xml_output", "xmlOutput") ].


(** [table[key]] when it is truthy (a non-empty string). The tables are
    read by own property; the names every object inherits
    ([constructor], [__proto__], ...) are outside the embedding. *)
Definition lookup_truthy (table : list (string * string)) (key : string) : option string :=
  match Assoc.get key table with
  | Some s => if String.eqb s "" then None else Some s
  | None => None
  end.

(** [key.includes('_')] *)
Fixpoint includes_underscore (key : string) : bool :=
  match key with
  | EmptyString => false
  | String c r => Ascii.eqb c "_" || includes_underscore r
  end.

Definition is_capital (c : ascii) : bool :=
  let n := nat_of_ascii c in (65 <=? n)%nat && (n <=? 90)%nat.



(** The key [normalizeParameters] writes for [key]. *)
Definition normalizedKey (key : string) : string :=
  if includes_underscore key
  then match lookup_truthy parameterMappings key with
       | Some mapped => mapped
       | None => key
       end
  else key.




Fixpoint normalizeParameters (params : Value) : Value :=
  let visit := fix visit (entries : list (string * Value)) (result : list (string * Value)) :=
    match entries with
    | [] => result
    | (key, v) :: rest =>
        visit rest
          (Assoc.set (normalizedKey key)
             (match v with
              | Obj _ => normalizeParameters v
              | _ => v
              end) result)
    end in
  match params with
  | Obj props => Obj (visit props [])
  | Arr elems =>
      Obj ((fix visit_elems (i : nat) (es : list Value) (result : list (string * Value)) :=
              match es with
              | [] => result
              | e :: rest =>
                  visit_elems (S i) rest
                    (Assoc.set (normalizedKey (pretty i))
                       (match e with
                        | Obj _ => normalizeParameters e
                        | _ => e
                        end) result)
              end) 0%nat elems [])
  | _ => params
  end.




End Parameters.


(** ** The bridge client (bridge/bridge-client.ts) *)

Module BridgeClient.
Import JS.

Inductive ReadyState : Type := CONNECTING | OPEN | CLOSING | CLOSED.

(** The [Error] values the client rejects with. *)
Inductive Failure : Type :=
| BridgeError (message : Value)
    (* new Error(`Bridge error: ${response.error.message}`) *)
| ConnectionClosed
    (* new Error('Bridge connection closed') *)
| RequestTimedOut (method : string) (timeoutMs : N)
    (* new Error(`Bridge request '${method}' timed out after ${timeoutMs}ms`) *)
| ConnectTimedOut
| CannotConnect.

Inductive Promise : Type :=
| Unsettled
| Fulfilled (value : Value)
| Rejected (reason : Failure).

(** An entry of [pendingRequests]: [resolver] is the promise whose
    [resolve] and [reject] the entry holds. *)
Record PendingRequest : Type := { resolver : nat; timer : nat }.

(** What an armed timer runs when it fires. *)
Inductive Timer : Type :=
| RequestTimer (id method : string) (timeoutMs : N) (promise : nat)
| ConnectTimer (socket : nat) (promise : nat).

(** A [WebSocket] made by [connect], with what its listeners close over. *)
Record Socket : Type := { readyState : ReadyState; opener : nat; deadline : nat }.

Record BridgeRequest : Type := { id : string; method : string; params : Value }.

Inductive LogLine : Type :=
| LogConnecting
| LogConnected
| LogDisconnected
| LogConnectionError
| LogParseFailure
| LogSending (request : BridgeRequest).

(** The fields of the [BridgeClient] object, and the runtime it lives
    in: the sockets, promises and timers it has created (a handle is an
    index), the frames given to [ws.send], the debug log. [requestId] is
    a counter that never wraps. *)
Record Client : Type := {
  ws : option nat;
  requestId : nat;
  pendingRequests : list (string * PendingRequest);
  connectPromise : option nat;
  sockets : list Socket;
  promises : list Promise;
  timers : list (option Timer);
  wire : list (nat * BridgeRequest);
  debug : list LogLine
}.

Definition new_client : Client :=
  {| ws := None; requestId := 0; pendingRequests := []; connectPromise := None;
     sockets := []; promises := []; timers := []; wire := []; debug := [] |}.

Definition with_ws (x : option nat) (c : Client) : Client :=
  {| ws := x; requestId := requestId c; pendingRequests := pendingRequests c;
     connectPromise := connectPromise c; sockets := sockets c;
     promises := promises c; timers := timers c; wire := wire c; debug := debug c |}.

Definition with_requestId (x : nat) (c : Client) : Client :=
  {| ws := ws c; requestId := x; pendingRequests := pendingRequests c;
     connectPromise := connectPromise c; sockets := sockets c;
     promises := promises c; timers := timers c; wire := wire c; debug := debug c |}.

Definition with_pendingRequests (x : list (string * PendingRequest)) (c : Client) : Client :=
  {| ws := ws c; requestId := requestId c; pendingRequests := x;
     connectPromise := connectPromise c; sockets := sockets c;
     promises := promises c; timers := timers c; wire := wire c; debug := debug c |}.

Definition with_connectPromise (x : option nat) (c : Client) : Client :=
  {| ws := ws c; requestId := requestId c; pendingRequests := pendingRequests c;
     connectPromise := x; sockets := sockets c;
     promises := promises c; timers := timers c; wire := wire c; debug := debug c |}.

Definition with_sockets (x : list Socket) (c : Client) : Client :=
  {| ws := ws c; requestId := requestId c; pendingRequests := pendingRequests c;
     connectPromise := connectPromise c; sockets := x;
     promises := promises c; timers := timers c; wire := wire c; debug := debug c |}.

Definition with_promises (x : list Promise) (c : Client) : Client :=
  {| ws := ws c; requestId := requestId c; pendingRequests := pendingRequests c;
     connectPromise := connectPromise c; sockets := sockets c;
     promises := x; timers := timers c; wire := wire c; debug := debug c |}.

Definition with_timers (x : list (option Timer)) (c : Client) : Client :=
  {| ws := ws c; requestId := requestId c; pendingRequests := pendingRequests c;
     connectPromise := connectPromise c; sockets := sockets c;
     promises := promises c; timers := x; wire := wire c; debug := debug c |}.

Definition with_wire (x : list (nat * BridgeRequest)) (c : Client) : Client :=
  {| ws := ws c; requestId := requestId c; pendingRequests := pendingRequests c;
     connectPromise := connectPromise c; sockets := sockets c;
     promises := promises c; timers := timers c; wire := x; debug := debug c |}.

(** [logDebug] *)
Definition logDebug (line : LogLine) (c : Client) : Client :=
  {| ws := ws c; requestId := requestId c; pendingRequests := pendingRequests c;
     connectPromise := connectPromise c; sockets := sockets c;
     promises := promises c; timers := timers c; wire := wire c;
     debug := debug c ++ [line] |}.

(** *** The runtime *)

(** [resolve] or [reject] of promise [p]: a promise settles once. *)
Definition settle (p : nat) (outcome : Promise) (c : Client) : Client :=
  match promises c !! p with
  | Some Unsettled => with_promises (<[p := outcome]> (promises c)) c
  | _ => c
  end.

Definition clearTimeout (t : nat) (c : Client) : Client :=
  with_timers (<[t := None]> (timers c)) c.

Definition set_readyState (s : nat) (r : ReadyState) (c : Client) : Client :=
  match sockets c !! s with
  | Some sock =>
      with_sockets (<[s := {| readyState := r; opener := opener sock;
                              deadline := deadline sock |}]> (sockets c)) c
  | None => c
  end.

(** [ws.close()] starts the closing handshake of a socket that is not
    closed yet. *)
Definition ws_close (s : nat) (c : Client) : Client :=
  match sockets c !! s with
  | Some sock =>
      match readyState sock with
      | CLOSED => c
      | _ => set_readyState s CLOSING c
      end
  | None => c
  end.

(** *** The client *)

Definition isConnected (c : Client) : bool :=
  match ws c with
  | Some s =>
      match sockets c !! s with
      | Some sock => match readyState sock with OPEN => true | _ => false end
      | None => false
      end
  | None => false
  end.

(** Settling the promise built in [connect]; its [finally] callback
    clears [connectPromise]. *)
Definition settle_connect (p : nat) (outcome : Promise) (c : Client) : Client :=
  match promises c !! p with
  | Some Unsettled => with_connectPromise None (settle p outcome c)
  | _ => c
  end.

Inductive Connecting : Type :=
| AlreadyConnected
| Attempt (promise : nat).

Definition connect (c : Client) : Connecting * Client :=
  if isConnected c then (AlreadyConnected, c)
  else match connectPromise c with
       | Some p => (Attempt p, c)
       | None =>
           let p := length (promises c) in
           let s := length (sockets c) in
           let t := length (timers c) in
           let c := with_promises (promises c ++ [Unsettled]) c in
           let c := logDebug LogConnecting c in
           let c := with_sockets
                      (sockets c ++ [{| readyState := CONNECTING; opener := p;
                                        deadline := t |}]) c in
           let c := with_timers (timers c ++ [Some (ConnectTimer s p)]) c in
           (Attempt p, with_connectPromise (Some p) c)
       end.

(** The ['open'] listener of socket [s]; the socket is open when it runs. *)
Definition on_open (s : nat) (c : Client) : Client :=
  match sockets c !! s with
  | Some sock =>
      let c := set_readyState s OPEN c in
      let c := clearTimeout (deadline sock) c in
      let c := with_ws (Some s) c in
      let c := logDebug LogConnected c in
      settle_connect (opener sock) (Fulfilled Undefined) c
  | None => c
  end.

(** The ['message'] listener. [parsed] is what
    [JSON.parse(data.toString())] produced, [None] when it threw. Reading
    [response.id] throws on [null]; both exceptions end in the [catch]. *)
Definition on_message (parsed : option Value) (c : Client) : Client :=
  match parsed with
  | None => logDebug LogParseFailure c
  | Some Null | Some Undefined => logDebug LogParseFailure c
  | Some response =>
      match prop response "id" with
      | Str key =>
          match Assoc.get key (pendingRequests c) with
          | Some pending =>
              let c := clearTimeout (timer pending) c in
              let c := with_pendingRequests (Assoc.delete key (pendingRequests c)) c in
              if truthy (prop response "error")
              then settle (resolver pending)
                     (Rejected (BridgeError (prop (prop response "error") "message"))) c
              else settle (resolver pending) (Fulfilled (prop response "result")) c
          | None => c
          end
      | _ => c   (* the keys of the map are strings; no other value is found *)
      end
  end.

(** The body of the [for ... of] loop in the ['close'] listener. *)
Fixpoint reject_all (entries : list (string * PendingRequest)) (c : Client) : Client :=
  match entries with
  | [] => c
  | (_, pending) :: rest =>
      let c := clearTimeout (timer pending) c in
      let c := settle (resolver pending) (Rejected ConnectionClosed) c in
      reject_all rest c
  end.

(** The ['close'] listener of socket [s]; the socket is closed when it runs. *)
Definition on_close (s : nat) (c : Client) : Client :=
  let c := set_readyState s CLOSED c in
  let c := logDebug LogDisconnected c in
  let c := with_ws None c in
  let c := reject_all (pendingRequests c) c in
  with_pendingRequests [] c.

(** The ['error'] listener of socket [s]. *)
Definition on_error (s : nat) (c : Client) : Client :=
  match sockets c !! s with
  | Some sock =>
      let c := clearTimeout (deadline sock) c in
      let c := logDebug LogConnectionError c in
      let c := with_ws None c in
      settle_connect (opener sock) (Rejected CannotConnect) c
  | None => c
  end.

(** Timer [t] fires: the callback given to [setTimeout] runs once. *)
Definition on_timer (t : nat) (c : Client) : Client :=
  match timers c !! t with
  | Some (Some job) =>
      let c := clearTimeout t c in
      match job with
      | RequestTimer id method timeoutMs p =>
          let c := with_pendingRequests (Assoc.delete id (pendingRequests c)) c in
          settle p (Rejected (RequestTimedOut method timeoutMs)) c
      | ConnectTimer s p =>
          let c := ws_close s c in
          settle_connect p (Rejected ConnectTimedOut) c
      end
  | _ => c
  end.

Inductive Requested : Type :=
| AwaitingConnect (attempt : Connecting)
    (* suspended in [await this.connect()] *)
| Sent (promise : nat).

(** [request], from the allocation of the id on. *)
Definition request_send (method : string) (params : Value) (timeoutMs : N)
    (s : nat) (c : Client) : nat * Client :=
  let c := with_requestId (S (requestId c)) c in
  let id := pretty (requestId c) in
  let request := {| id := id; method := method; params := params |} in
  let p := length (promises c) in
  let c := with_promises (promises c ++ [Unsettled]) c in
  let t := length (timers c) in
  let c := with_timers (timers c ++ [Some (RequestTimer id method timeoutMs p)]) c in
  let c := with_pendingRequests
             (Assoc.set id {| resolver := p; timer := t |} (pendingRequests c)) c in
  let c := logDebug (LogSending request) c in
  (p, with_wire (wire c ++ [(s, request)]) c).

Definition request (method : string) (params : Value) (timeoutMs : N)
    (c : Client) : Requested * Client :=
  if isConnected c
  then match ws c with
       | Some s => let '(p, c) := request_send method params timeoutMs s c in (Sent p, c)
       | None => (AwaitingConnect AlreadyConnected, c)
       end
  else let '(a, c) := connect c in (AwaitingConnect a, c).

Definition disconnect (c : Client) : Client :=
  match ws c with
  | Some s => with_ws None (ws_close s c)
  | None => c
  end.

(** What can happen to a client. *)
Inductive Event : Type :=
| CallConnect
| CallRequest (method : string) (params : Value) (timeoutMs : N)
| CallDisconnect
| SocketOpen (s : nat)
| SocketMessage (parsed : option Value)
| SocketClose (s : nat)
| SocketError (s : nat)
| TimerFires (t : nat).

Definition step (e : Event) (c : Client) : Client :=
  match e with
  | CallConnect => snd (connect c)
  | CallRequest method params timeoutMs => snd (request method params timeoutMs c)
  | CallDisconnect => disconnect c
  | SocketOpen s => on_open s c
  | SocketMessage parsed => on_message parsed c
  | SocketClose s => on_close s c
  | SocketError s => on_error s c
  | TimerFires t => on_timer t c
  end.

Definition run (events : list Event) (c : Client) : Client :=
  fold_left (fun c e => step e c) events c.

(** *** The invariant of the pending table *)

Record consistent (c : Client) : Prop := {
  unique_ids : List.NoDup (Assoc.keys (pendingRequests c));
  ids_issued : forall k pr, In (k, pr) (pendingRequests c) ->
      exists n, k = pretty n /\ (n <= requestId c)%nat;
  pending_unsettled : forall k pr, In (k, pr) (pendingRequests c) ->
      promises c !! resolver pr = Some Unsettled;
  pending_timer : forall k pr, In (k, pr) (pendingRequests c) ->
      exists method timeoutMs,
        timers c !! timer pr = Some (Some (RequestTimer k method timeoutMs (resolver pr)));
  timer_pending : forall t k method timeoutMs p,
      timers c !! t = Some (Some (RequestTimer k method timeoutMs p)) ->
      Assoc.get k (pendingRequests c) = Some {| resolver := p; timer := t |};
  timer_socket : forall t s p,
      timers c !! t = Some (Some (ConnectTimer s p)) ->
      exists sock, sockets c !! s = Some sock /\ opener sock = p;
  deadline_connect : forall s sock, sockets c !! s = Some sock ->
      exists job, timers c !! deadline sock = Some job
        /\ forall k method timeoutMs p, job <> Some (RequestTimer k method timeoutMs p);
  opener_known : forall s sock, sockets c !! s = Some sock ->
      (opener sock < length (promises c))%nat;
  opener_not_pending : forall s sock k pr,
      sockets c !! s = Some sock -> In (k, pr) (pendingRequests c) ->
      resolver pr <> opener sock;
  attempt_open : forall p, connectPromise c = Some p ->
      promises c !! p = Some Unsettled
      /\ exists s sock, sockets c !! s = Some sock /\ opener sock = p;
  resolver_owner : forall k pr k' pr',
      In (k, pr) (pendingRequests c) -> In (k', pr') (pendingRequests c) ->
      resolver pr = resolver pr' -> k = k'
}.

End BridgeClient.

(** ** GDScript values (target side) *)

Module Godot.

Definition Vector2 : Type := (Q * Q)%type.

(** The objects the sources create. A field of a shape is [None] while
    it holds what [new()] put there. *)
Inductive Object : Type :=
| Resource (path : string)
| RectangleShape2D (size : option Vector2)
| CircleShape2D (radius : option Q)
| CapsuleShape2D (radius height : option Q)
| WorldBoundaryShape2D (normal : option Vector2) (distance : option Q)
| SegmentShape2D (a b : option Vector2)
| ConvexPolygonShape2D (points : option (list Vector2)).

Inductive Variant : Type :=
| Nil
| VBool (b : bool)
| VInt (i : Z)
| VFloat (f : Q)
| VString (s : string)
| VArray (elems : list Variant)
| VDictionary (entries : list (string * Variant))
| VVector2 (x y : Q)
| VVector2i (x y : Z)
| VVector3 (x y z : Q)
| VVector3i (x y z : Z)
| VColor (r g b a : Q)
| VRect2 (x y w h : Q)
| VNodePath (path : string)
| VSignal (signal : nat)
| VObject (o : Object).

(** What ends a call early. *)
Inductive ScriptError : Type :=
| InvalidAssignment (variable : string)
    (* a typed local or property receives a value of another type *)
| InvalidOperands (operator : string)
| InvalidArgument (callee : string).

Inductive Result (A : Type) : Type :=
| Ok (a : A)
| Raise (e : ScriptError).
Arguments Ok {A} a.
Arguments Raise {A} e.

Definition bind {A B : Type} (r : Result A) (k : A -> Result B) : Result B :=
  match r with
  | Ok a => k a
  | Raise e => Raise e
  end.

Notation "'let*' x ':=' r 'in' k" := (bind r (fun x => k))
  (at level 10, x name, r at level 100, k at level 200).

(** What the scripts ask of the engine and do not define. *)
Class Engine : Type := {
  (* [str(v)] for a value that is neither a String nor an int *)
  var_to_str : Variant -> string;
  (* [ResourceLoader.exists(path)] *)
  ResourceLoader_exists : string -> bool
}.

Section Builtins.
Context {engine : Engine}.

(** [str(v)] *)
Definition str (v : Variant) : string :=
  match v with
  | VString s => s
  | VInt i => pretty i
  | _ => var_to_str v
  end.

(** [d.get(key, default)] *)
Definition dict_get (key : string) (default : Variant)
    (d : list (string * Variant)) : Variant :=
  match Assoc.get key d with
  | Some v => v
  | None => default
  end.

(** A value given where a [float] is expected. *)
Definition to_float (callee : string) (v : Variant) : Result Q :=
  match v with
  | VFloat f => Ok f
  | VInt i => Ok (inject_Z i)
  | _ => Raise (InvalidArgument callee)
  end.

(** [int(v)], on numbers and booleans. *)
Definition int (v : Variant) : Result Z :=
  match v with
  | VInt i => Ok i
  | VFloat f => Ok (Z.quot (Qnum f) (Zpos (Qden f)))
  | VBool b => Ok (if b then 1%Z else 0%Z)
  | _ => Raise (InvalidArgument "int")
  end.

(** A value given where a [String] is expected. *)
Definition to_String (callee : string) (v : Variant) : Result string :=
  match v with
  | VString s => Ok s
  | _ => Raise (InvalidArgument callee)
  end.

(** [var name: String = v] *)
Definition typed_String (name : string) (v : Variant) : Result string :=
  match v with
  | VString s => Ok s
  | _ => Raise (InvalidAssignment name)
  end.

(** [shape.property = v] for a property of type [Vector2]. *)
Definition assign_Vector2 (property : string) (v : Variant) : Result Vector2 :=
  match v with
  | VVector2 x y => Ok (x, y)
  | _ => Raise (InvalidAssignment property)
  end.

(** [shape.property = v] for a property of type [float]. *)
Definition assign_float (property : string) (v : Variant) : Result Q :=
  match v with
  | VFloat f => Ok f
  | VInt i => Ok (inject_Z i)
  | _ => Raise (InvalidAssignment property)
  end.

(** [load(path)] of a path that exists. *)
Definition load (path : string) : Variant := VObject (Resource path).

(** [string + v] *)
Definition concat (s : string) (v : Variant) : Result string :=
  match v with
  | VString t => Ok (String.append s t)
  | _ => Raise (InvalidOperands "+")
  end.

End Builtins.

(** An engine for the examples: a project that holds one resource. *)
Definition example_engine : Engine :=
  {| var_to_str := fun _ => "<value>";
     ResourceLoader_exists := String.eqb "res://icon.svg" |}.

End Godot.

(** ** Typed values on the target side *)

Module TypedValues.
Import Godot.

Section Decode.
Context {engine : Engine}.

Definition make_Vector2 (value : list (string * Variant)) : Result Variant :=
  let* x := to_float "Vector2" (dict_get "x" (VFloat 0) value) in
  let* y := to_float "Vector2" (dict_get "y" (VFloat 0) value) in
  Ok (VVector2 x y).

Definition make_Vector2i (value : list (string * Variant)) : Result Variant :=
  let* x := int (dict_get "x" (VInt 0) value) in
  let* y := int (dict_get "y" (VInt 0) value) in
  Ok (VVector2i x y).

Definition make_Vector3 (value : list (string * Variant)) : Result Variant :=
  let* x := to_float "Vector3" (dict_get "x" (VFloat 0) value) in
  let* y := to_float "Vector3" (dict_get "y" (VFloat 0) value) in
  let* z := to_float "Vector3" (dict_get "z" (VFloat 0) value) in
  Ok (VVector3 x y z).

Definition make_Vector3i (value : list (string * Variant)) : Result Variant :=
  let* x := int (dict_get "x" (VInt 0) value) in
  let* y := int (dict_get "y" (VInt 0) value) in
  let* z := int (dict_get "z" (VInt 0) value) in
  Ok (VVector3i x y z).

Definition make_Color (value : list (string * Variant)) : Result Variant :=
  let* r := to_float "Color" (dict_get "r" (VFloat 0) value) in
  let* g := to_float "Color" (dict_get "g" (VFloat 0) value) in
  let* b := to_float "Color" (dict_get "b" (VFloat 0) value) in
  let* a := to_float "Color" (dict_get "a" (VFloat 1) value) in
  Ok (VColor r g b a).

Definition make_Rect2 (value : list (string * Variant)) : Result Variant :=
  let* x := to_float "Rect2" (dict_get "x" (VFloat 0) value) in
  let* y := to_float "Rect2" (dict_get "y" (VFloat 0) value) in
  let* w := to_float "Rect2" (dict_get "w" (VFloat 0) value) in
  let* h := to_float "Rect2" (dict_get "h" (VFloat 0) value) in
  Ok (VRect2 x y w h).

Definition make_NodePath (value : list (string * Variant)) : Result Variant :=
  let* path := to_String "NodePath" (dict_get "path" (VString "") value) in
  Ok (VNodePath path).

(** The ["Resource"] branch: the path is compared with [""] and given
    to [ResourceLoader.exists], which takes a String. *)
Definition make_Resource (value : list (string * Variant)) : Result Variant :=
  let* res_path := to_String "ResourceLoader.exists" (dict_get "path" (VString "") value) in
  if negb (String.eqb res_path "") && ResourceLoader_exists res_path
  then Ok (load res_path)
  else Ok Nil.

(** [if value.has(key): shape.key = ...]: the assignment, when the key
    is there. *)
Definition when_present {A : Type} (field : option (Result Variant))
    (assign : Variant -> Result A) : Result (option A) :=
  match field with
  | Some r => let* v := r in let* a := assign v in Ok (Some a)
  | None => Ok None
  end.

(** [value[key]], when the key is there. *)
Definition field (key : string) (value : list (string * Variant)) : option (Result Variant) :=
  match Assoc.get key value with
  | Some v => Some (Ok v)
  | None => None
  end.

(** The loops and the conditional conversions of the two decoders, over
    the function both name [convert]. *)
Section Loops.
Variable convert : Variant -> Result Variant.

(** [for key in value: result[key] = convert(value[key])] *)
Fixpoint walk (entries result : list (string * Variant))
    : Result (list (string * Variant)) :=
  match entries with
  | [] => Ok result
  | (key, v) :: rest =>
      let* c := convert v in
      walk rest (Assoc.set key c result)
  end.

(** [convert(value[key])], when [value.has(key)] *)
Fixpoint converted (key : string) (value : list (string * Variant))
    : option (Result Variant) :=
  match value with
  | [] => None
  | (k, v) :: rest =>
      if String.eqb key k then Some (convert v) else converted key rest
  end.

(** [for pt in points: pts.append(convert(pt))] *)
Fixpoint append_each (points : list Variant) : Result (list Vector2) :=
  match points with
  | [] => Ok []
  | pt :: more =>
      let* c := convert pt in
      let* p := assign_Vector2 "append" c in
      let* ps := append_each more in
      Ok (p :: ps)
  end.

(** The loop over [value["points"]], when [value.has("points")] and
    that value is an Array. *)
Fixpoint converted_points (value : list (string * Variant))
    : option (Result (list Vector2)) :=
  match value with
  | [] => None
  | (k, v) :: rest =>
      if String.eqb "points" k
      then match v with
           | VArray points => Some (append_each points)
           | _ => None
           end
      else converted_points rest
  end.

End Loops.

(** [convert_typed_value] of the headless operations script. *)
Fixpoint convert_typed_value (value : Variant) : Result Variant :=
  match value with
  | VDictionary entries =>
      if negb (Assoc.has "_type" entries)
      then
        let* result := walk convert_typed_value entries [] in
        Ok (VDictionary result)
      else
        match dict_get "_type" Nil entries with
        | VString t =>
            if String.eqb t "Vector2" then make_Vector2 entries
            else if String.eqb t "Vector2i" then make_Vector2i entries
            else if String.eqb t "Vector3" then make_Vector3 entries
            else if String.eqb t "Vector3i" then make_Vector3i entries
            else if String.eqb t "Color" then make_Color entries
            else if String.eqb t "Rect2" then make_Rect2 entries
            else if String.eqb t "NodePath" then make_NodePath entries
            else if String.eqb t "Resource" then make_Resource entries
            else if String.eqb t "RectangleShape2D" then
              let* size := when_present (converted convert_typed_value "size" entries)
                             (assign_Vector2 "size") in
              Ok (VObject (RectangleShape2D size))
            else if String.eqb t "CircleShape2D" then
              let* radius := when_present (field "radius" entries) (assign_float "radius") in
              Ok (VObject (CircleShape2D radius))
            else if String.eqb t "CapsuleShape2D" then
              let* radius := when_present (field "radius" entries) (assign_float "radius") in
              let* height := when_present (field "height" entries) (assign_float "height") in
              Ok (VObject (CapsuleShape2D radius height))
            else if String.eqb t "WorldBoundaryShape2D" then
              let* normal := when_present (converted convert_typed_value "normal" entries)
                               (assign_Vector2 "normal") in
              let* distance := when_present (field "distance" entries)
                                 (assign_float "distance") in
              Ok (VObject (WorldBoundaryShape2D normal distance))
            else if String.eqb t "SegmentShape2D" then
              let* a := when_present (converted convert_typed_value "a" entries)
                          (assign_Vector2 "a") in
              let* b := when_present (converted convert_typed_value "b" entries)
                          (assign_Vector2 "b") in
              Ok (VObject (SegmentShape2D a b))
            else if String.eqb t "ConvexPolygonShape2D" then
              match converted_points convert_typed_value entries with
              | Some r => let* pts := r in Ok (VObject (ConvexPolygonShape2D (Some pts)))
              | None => Ok (VObject (ConvexPolygonShape2D None))
              end
            else
              (* log_debug("Unknown _type in convert_typed_value: " + t) *)
              Ok value
        | t =>
            (* no pattern of the [match] is equal to a value that is not
               a String; the default branch concatenates it to one *)
            let* message := concat "Unknown _type in convert_typed_value: " t in
            Ok value
        end
  | _ => Ok value
  end.

(** [_convert_typed_value] of the live level handler
    (handlers/level_handler.gd). *)
Fixpoint _convert_typed_value (value : Variant) : Result Variant :=
  match value with
  | VDictionary entries =>
      if negb (Assoc.has "_type" entries)
      then
        let* result := walk _convert_typed_value entries [] in
        Ok (VDictionary result)
      else
        let* t := typed_String "t" (dict_get "_type" (VString "") entries) in
        if String.eqb t "Vector2" then make_Vector2 entries
        else if String.eqb t "Vector2i" then make_Vector2i entries
        else if String.eqb t "Vector3" then make_Vector3 entries
        else if String.eqb t "Vector3i" then make_Vector3i entries
        else if String.eqb t "Color" then make_Color entries
        else if String.eqb t "Rect2" then make_Rect2 entries
        else if String.eqb t "NodePath" then make_NodePath entries
        else if String.eqb t "Resource" then
          let* res_path := typed_String "res_path" (dict_get "path" (VString "") entries) in
          if negb (String.eqb res_path "") && ResourceLoader_exists res_path
          then Ok (load res_path)
          else Ok Nil
        else Ok value
  | _ => Ok value
  end.

End Decode.

(** *** The vocabulary of the specification *)

(** The discriminators [convert_typed_value] has a branch for; they are
    the [KNOWN_TYPES] of the controller. *)
Definition headless_types : list string := GodotTypes.KNOWN_TYPES.

(** The discriminators [_convert_typed_value] has a branch for. *)
Definition live_types : list string :=
  [ "Vector2"; "Vector2i"; "Vector3"; "Vector3i";
    "Color"; "Rect2"; "NodePath"; "Resource" ].



(** Entry by entry: the same key, the converted value. *)
Definition converts (f : Variant -> Result Variant) (e o : string * Variant) : Prop :=
  fst o = fst e /\ f (snd e) = Ok (snd o).









End TypedValues.

(** ** The live handlers *)

Module Handlers.
Import Godot TypedValues.

(** [signal screenshot_ready(result: Dictionary)] of the screenshot
    handler; a signal is known by its number. *)
Definition screenshot_ready : nat := 0.

(** [handle] of the screenshot handler. [_capture_deferred(params)]
    starts the capture, which emits [screenshot_ready] in a later frame;
    the call itself yields at its first [await]. *)
Definition handle (params : Variant) : Variant :=
  VDictionary [("_deferred", VSignal screenshot_ready)].

(** [_handle_ping] *)
Definition _handle_ping (_params : Variant) : Variant :=
  VDictionary [("status", VString "ok");
               ("server", VString "mechanical-turk-mcp");
               ("version", VString "0.1.0")].

(** The scene the level handler works on: [get_tree()], and
    [tree.root.get_node_or_null(path)]. A node is known by its number. *)
Record SceneTree : Type := {
  root : nat;
  get_node_or_null : string -> option nat
}.

(** [s.trim_prefix(prefix)] *)
Fixpoint trim_prefix_from (prefix s : string) : option string :=
  match prefix, s with
  | EmptyString, rest => Some rest
  | String p prefix', String c s' =>
      if Ascii.eqb p c then trim_prefix_from prefix' s' else None
  | String _ _, EmptyString => None
  end.

Definition trim_prefix (prefix s : string) : string :=
  match trim_prefix_from prefix s with
  | Some rest => rest
  | None => s
  end.

(** What a handler did to the scene: [node.set(property, value)]. *)
Record PropertySet : Type := { target : nat; property : string; assigned : Variant }.

Section LevelHandler.
Context {engine : Engine}.

(** [handle_set_property] of the level handler: what it returns, and
    the assignment it made. *)
Definition handle_set_property (tree : option SceneTree) (params : Variant)
    : Result (Variant * option PropertySet) :=
  match params with
  | VDictionary params =>
      let* node_path := typed_String "node_path" (dict_get "node_path" (VString "") params) in
      let* property := typed_String "property" (dict_get "property" (VString "") params) in
      let value := dict_get "value" Nil params in
      if String.eqb node_path "" || String.eqb property ""
      then Ok (VDictionary [("error", VString "node_path and property are required")], None)
      else
        match tree with
        | None => Ok (VDictionary [("error", VString "No scene tree available")], None)
        | Some tree =>
            let node := get_node_or_null tree (trim_prefix "/root" node_path) in
            let node := if String.eqb node_path "/root" then Some (root tree) else node in
            match node with
            | None =>
                Ok (VDictionary [("error", VString (String.append "Node not found: " node_path))],
                    None)
            | Some node =>
                let* converted := _convert_typed_value value in
                Ok (VDictionary [("status", VString "ok"); ("node", VString node_path);
                                 ("property", VString property)],
                    Some {| target := node; property := property; assigned := converted |})
            end
        end
  | _ => Ok (VDictionary [("error", VString "Invalid params")], None)
  end.

(** The handler as the registry holds it. A call that a runtime error
    ends gives its caller [null]. *)
Definition set_node_property (tree : option SceneTree) (params : Variant) : Variant :=
  match handle_set_property tree params with
  | Ok (result, _) => result
  | Raise _ => Nil
  end.

End LevelHandler.

(** A scene for the examples: one node, [/root/Player]. *)
Definition example_tree : SceneTree :=
  {| root := 0;
     get_node_or_null := fun path => if String.eqb path "/Player" then Some 1%nat else None |}.

End Handlers.

(** ** The bridge server of the editor plugin *)

Module BridgeServer.
Import Godot.

(** A registered handler, as the dispatcher sees it: the value its call
    returns. *)
Definition Callable : Type := Variant -> Variant.

(** What [json.parse(data)] gave. *)
Inductive Parsed : Type :=
| ParseError (error_message : string)
| Data (msg : Variant).

(** A frame given to [peer.send_text], before [JSON.stringify]; [call]
    is the number of the [_handle_message] call that sent it. *)
Record Frame : Type := { peer : nat; call : nat; response : Variant }.

(** A call of [_handle_message] suspended at [await deferred_signal]. *)
Record Awaiting : Type := {
  awaiting_call : nat;
  awaiting_peer : nat;
  awaiting_id : string;
  deferred_signal : nat
}.

(** The dispatcher: its registry, the frames it has sent, the calls it
    has suspended, the calls a runtime error has ended, and the number
    of calls of [_handle_message] so far. *)
Record Server : Type := {
  _handlers : list (string * Callable);
  sent : list Frame;
  suspended : list Awaiting;
  failed : list (nat * ScriptError);
  calls : nat
}.

Definition start (handlers : list (string * Callable)) : Server :=
  {| _handlers := handlers; sent := []; suspended := []; failed := []; calls := 0 |}.

(** The registrations of [_ready], over the handlers of the four
    handler nodes. *)
Definition _ready (capture_screenshot send_input_event send_action get_scene_tree
                   get_node_properties set_node_property delete_node set_tiles
                   reparent_node : Callable) : list (string * Callable) :=
  Assoc.set "reparent_node" reparent_node
    (Assoc.set "set_tiles" set_tiles
       (Assoc.set "delete_node" delete_node
          (Assoc.set "set_node_property" set_node_property
             (Assoc.set "get_node_properties" get_node_properties
                (Assoc.set "get_scene_tree" get_scene_tree
                   (Assoc.set "send_action" send_action
                      (Assoc.set "send_input_event" send_input_event
                         (Assoc.set "capture_screenshot" capture_screenshot
                            (Assoc.set "ping" Handlers._handle_ping [] ))))))))).

(** A registry for the examples: the screenshot handler, the ping
    handler and the property handler of the sources; the other handlers
    answer [{status: "ok"}]. *)
Definition example_registry : list (string * Callable) :=
  let done := fun _ : Variant => VDictionary [("status", VString "ok")] in
  _ready Handlers.handle done done done done
    (Handlers.set_node_property (engine := example_engine) (Some Handlers.example_tree))
    done done done.

Section Dispatcher.
Context {engine : Engine}.

Definition send_text (p n : nat) (response : Variant) (s : Server) : Server :=
  {| _handlers := _handlers s;
     sent := sent s ++ [{| peer := p; call := n; response := response |}];
     suspended := suspended s; failed := failed s; calls := calls s |}.

Definition _send_result (p n : nat) (id : string) (result : Variant) (s : Server) : Server :=
  send_text p n (VDictionary [("id", VString id); ("result", result)]) s.

Definition _send_error (p n : nat) (id : string) (code : Z) (message : string)
    (s : Server) : Server :=
  send_text p n
    (VDictionary [("id", VString id);
                  ("error", VDictionary [("code", VInt code);
                                         ("message", VString message)])]) s.

Definition suspend (a : Awaiting) (s : Server) : Server :=
  {| _handlers := _handlers s; sent := sent s;
     suspended := suspended s ++ [a]; failed := failed s; calls := calls s |}.

Definition fail (n : nat) (e : ScriptError) (s : Server) : Server :=
  {| _handlers := _handlers s; sent := sent s;
     suspended := suspended s; failed := failed s ++ [(n, e)]; calls := calls s |}.

Definition count_call (s : Server) : Server :=
  {| _handlers := _handlers s; sent := sent s;
     suspended := suspended s; failed := failed s; calls := S (calls s) |}.

(** [_handle_message(peer, data)], from the result of [json.parse(data)]
    on. *)
Definition _handle_message (p : nat) (parsed : Parsed) (s : Server) : Server :=
  let n := calls s in
  let s := count_call s in
  match parsed with
  | ParseError error_message =>
      _send_error p n "0" (-32700) (String.append "Parse error: " error_message) s
  | Data (VDictionary msg) =>
      let id := str (dict_get "id" (VString "0") msg) in
      match typed_String "method" (dict_get "method" (VString "") msg) with
      | Raise e => fail n e s
      | Ok method =>
          let params := dict_get "params" (VDictionary []) msg in
          if String.eqb method ""
          then _send_error p n id (-32600) "Missing method" s
          else
            match Assoc.get method (_handlers s) with
            | None =>
                _send_error p n id (-32601) (String.append "Method not found: " method) s
            | Some handler =>
                let result := handler params in
                match result with
                | VDictionary fields =>
                    if Assoc.has "_deferred" fields
                    then
                      match dict_get "_deferred" Nil fields with
                      | VSignal g =>
                          suspend {| awaiting_call := n; awaiting_peer := p;
                                     awaiting_id := id; deferred_signal := g |} s
                      | _ => fail n (InvalidAssignment "deferred_signal") s
                      end
                    else _send_result p n id result s
                | _ => _send_result p n id result s
                end
            end
      end
  | Data _ =>
      _send_error p n "0" (-32600) "Invalid request: expected object" s
  end.

(** Signal [g] is emitted with [value]: every call suspended on it
    resumes, in the order they were suspended, and sends its result. *)
Fixpoint resume (g : nat) (value : Variant) (waiting : list Awaiting) (s : Server)
    : Server :=
  match waiting with
  | [] => s
  | a :: rest =>
      if Nat.eqb (deferred_signal a) g
      then resume g value rest
             (_send_result (awaiting_peer a) (awaiting_call a) (awaiting_id a) value s)
      else resume g value rest s
  end.

Definition emit (g : nat) (value : Variant) (s : Server) : Server :=
  let waiting := suspended s in
  let s := resume g value waiting s in
  {| _handlers := _handlers s; sent := sent s;
     suspended := List.filter (fun a => negb (Nat.eqb (deferred_signal a) g)) waiting;
     failed := failed s; calls := calls s |}.

(** What the dispatcher meets between two frames of the host. *)
Inductive Event : Type :=
| Packet (p : nat) (parsed : Parsed)
| Emitted (g : nat) (value : Variant).

Definition step (e : Event) (s : Server) : Server :=
  match e with
  | Packet p parsed => _handle_message p parsed s
  | Emitted g value => emit g value s
  end.

Definition run (events : list Event) (s : Server) : Server :=
  fold_left (fun s e => step e s) events s.

End Dispatcher.

(** *** The vocabulary of the specification *)

(** The response [{id, error: {code, message}}]. *)
Definition error_response (id : string) (code : Z) (message : string) : Variant :=
  VDictionary [("id", VString id);
               ("error", VDictionary [("code", VInt code); ("message", VString message)])].

(** The response [{id, result}]. *)
Definition result_response (id : string) (result : Variant) : Variant :=
  VDictionary [("id", VString id); ("result", result)].

(** The frames call [n] has sent. *)
Definition frames_of (n : nat) (s : Server) : list Frame :=
  List.filter (fun f => Nat.eqb (call f) n) (sent s).

Definition emits (g : nat) (e : Event) : bool :=
  match e with
  | Emitted g' _ => Nat.eqb g' g
  | Packet _ _ => false
  end.

(** Every frame sent and every suspended call has the number of a call
    that took place. *)
Definition well_numbered (s : Server) : Prop :=
  (forall f, In f (sent s) -> (call f < calls s)%nat)
  /\ (forall a, In a (suspended s) -> (awaiting_call a < calls s)%nat).

(** The frame a suspended call sends when its signal brings [value]. *)
Definition resumed (value : Variant) (a : Awaiting) : Frame :=
  {| peer := awaiting_peer a; call := awaiting_call a;
     response := result_response (awaiting_id a) value |}.

(** Call [n] is suspended as [a] and has sent nothing. *)
Definition waiting_for_signal (n : nat) (a : Awaiting) (s : Server) : Prop :=
  List.filter (fun a' => Nat.eqb (awaiting_call a') n) (suspended s) = [a]
  /\ frames_of n s = []
  /\ (n < calls s)%nat.


End BridgeServer.

(** ** The polling loop of the bridge server (mcp_bridge_server) *)

Module BridgeLoop.
Import Godot BridgeServer.

(** [WebSocketPeer.get_ready_state()] *)
Inductive State : Type := STATE_CONNECTING | STATE_OPEN | STATE_CLOSING | STATE_CLOSED.

(** What [peer.poll()] brings in a frame: the state it leaves the peer
    in, and the packets then available, each as [json.parse] reads
    it. *)
Record Polled : Type := { get_ready_state : State; packets : list Parsed }.

(** The node: whether [_tcp_server] holds a server, [_peers] (a peer is
    known by its number), the peers [close()] was called on, and the
    dispatcher. *)
Record Bridge : Type := {
  _tcp_server : bool;
  _peers : list nat;
  closed : list nat;
  dispatcher : Server
}.

(** The [while _tcp_server.is_connection_available()] loop. An element
    of [incoming] is a connection waiting to be taken: the peer
    [accept_stream] made of it, [None] when the connection was null or
    the upgrade failed. *)
Definition accept (incoming : list (option nat)) (peers : list nat) : list nat :=
  fold_left (fun peers conn =>
               match conn with
               | Some ws_peer => peers ++ [ws_peer]
               | None => peers
               end) incoming peers.

(** [a.remove_at(i)]; an index out of range is reported and removes
    nothing. *)
Definition remove_at (i : nat) (a : list nat) : list nat := delete i a.

(** [for i in range(to_remove.size() - 1, -1, -1):
       _peers.remove_at(to_remove[i])] *)
Definition remove_all (to_remove : list nat) (peers : list nat) : list nat :=
  fold_left (fun peers i => remove_at i peers) (rev to_remove) peers.

Section Process.
Context {engine : Engine}.
Variable poll : nat -> Polled.

(** [while peer.get_available_packet_count() > 0:
       _handle_message(peer, peer.get_packet()...)] *)
Definition drain (peer : nat) (data : list Parsed) (s : Server) : Server :=
  fold_left (fun s d => _handle_message peer d s) data s.

(** [for i in range(_peers.size())], from index [i] on. *)
Fixpoint poll_peers (i : nat) (peers : list nat) (to_remove : list nat) (s : Server)
    : list nat * Server :=
  match peers with
  | [] => (to_remove, s)
  | peer :: rest =>
      match get_ready_state (poll peer) with
      | STATE_OPEN =>
          poll_peers (S i) rest to_remove (drain peer (packets (poll peer)) s)
      | STATE_CLOSED => poll_peers (S i) rest (to_remove ++ [i]) s
      | STATE_CLOSING | STATE_CONNECTING => poll_peers (S i) rest to_remove s
      end
  end.

Definition _process (incoming : list (option nat)) (b : Bridge) : Bridge :=
  if negb (_tcp_server b) then b
  else
    let peers := accept incoming (_peers b) in
    let '(to_remove, s) := poll_peers 0 peers [] (dispatcher b) in
    {| _tcp_server := true; _peers := remove_all to_remove peers;
       closed := closed b; dispatcher := s |}.

End Process.

Definition stop_server (b : Bridge) : Bridge :=
  {| _tcp_server := false; _peers := []; closed := closed b ++ _peers b;
     dispatcher := dispatcher b |}.

(** *** The vocabulary of the properties *)

Definition is_closed (st : State) : bool :=
  match st with STATE_CLOSED => true | _ => false end.

(** The connections of [incoming] that became peers. *)
Definition accepted (incoming : list (option nat)) : list nat :=
  flat_map (fun conn => match conn with Some ws_peer => [ws_peer] | None => [] end)
           incoming.

(** The packets a frame dispatches: those of the peers that [poll] left
    open, peer after peer. *)
Definition dispatched (poll : nat -> Polled) (peers : list nat) : list Event :=
  flat_map (fun peer =>
              match get_ready_state (poll peer) with
              | STATE_OPEN => map (Packet peer) (packets (poll peer))
              | _ => []
              end) peers.

End BridgeLoop.

(** ** The calls of the dispatcher, one by one *)

Module Calls.
Import Godot BridgeServer.

(** The suspensions of call [n]. *)
Definition suspended_of (n : nat) (s : Server) : list Awaiting :=
  List.filter (fun a => Nat.eqb (awaiting_call a) n) (suspended s).

(** The runtime errors that ended call [n]. *)
Definition failed_of (n : nat) (s : Server) : list (nat * ScriptError) :=
  List.filter (fun e => Nat.eqb (fst e) n) (failed s).

(** How many outcomes call [n] has had: frames sent, suspensions, and
    runtime errors. *)
Definition outcomes (n : nat) (s : Server) : nat :=
  length (frames_of n s) + length (suspended_of n s) + length (failed_of n s).

(** The names [_ready] registers, in the order it registers them. *)
Definition method_names : list string :=
  [ "ping"; "capture_screenshot"; "send_input_event"; "send_action";
    "get_scene_tree"; "get_node_properties"; "set_node_property";
    "delete_node"; "set_tiles"; "reparent_node" ].

(** The request [{"id": id, "method": "capture_screenshot", "params": params}]
    from peer [p]. *)
Definition capture_request (p : nat) (id : string) (params : Variant) : Event :=
  Packet p (Data (VDictionary [("id", VString id);
                               ("method", VString "capture_screenshot");
                               ("params", params)])).

(** Where a frame goes and what it says. *)
Definition addressed (f : Frame) : nat * Variant := (peer f, response f).

End Calls.

(** ** The level handler (handlers/level_handler.gd): delete, tiles, reparent *)

Module LevelHandler.
Import Godot TypedValues Handlers.

(** What the handlers ask of the nodes they find. *)
Record Nodes : Type := {
  (* [node.name] *)
  name : nat -> string;
  (* [node.get_parent()], [None] for [null] *)
  get_parent : nat -> option nat;
  (* [node.get_class()] *)
  get_class : nat -> string;
  (* [node is TileMapLayer] *)
  is_TileMapLayer : nat -> bool;
  (* [str(node.get_path())] once [node] has been moved under a parent *)
  path_under : nat -> nat -> string
}.

(** What a handler did to the scene. *)
Inductive Effect : Type :=
| RemoveChild (parent node : nat)
| QueueFree (node : nat)
| SetCell (tilemap : nat) (coords : Z * Z) (source_id : Z) (atlas_coords : Z * Z)
| Reparent (node new_parent : nat).

(** What ends a call early: a runtime error of [Godot], or a
    method called on a value that does not have it ([null], a number). *)
Inductive Fault : Type :=
| Script (e : ScriptError)
| InvalidCall (method : string).

Inductive Ended (A : Type) : Type :=
| Returned (a : A)
| Failed (e : Fault).
Arguments Returned {A} a.
Arguments Failed {A} e.

Definition error (message : string) : Variant :=
  VDictionary [("error", VString message)].

Section Handlers.
Variable nodes : Nodes.

(** [handle_delete_node]: the effects it had, and how it ended. *)
Definition handle_delete_node (tree : option SceneTree) (params : Variant)
    : list Effect * Ended Variant :=
  match params with
  | VDictionary params =>
      match typed_String "node_path" (dict_get "node_path" (VString "") params) with
      | Raise e => ([], Failed (Script e))
      | Ok node_path =>
          if String.eqb node_path ""
          then ([], Returned (error "node_path is required"))
          else
            match tree with
            | None => ([], Returned (error "No scene tree available"))
            | Some tree =>
                let node := get_node_or_null tree (trim_prefix "/root" node_path) in
                if String.eqb node_path "/root"
                then ([], Returned (error "Cannot delete root node"))
                else
                  match node with
                  | None =>
                      ([], Returned (error (String.append "Node not found: " node_path)))
                  | Some node =>
                      let node_name := name nodes node in
                      match get_parent nodes node with
                      | None => ([], Failed (InvalidCall "remove_child"))
                      | Some parent =>
                          ([RemoveChild parent node; QueueFree node],
                           Returned (VDictionary [("status", VString "ok");
                                                  ("deleted", VString node_path);
                                                  ("name", VString node_name)]))
                      end
                  end
            end
      end
  | _ => ([], Returned (error "Invalid params"))
  end.




(** [handle_reparent_node] *)
Definition handle_reparent_node (tree : option SceneTree) (params : Variant)
    : list Effect * Ended Variant :=
  match params with
  | VDictionary params =>
      match typed_String "node_path" (dict_get "node_path" (VString "") params) with
      | Raise e => ([], Failed (Script e))
      | Ok node_path =>
          match typed_String "new_parent_path"
                  (dict_get "new_parent_path" (VString "") params) with
          | Raise e => ([], Failed (Script e))
          | Ok new_parent_path =>
              if String.eqb node_path "" || String.eqb new_parent_path ""
              then ([], Returned (error "node_path and new_parent_path are required"))
              else
                match tree with
                | None => ([], Returned (error "No scene tree available"))
                | Some tree =>
                    let node := get_node_or_null tree (trim_prefix "/root" node_path) in
                    if String.eqb node_path "/root"
                    then ([], Returned (error "Cannot reparent root node"))
                    else
                      match node with
                      | None =>
                          ([], Returned (error (String.append "Node not found: " node_path)))
                      | Some node =>
                          let new_parent :=
                            get_node_or_null tree (trim_prefix "/root" new_parent_path) in
                          let new_parent :=
                            if String.eqb new_parent_path "/root"
                            then Some (root tree) else new_parent in
                          match new_parent with
                          | None =>
                              ([], Returned (error (String.append "New parent not found: "
                                                       new_parent_path)))
                          | Some new_parent =>
                              ([Reparent node new_parent],
                               Returned
                                 (VDictionary
                                    [("status", VString "ok");
                                     ("node", VString node_path);
                                     ("new_parent", VString new_parent_path);
                                     ("new_path",
                                      VString (path_under nodes node new_parent))]))
                          end
                      end
                end
          end
      end
  | _ => ([], Returned (error "Invalid params"))
  end.

End Handlers.

(** *** The vocabulary of the properties *)





(** Nodes for the examples: [/root/Player] is a plain node, node 2 a
    tile map. *)
Definition example_nodes : Nodes :=
  {| name := fun n => if Nat.eqb n 1 then "Player" else "Ground";
     get_parent := fun n => if Nat.eqb n 0 then None else Some 0%nat;
     get_class := fun n => if Nat.eqb n 2 then "TileMapLayer" else "Node2D";
     is_TileMapLayer := fun n => Nat.eqb n 2;
     path_under := fun n parent =>
       String.append (if Nat.eqb parent 0 then "/root/" else "/root/Ground/")
                     (if Nat.eqb n 1 then "Player" else "Ground") |}.

Definition example_level : SceneTree :=
  {| root := 0;
     get_node_or_null := fun path =>
       if String.eqb path "/Player" then Some 1%nat
       else if String.eqb path "/Ground" then Some 2%nat else None |}.

End LevelHandler.

(** ** Shape names (utils/godot-types) and the two decoders *)

Module Shapes.
Import JS GodotTypes Godot TypedValues.

Definition SHAPE_2D_TYPES : list string :=
  [ "RectangleShape2D"; "CircleShape2D"; "CapsuleShape2D";
    "WorldBoundaryShape2D"; "SegmentShape2D"; "ConvexPolygonShape2D" ].

(** [SHAPE_2D_TYPES.includes(type)]: an element is found by
    [SameValueZero], so only a string is. *)
Definition isShape2DType (type : Value) : bool :=
  match type with
  | Str t => existsb (String.eqb t) SHAPE_2D_TYPES
  | _ => false
  end.

(** *** The vocabulary of the properties *)

(** The object is one of the six shapes. *)
Definition is_shape (o : Object) : bool :=
  match o with
  | Resource _ => false
  | _ => true
  end.

(** A value in which the decoders meet no shape discriminator: where
    they look, that is at the value itself and, through mappings
    without [_type], at the values these hold. *)
Inductive shape_free : Variant -> Prop :=
| shape_free_mapping entries :
    Assoc.has "_type" entries = false ->
    (forall k v, In (k, v) entries -> shape_free v) ->
    shape_free (VDictionary entries)
| shape_free_tagged entries :
    Assoc.has "_type" entries = true ->
    (forall t, Assoc.get "_type" entries = Some (VString t) ->
               isShape2DType (Str t) = false) ->
    shape_free (VDictionary entries)
| shape_free_other v :
    match v with VDictionary _ => False | _ => True end ->
    shape_free v.

End Shapes.

(** ** Parameter naming on whole objects (utils/parameters) *)

Module Naming.
Import JS Parameters.

(** The value the converters write for a property: a plain object is
    converted, anything else (an array too) is copied. *)
Definition nested (convert : Value -> Value) (v : Value) : Value :=
  match v with
  | Obj _ => convert v
  | _ => v
  end.

(** The value of the last property whose key is renamed to [key]. *)
Definition last_under (rename : string -> string) (key : string)
    (props : list (string * Value)) : option Value :=
  fold_left (fun found '(k, v) => if String.eqb (rename k) key then Some v else found)
            props None.



End Naming.

(** ** The live tools of the controller (tools/level-2d, tools/screenshot) *)

Module LiveTools.
Import JS Parameters BridgeClient.

(** An item of [content]: [{type: 'text', text}] or
    [{type: 'image', data, mimeType}]. *)
Inductive Content : Type :=
| TextContent (text : Value)
| ImageContent (data : Value) (mimeType : string).

(** A tool response; [isError] is [false] where the object has no such
    member. *)
Record ToolResponse : Type := { content : list Content; isError : bool }.

Definition newline : string := String (ascii_of_nat 10) EmptyString.

Definition quote : string := String (ascii_of_nat 34) EmptyString.

(** [createErrorResponse]; what it writes to the console is left out. *)
Definition createErrorResponse (message : string) (possibleSolutions : list string)
    : ToolResponse :=
  {| content :=
       TextContent (Str message)
         :: match possibleSolutions with
            | [] => []
            | _ :: _ =>
                [TextContent
                   (Str (String.append
                           (String.append "Possible solutions:" (String.append newline "- "))
                           (String.concat (String.append newline "- ") possibleSolutions)))]
            end;
     isError := true |}.

(** [createTextResponse] *)
Definition createTextResponse (text : Value) : ToolResponse :=
  {| content := [TextContent text]; isError := false |}.

(** [createImageResponse] *)
Definition createImageResponse (base64Data : Value) (mimeType : string) (text : Value)
    : ToolResponse :=
  {| content := ImageContent base64Data mimeType
                  :: (if truthy text then [TextContent text] else []);
     isError := false |}.

Definition bridgeHints : list string :=
  [ "Ensure the Godot editor is running with the MCP plugin enabled";
    "Ensure a project/scene is running in the editor" ].

(** What a tool handler does: it answers at once, or it calls
    [ctx.bridgeClient.request(method, params)] and answers when the
    promise of that call is settled. *)
Inductive Called : Type :=
| Answered (response : ToolResponse)
| Requests (method : string) (params : Value) (settled : Promise -> option ToolResponse).

(** A file written by [writeFileSync]. *)
Record Written : Type := { file : Value; base64 : Value }.

Section Tools.
(** [JSON.stringify(result, null, 2)] *)
Variable JSON_stringify : Value -> Value.
(** [error.message] of the [Error] the client rejected with. *)
Variable Error_message : Failure -> string.
(** The text of a template literal with these parts. *)
Variable template : list Value -> Value.
(** [Buffer.from(data, 'base64').length] *)
Variable Buffer_length : Value -> Value.

(** [`${prefix}${error?.message || 'Unknown error'}`] *)
Definition failure_text (prefix : string) (error : Failure) : string :=
  String.append prefix
    (if String.eqb (Error_message error) "" then "Unknown error" else Error_message error).

(** The [try] block after [await], and the [catch] block. *)
Definition text_or_failure (prefix : string) (outcome : Promise) : option ToolResponse :=
  match outcome with
  | Unsettled => None
  | Fulfilled result => Some (createTextResponse (JSON_stringify result))
  | Rejected error => Some (createErrorResponse (failure_text prefix error) bridgeHints)
  end.

(** [normalizeParameters(rawArgs || {})] *)
Definition arguments (rawArgs : Value) : Value :=
  normalizeParameters (if truthy rawArgs then rawArgs else Obj []).

Definition set_node_property (rawArgs : Value) : Called :=
  let args := arguments rawArgs in
  if negb (truthy (prop args "nodePath")) || negb (truthy (prop args "property"))
  then Answered (createErrorResponse "nodePath and property are required" [])
  else Requests "set_node_property"
         (Obj [("node_path", prop args "nodePath");
               ("property", prop args "property");
               ("value", prop args "value")])
         (text_or_failure "Failed to set property: ").

Definition delete_node_live (rawArgs : Value) : Called :=
  let args := arguments rawArgs in
  if negb (truthy (prop args "nodePath"))
  then Answered (createErrorResponse "nodePath is required" [])
  else Requests "delete_node"
         (Obj [("node_path", prop args "nodePath")])
         (text_or_failure "Failed to delete node: ").

Definition set_tiles_live (rawArgs : Value) : Called :=
  let args := arguments rawArgs in
  if negb (truthy (prop args "nodePath")) || negb (truthy (prop args "tiles"))
  then Answered (createErrorResponse "nodePath and tiles are required" [])
  else Requests "set_tiles"
         (Obj [("node_path", prop args "nodePath"); ("tiles", prop args "tiles")])
         (text_or_failure "Failed to set tiles: ").

Definition reparent_node_live (rawArgs : Value) : Called :=
  let args := arguments rawArgs in
  if negb (truthy (prop args "nodePath")) || negb (truthy (prop args "newParentPath"))
  then Answered (createErrorResponse "nodePath and newParentPath are required" [])
  else Requests "reparent_node"
         (Obj [("node_path", prop args "nodePath");
               ("new_parent_path", prop args "newParentPath")])
         (text_or_failure "Failed to reparent node: ").

(** [capture_screenshot] of the screenshot tools, with the file it
    writes. *)
Definition capture_settled (args : Value) (outcome : Promise)
    : option (ToolResponse * option Written) :=
  match outcome with
  | Unsettled => None
  | Fulfilled result =>
      if negb (truthy result) || negb (truthy (prop result "image_base64"))
      then Some (createErrorResponse "No screenshot data received from the engine" [], None)
      else if truthy (prop args "outputPath")
      then Some (createTextResponse
                   (template [Str "Screenshot saved to: "; prop args "outputPath";
                              Str " ("; Buffer_length (prop result "image_base64");
                              Str " bytes)"]),
                 Some {| file := prop args "outputPath";
                         base64 := prop result "image_base64" |})
      else Some (createImageResponse (prop result "image_base64") "image/png"
                   (template [Str "Screenshot captured ("; prop result "width"; Str "x";
                              prop result "height"; Str ")"]),
                 None)
  | Rejected error =>
      Some (createErrorResponse (failure_text "Failed to capture screenshot: " error)
              [ "Ensure the Mechanical Turk editor is running with the MCP plugin enabled";
                "Use install_plugin to install the plugin if not already installed";
                String.append "For "
                  (String.append quote
                     (String.append "game"
                        (String.append quote
                           " source, ensure a project is running in the editor"))) ],
            None)
  end.

Definition capture_screenshot (rawArgs : Value)
    : string * Value * (Promise -> option (ToolResponse * option Written)) :=
  let args := arguments rawArgs in
  ("capture_screenshot",
   Obj [("source", if truthy (prop args "source") then prop args "source" else Str "game");
        ("width", prop args "width");
        ("height", prop args "height")],
   capture_settled args).

End Tools.

(** Stand-ins for the examples. *)
Definition example_stringify (v : Value) : Value :=
  match v with
  | Undefined => Undefined
  | Str s => Str s
  | _ => Str "<json>"
  end.

Definition example_message (error : Failure) : string :=
  match error with
  | BridgeError (Str message) => String.append "Bridge error: " message
  | BridgeError _ => "Bridge error: <message>"
  | ConnectionClosed => "Bridge connection closed"
  | RequestTimedOut method _ =>
      String.append "Bridge request '" (String.append method "' timed out")
  | ConnectTimedOut => "Connection to Mechanical Turk bridge timed out"
  | CannotConnect => "Cannot connect to Mechanical Turk bridge"
  end.

End LiveTools.

(** ** Path validation (utils/path-validation) *)

Module PathValidation.

(** [haystack.includes(needle)] *)
Fixpoint includes (needle haystack : string) : bool :=
  String.prefix needle haystack
  || match haystack with
     | EmptyString => false
     | String _ rest => includes needle rest
     end.

(** [validatePath]; [!path] holds of the empty string only. *)
Definition validatePath (path : string) : bool :=
  if String.eqb path "" || includes ".." path then false else true.

(** *** The vocabulary of the properties *)

(** The segments of a path, between the separators [/] and [\]. *)
Fixpoint segments (current : string) (path : string) : list string :=
  match path with
  | EmptyString => [current]
  | String c rest =>
      if Ascii.eqb c "/" || Ascii.eqb c (ascii_of_nat 92)
      then current :: segments EmptyString rest
      else segments (String.append current (String c EmptyString)) rest
  end.

End PathValidation.

(** ** What stays as it is *)

Module Outcomes.
Import Godot.

(** On the client: every promise that is settled in [c] has the same
    outcome in [c'], and every timer that is cleared or has fired in [c]
    is so in [c']. *)
Definition keeps_outcomes (c c' : BridgeClient.Client) : Prop :=
  (forall p x, BridgeClient.promises c !! p = Some x -> x <> BridgeClient.Unsettled ->
               BridgeClient.promises c' !! p = Some x)
  /\ (forall t, BridgeClient.timers c !! t = Some None ->
                BridgeClient.timers c' !! t = Some None).

(** The error codes of the dispatcher. *)
Definition reserved_codes : list Z := [ -32700; -32600; -32601 ]%Z.

(** On the server: the frame is a result response, or an error response
    with one of the reserved codes. *)
Definition result_or_reserved_error (f : BridgeServer.Frame) : Prop :=
  (exists id result, BridgeServer.response f = BridgeServer.result_response id result)
  \/ (exists id code message,
        BridgeServer.response f = BridgeServer.error_response id code message
        /\ In code reserved_codes).

End Outcomes.
(** * Properties *)

(** ** Facts about association lists *)

Module AssocFacts.
Import Assoc.

Section Facts.
Context {V : Type}.
Implicit Types (l : list (string * V)) (k : string) (v : V).

Lemma get_set_eq k v l : get k (set k v l) = Some v.
Proof.
  induction l as [|[k' v'] r IH]; simpl.
  - now rewrite String.eqb_refl.
  - destruct (String.eqb k k') eqn:E; simpl; rewrite E; auto.
Qed.

Lemma get_set_ne k k' v l : k <> k' -> get k' (set k v l) = get k' l.
Proof.
  intros Hne. induction l as [|[k0 v0] r IH]; simpl.
  - destruct (String.eqb_spec k' k); congruence.
  - destruct (String.eqb_spec k k0) as [->|Hk]; simpl.
    + destruct (String.eqb_spec k' k0); congruence.
    + destruct (String.eqb_spec k' k0); auto.
Qed.

Lemma get_delete_eq k l : get k (delete k l) = None.
Proof.
  induction l as [|[k' v'] r IH]; simpl; auto.
  destruct (String.eqb k k') eqn:E; simpl; auto. now rewrite E.
Qed.

Lemma get_delete_ne k k' l : k <> k' -> get k' (delete k l) = get k' l.
Proof.
  intros Hne. induction l as [|[k0 v0] r IH]; simpl; auto.
  destruct (String.eqb_spec k k0) as [->|Hk]; simpl.
  - destruct (String.eqb_spec k' k0); congruence.
  - destruct (String.eqb_spec k' k0); auto.
Qed.

Lemma get_In k v l : get k l = Some v -> In (k, v) l.
Proof.
  induction l as [|[k' v'] r IH]; simpl; [discriminate|].
  destruct (String.eqb_spec k k') as [->|Hk]; intros H.
  - inversion H; subst; auto.
  - right; auto.
Qed.

Lemma get_None_not_key k l : get k l = None -> ~ In k (keys l).
Proof.
  induction l as [|[k' v'] r IH]; simpl; [tauto|].
  destruct (String.eqb_spec k k') as [->|Hk]; [discriminate|].
  intros H [Hk'|Hin]; [congruence|]. now apply IH.
Qed.

Lemma not_key_get_None k l : ~ In k (keys l) -> get k l = None.
Proof.
  induction l as [|[k' v'] r IH]; simpl; auto.
  intros H. destruct (String.eqb_spec k k') as [->|Hk]; [tauto|].
  apply IH. tauto.
Qed.


Lemma set_fresh k v l : ~ In k (keys l) -> set k v l = l ++ [(k, v)].
Proof.
  induction l as [|[k' v'] r IH]; simpl; auto.
  intros H. destruct (String.eqb_spec k k') as [->|Hk]; [tauto|].
  f_equal. apply IH. tauto.
Qed.


Lemma keys_delete_incl k l x : In x (keys (delete k l)) -> In x (keys l).
Proof.
  induction l as [|[k' v'] r IH]; simpl; auto.
  destruct (String.eqb k k'); simpl; intuition.
Qed.

Lemma In_delete k l e : In e (delete k l) -> In e l /\ fst e <> k.
Proof.
  induction l as [|[k' v'] r IH]; simpl; [tauto|].
  destruct (String.eqb_spec k k') as [->|Hk]; simpl.
  - intros H. apply IH in H. tauto.
  - intros [<-|H]; [simpl; split; auto|]. apply IH in H. tauto.
Qed.

Lemma In_delete_intro k l e : In e l -> fst e <> k -> In e (delete k l).
Proof.
  induction l as [|[k' v'] r IH]; simpl; [tauto|].
  intros [<-|H] Hne; simpl in *.
  - destruct (String.eqb_spec k k'); [congruence|]. now left.
  - destruct (String.eqb_spec k k'); [|right]; auto.
Qed.

Lemma NoDup_keys_delete k l : List.NoDup (keys l) -> List.NoDup (keys (delete k l)).
Proof.
  induction l as [|[k' v'] r IH]; simpl; auto.
  intros Hnd. apply NoDup_cons_iff in Hnd as [Hnotin Hnd].
  destruct (String.eqb k k'); simpl; auto.
  apply NoDup_cons_iff. split; auto.
  intros Hin. apply Hnotin. eapply keys_delete_incl; eauto.
Qed.
End Facts.

End AssocFacts.

(** ** Parameter naming *)

Module ParametersFacts.
Import JS Parameters.


Lemma underscore_not_capital : is_capital "_" = false.
Proof. reflexivity. Qed.




Lemma lookup_truthy_In table key s :
  lookup_truthy table key = Some s -> In (key, s) table.
Proof.
  unfold lookup_truthy. destruct (Assoc.get key table) as [s'|] eqn:E; [|discriminate].
  destruct (String.eqb s' ""); [discriminate|].
  intros H; inversion H; subst. now apply AssocFacts.get_In.
Qed.









End ParametersFacts.

(** ** The bridge client *)

Module BridgeClientFacts.
Import JS BridgeClient.

Implicit Types (c : Client) (p q t s : nat) (o : Promise).

(** *** Settling a promise *)

Lemma settle_lookup_eq p o c :
  promises c !! p = Some Unsettled -> promises (settle p o c) !! p = Some o.
Proof.
  intros H. unfold settle. rewrite H. simpl.
  apply list_lookup_insert_eq. eapply lookup_lt_Some; eauto.
Qed.

Lemma settle_lookup_ne p q o c :
  p <> q -> promises (settle p o c) !! q = promises c !! q.
Proof.
  intros H. unfold settle. destruct (promises c !! p) as [[| |]|]; simpl; auto.
  now apply list_lookup_insert_ne.
Qed.

Lemma settle_settled p o c x :
  promises c !! p = Some x -> x <> Unsettled -> settle p o c = c.
Proof.
  intros H Hx. unfold settle. rewrite H. destruct x; congruence.
Qed.

Lemma settle_length p o c : length (promises (settle p o c)) = length (promises c).
Proof.
  unfold settle. destruct (promises c !! p) as [[| |]|]; simpl; auto.
  apply length_insert.
Qed.

Lemma settle_rest p o c :
  ws (settle p o c) = ws c /\ requestId (settle p o c) = requestId c
  /\ pendingRequests (settle p o c) = pendingRequests c
  /\ connectPromise (settle p o c) = connectPromise c
  /\ sockets (settle p o c) = sockets c /\ timers (settle p o c) = timers c
  /\ wire (settle p o c) = wire c /\ debug (settle p o c) = debug c.
Proof.
  unfold settle. destruct (promises c !! p) as [[| |]|]; simpl; repeat split.
Qed.

Lemma settle_pending p o c : pendingRequests (settle p o c) = pendingRequests c.
Proof. apply settle_rest. Qed.

Lemma settle_timers p o c : timers (settle p o c) = timers c.
Proof. apply settle_rest. Qed.

Lemma settle_sockets p o c : sockets (settle p o c) = sockets c.
Proof. apply settle_rest. Qed.

Lemma settle_ws p o c : ws (settle p o c) = ws c.
Proof. apply settle_rest. Qed.

Lemma settle_connectPromise p o c : connectPromise (settle p o c) = connectPromise c.
Proof. apply settle_rest. Qed.

Lemma settle_requestId p o c : requestId (settle p o c) = requestId c.
Proof. apply settle_rest. Qed.

(** A promise that is settled keeps its outcome. *)
Lemma settle_keeps p q o c x :
  promises c !! q = Some x -> x <> Unsettled -> promises (settle p o c) !! q = Some x.
Proof.
  intros H Hx. destruct (Nat.eq_dec p q) as [->|Hne].
  - now rewrite (settle_settled q o c x).
  - now rewrite settle_lookup_ne.
Qed.

(** *** The loop of the close listener *)

Lemma reject_all_rest entries c :
  ws (reject_all entries c) = ws c
  /\ requestId (reject_all entries c) = requestId c
  /\ pendingRequests (reject_all entries c) = pendingRequests c
  /\ connectPromise (reject_all entries c) = connectPromise c
  /\ sockets (reject_all entries c) = sockets c
  /\ wire (reject_all entries c) = wire c
  /\ debug (reject_all entries c) = debug c
  /\ length (promises (reject_all entries c)) = length (promises c)
  /\ length (timers (reject_all entries c)) = length (timers c).
Proof.
  revert c. induction entries as [|[k pr] rest IH]; intros c; simpl.
  - repeat split.
  - specialize (IH (settle (resolver pr) (Rejected ConnectionClosed)
                      (clearTimeout (timer pr) c))).
    destruct IH as (H1 & H2 & H3 & H4 & H5 & H6 & H7 & H8 & H9).
    rewrite H1, H2, H3, H4, H5, H6, H7, H8, H9.
    pose proof (settle_rest (resolver pr) (Rejected ConnectionClosed)
                  (clearTimeout (timer pr) c)) as (E1 & E2 & E3 & E4 & E5 & E6 & E7 & E8).
    rewrite E1, E2, E3, E4, E5, E6, E7, E8, settle_length. simpl.
    rewrite length_insert. repeat split.
Qed.

Lemma reject_all_keeps entries c q x :
  promises c !! q = Some x -> x <> Unsettled ->
  promises (reject_all entries c) !! q = Some x.
Proof.
  revert c. induction entries as [|[k pr] rest IH]; intros c H Hx; simpl; auto.
  apply IH; auto. apply settle_keeps; auto.
Qed.

Lemma reject_all_other entries c q :
  (forall k pr, In (k, pr) entries -> resolver pr <> q) ->
  promises (reject_all entries c) !! q = promises c !! q.
Proof.
  revert c. induction entries as [|[k pr] rest IH]; intros c H; simpl; auto.
  rewrite IH by (intros; eapply H; right; eauto).
  rewrite settle_lookup_ne by (eapply H; left; eauto). reflexivity.
Qed.

Lemma reject_all_rejects entries c k pr :
  In (k, pr) entries ->
  promises c !! resolver pr = Some Unsettled
  \/ promises c !! resolver pr = Some (Rejected ConnectionClosed) ->
  promises (reject_all entries c) !! resolver pr = Some (Rejected ConnectionClosed).
Proof.
  revert c. induction entries as [|[k0 pr0] rest IH]; intros c Hin Hp; simpl; [contradiction|].
  set (c1 := settle (resolver pr0) (Rejected ConnectionClosed) (clearTimeout (timer pr0) c)).
  assert (Hc1 : promises (clearTimeout (timer pr0) c) = promises c) by reflexivity.
  destruct Hin as [Heq|Hin].
  - inversion Heq; subst k0 pr0. apply reject_all_keeps; [|discriminate].
    destruct Hp as [Hp|Hp].
    + apply settle_lookup_eq. now rewrite Hc1.
    + apply settle_keeps; [now rewrite Hc1|discriminate].
  - apply IH; auto.
    destruct (Nat.eq_dec (resolver pr0) (resolver pr)) as [E|E].
    + right. destruct Hp as [Hp|Hp]; unfold c1; rewrite E.
      * apply settle_lookup_eq. now rewrite Hc1.
      * apply settle_keeps; [now rewrite Hc1|discriminate].
    + unfold c1. rewrite settle_lookup_ne by assumption. now rewrite Hc1.
Qed.

Lemma reject_all_cleared entries c t :
  timers c !! t = Some None -> timers (reject_all entries c) !! t = Some None.
Proof.
  revert c. induction entries as [|[k0 pr0] rest IH]; intros c H; simpl; auto.
  apply IH. rewrite settle_timers. simpl.
  destruct (Nat.eq_dec (timer pr0) t) as [->|Hne].
  - apply list_lookup_insert_eq. eapply lookup_lt_Some; eauto.
  - now rewrite list_lookup_insert_ne.
Qed.

Lemma reject_all_clears entries c k pr :
  In (k, pr) entries -> (timer pr < length (timers c))%nat ->
  timers (reject_all entries c) !! timer pr = Some None.
Proof.
  revert c. induction entries as [|[k0 pr0] rest IH]; intros c Hin Hlt; simpl; [contradiction|].
  destruct Hin as [Heq|Hin].
  - inversion Heq; subst k0 pr0. apply reject_all_cleared.
    rewrite settle_timers. simpl. now apply list_lookup_insert_eq.
  - apply IH; auto. rewrite settle_timers. simpl. now rewrite length_insert.
Qed.

Lemma reject_all_timer_other entries c t :
  (forall k pr, In (k, pr) entries -> timer pr <> t) ->
  timers (reject_all entries c) !! t = timers c !! t.
Proof.
  revert c. induction entries as [|[k pr] rest IH]; intros c H; simpl; auto.
  rewrite IH by (intros; eapply H; right; eauto).
  rewrite settle_timers. simpl.
  apply list_lookup_insert_ne. eapply H; left; eauto.
Qed.

(** *** Lists that grow at the end, entries that are cleared *)

Lemma lookup_snoc_Some {A} (l : list A) (x y : A) (i : nat) :
  (l ++ [x]) !! i = Some y -> l !! i = Some y \/ (i = length l /\ y = x).
Proof.
  intros H. apply lookup_app_Some in H as [H|[Hle H]]; [now left|right].
  destruct (i - length l)%nat as [|n] eqn:E; simpl in H; [|discriminate].
  inversion H; subst. split; [lia|reflexivity].
Qed.

Lemma NoDup_snoc {A} (l : list A) (x : A) :
  List.NoDup l -> ~ In x l -> List.NoDup (l ++ [x]).
Proof.
  induction l as [|a l IH]; simpl; intros Hnd Hx.
  - constructor; [simpl; tauto|constructor].
  - apply NoDup_cons_iff in Hnd as [Ha Hnd]. apply NoDup_cons_iff. split.
    + rewrite in_app_iff. simpl. intros [H|[H|[]]]; [tauto|]. apply Hx. now left.
    + apply IH; tauto.
Qed.

Lemma lookup_snoc_old {A} (l : list A) (x y : A) (i : nat) :
  l !! i = Some y -> (l ++ [x]) !! i = Some y.
Proof. intros H. rewrite lookup_app_l; [assumption|]. eapply lookup_lt_Some; eauto. Qed.

Lemma lookup_snoc_new {A} (l : list A) (x : A) : (l ++ [x]) !! length l = Some x.
Proof. rewrite lookup_app_r by lia. now rewrite Nat.sub_diag. Qed.

Lemma lookup_cleared_Some {A} (l : list (option A)) (t i : nat) (x : A) :
  <[t := None]> l !! i = Some (Some x) -> i <> t /\ l !! i = Some (Some x).
Proof.
  intros H. destruct (Nat.eq_dec i t) as [->|Hne].
  - assert (Hlt : (t < length l)%nat).
    { apply lookup_lt_Some in H. now rewrite length_insert in H. }
    rewrite list_lookup_insert_eq in H by assumption. discriminate.
  - rewrite list_lookup_insert_ne in H by congruence. auto.
Qed.

Lemma lookup_cleared_job {A} (l : list (option A)) (t i : nat) (job : option A) :
  l !! i = Some job ->
  exists job', <[t := None]> l !! i = Some job' /\ (job' = job \/ job' = None).
Proof.
  intros H. destruct (Nat.eq_dec t i) as [->|Hne].
  - exists None. split; [|now right].
    apply list_lookup_insert_eq. eapply lookup_lt_Some; eauto.
  - exists job. split; [|now left]. now rewrite list_lookup_insert_ne.
Qed.

(** *** The invariant is kept by every event *)

Lemma consistent_new_client : consistent new_client.
Proof.
  constructor; simpl; try (intros; contradiction); try discriminate;
    try constructor;
    intros; match goal with H : [] !! _ = Some _ |- _ => now rewrite lookup_nil in H end.
Qed.

(** A change that leaves the table, the promises and the timers alone,
    and keeps what each socket's listeners close over. *)
Lemma consistent_sockets c c' :
  consistent c ->
  requestId c' = requestId c ->
  pendingRequests c' = pendingRequests c ->
  connectPromise c' = connectPromise c ->
  promises c' = promises c ->
  timers c' = timers c ->
  (forall i sock', sockets c' !! i = Some sock' ->
     exists sock, sockets c !! i = Some sock /\ opener sock = opener sock'
                  /\ deadline sock = deadline sock') ->
  (forall i sock, sockets c !! i = Some sock ->
     exists sock', sockets c' !! i = Some sock' /\ opener sock' = opener sock) ->
  consistent c'.
Proof.
  intros [I1 I2 I3 I4 I5 I6 I7 I8 I9 I10 I11] Er Ep Ec Epr Et Hnew Hold.
  constructor; rewrite ?Er, ?Ep, ?Ec, ?Epr, ?Et; auto.
  - intros t s p H. destruct (I6 t s p H) as (sock & Hs & Ho).
    destruct (Hold _ _ Hs) as (sock' & Hs' & Ho'). exists sock'. split; congruence.
  - intros s sock' H. destruct (Hnew _ _ H) as (sock & Hs & Ho & Hd).
    rewrite <- Hd. eauto.
  - intros s sock' H. destruct (Hnew _ _ H) as (sock & Hs & Ho & Hd).
    rewrite <- Ho. eauto.
  - intros s sock' k pr H Hin. destruct (Hnew _ _ H) as (sock & Hs & Ho & Hd).
    rewrite <- Ho. eauto.
  - intros p H. destruct (I10 p H) as (Hp & s & sock & Hs & Ho).
    split; auto. destruct (Hold _ _ Hs) as (sock' & Hs' & Ho').
    exists s, sock'. split; congruence.
Qed.

Lemma set_readyState_rest s r c :
  ws (set_readyState s r c) = ws c
  /\ requestId (set_readyState s r c) = requestId c
  /\ pendingRequests (set_readyState s r c) = pendingRequests c
  /\ connectPromise (set_readyState s r c) = connectPromise c
  /\ promises (set_readyState s r c) = promises c
  /\ timers (set_readyState s r c) = timers c
  /\ wire (set_readyState s r c) = wire c
  /\ debug (set_readyState s r c) = debug c.
Proof. unfold set_readyState. destruct (sockets c !! s); simpl; repeat split. Qed.

Lemma set_readyState_lookup s r c i :
  sockets (set_readyState s r c) !! i =
  match sockets c !! i with
  | Some sock =>
      Some (if Nat.eqb s i
            then {| readyState := r; opener := opener sock; deadline := deadline sock |}
            else sock)
  | None => None
  end.
Proof.
  unfold set_readyState. destruct (sockets c !! s) as [sock|] eqn:E; simpl.
  - destruct (Nat.eqb_spec s i) as [->|Hne].
    + rewrite E. apply list_lookup_insert_eq. eapply lookup_lt_Some; eauto.
    + rewrite list_lookup_insert_ne by assumption. now destruct (sockets c !! i).
  - destruct (Nat.eqb_spec s i) as [->|Hne].
    + now rewrite E.
    + now destruct (sockets c !! i).
Qed.

Lemma consistent_set_readyState s r c : consistent c -> consistent (set_readyState s r c).
Proof.
  intros H. pose proof (set_readyState_rest s r c) as (_ & E2 & E3 & E4 & E5 & E6 & _).
  apply (consistent_sockets c); auto.
  - intros i sock'. rewrite set_readyState_lookup.
    destruct (sockets c !! i) as [sock|]; [|discriminate].
    intros Hs. inversion Hs; subst. exists sock. destruct (Nat.eqb s i); auto.
  - intros i sock Hs. rewrite set_readyState_lookup, Hs.
    eexists; split; [reflexivity|]. now destruct (Nat.eqb s i).
Qed.

Lemma consistent_ws_close s c : consistent c -> consistent (ws_close s c).
Proof.
  intros H. unfold ws_close. destruct (sockets c !! s) as [sock|]; auto.
  destruct (readyState sock); auto using consistent_set_readyState.
Qed.

Lemma consistent_with_ws x c : consistent c -> consistent (with_ws x c).
Proof. intros H. apply (consistent_sockets c); simpl; eauto. Qed.

Lemma consistent_logDebug line c : consistent c -> consistent (logDebug line c).
Proof. intros H. apply (consistent_sockets c); simpl; eauto. Qed.

Lemma consistent_with_wire x c : consistent c -> consistent (with_wire x c).
Proof. intros H. apply (consistent_sockets c); simpl; eauto. Qed.

(** Clearing a timer that is not the deadline of a pending call. *)
Lemma consistent_clearTimeout t c :
  consistent c ->
  (forall k method timeoutMs p,
     timers c !! t <> Some (Some (RequestTimer k method timeoutMs p))) ->
  consistent (clearTimeout t c).
Proof.
  intros [I1 I2 I3 I4 I5 I6 I7 I8 I9 I10 I11] Hnot.
  constructor; simpl; auto.
  - intros k pr Hin. destruct (I4 k pr Hin) as (m & ms & Ht).
    exists m, ms. rewrite list_lookup_insert_ne; [assumption|].
    intros ->. eapply Hnot; eauto.
  - intros t' k m ms p H. apply lookup_cleared_Some in H as [_ H]. eauto.
  - intros t' s p H. apply lookup_cleared_Some in H as [_ H]. eauto.
  - intros s sock Hs. destruct (I7 s sock Hs) as (job & Hj & Hnr).
    destruct (lookup_cleared_job _ t _ _ Hj) as (job' & Hj' & Hor).
    exists job'. split; [assumption|].
    destruct Hor as [->| ->]; [assumption|discriminate].
Qed.

(** Settling the promise of a connection attempt. *)
Lemma consistent_settle_connect p o c :
  consistent c ->
  (exists s sock, sockets c !! s = Some sock /\ opener sock = p) ->
  consistent (settle_connect p o c).
Proof.
  intros Hc (s & sock & Hs & Ho). unfold settle_connect.
  destruct (promises c !! p) as [[| |]|] eqn:Ep; auto.
  destruct Hc as [I1 I2 I3 I4 I5 I6 I7 I8 I9 I10 I11].
  pose proof (settle_rest p o c) as (E1 & E2 & E3 & E4 & E5 & E6 & E7 & E8).
  constructor; simpl; rewrite ?E2, ?E3, ?E5, ?E6; auto.
  - intros k pr Hin. rewrite settle_lookup_ne; eauto.
    intros E. apply (I9 s sock k pr Hs Hin). congruence.
  - intros s' sock' Hs'. rewrite settle_length. eauto.
  - discriminate.
Qed.

(** Taking one call out of the table: its timer is cleared, its entry
    deleted, its promise settled. *)
Lemma consistent_remove k pr o c :
  consistent c ->
  Assoc.get k (pendingRequests c) = Some pr ->
  consistent (settle (resolver pr) o
                (with_pendingRequests (Assoc.delete k (pendingRequests c))
                   (clearTimeout (timer pr) c))).
Proof.
  intros [I1 I2 I3 I4 I5 I6 I7 I8 I9 I10 I11] Hget.
  pose proof (AssocFacts.get_In _ _ _ Hget) as Hin0.
  set (c1 := with_pendingRequests _ _).
  pose proof (settle_rest (resolver pr) o c1) as (E1 & E2 & E3 & E4 & E5 & E6 & E7 & E8).
  constructor; rewrite ?E2, ?E3, ?E4, ?E5, ?E6; simpl.
  - now apply AssocFacts.NoDup_keys_delete.
  - intros k' pr' Hin. apply AssocFacts.In_delete in Hin as [Hin _]. eauto.
  - intros k' pr' Hin. apply AssocFacts.In_delete in Hin as [Hin Hne]. simpl in Hne.
    rewrite settle_lookup_ne; [simpl; eauto|].
    intros E. apply Hne. symmetry. eapply I11; eauto.
  - intros k' pr' Hin. apply AssocFacts.In_delete in Hin as [Hin Hne]. simpl in Hne.
    destruct (I4 k' pr' Hin) as (m & ms & Ht). exists m, ms.
    rewrite list_lookup_insert_ne; [assumption|].
    intros E. destruct (I4 k pr Hin0) as (m0 & ms0 & Ht0).
    rewrite E in Ht0. congruence.
  - intros t k' m ms p H. apply lookup_cleared_Some in H as [Hne H].
    pose proof (I5 _ _ _ _ _ H) as Hk'.
    rewrite AssocFacts.get_delete_ne; [assumption|].
    intros ->. rewrite Hget in Hk'. inversion Hk'; subst. now simpl in Hne.
  - intros t s p H. apply lookup_cleared_Some in H as [_ H]. eauto.
  - intros s sock Hs. destruct (I7 s sock Hs) as (job & Hj & Hnr).
    destruct (lookup_cleared_job _ (timer pr) _ _ Hj) as (job' & Hj' & Hor).
    exists job'. split; [assumption|].
    destruct Hor as [->| ->]; [assumption|discriminate].
  - intros s sock Hs. rewrite settle_length. simpl. eauto.
  - intros s sock k' pr' Hs Hin. apply AssocFacts.In_delete in Hin as [Hin _]. eauto.
  - intros p Hp. destruct (I10 p Hp) as (Hu & s & sock & Hs & Ho). split; [|eauto].
    rewrite settle_lookup_ne; [assumption|].
    intros E. apply (I9 s sock k pr Hs Hin0). congruence.
  - intros k1 pr1 k2 pr2 H1 H2.
    apply AssocFacts.In_delete in H1 as [H1 _]. apply AssocFacts.In_delete in H2 as [H2 _].
    eauto.
Qed.

(** The timers the loop of the close listener leaves armed. *)
Lemma reject_all_armed entries c t job :
  timers (reject_all entries c) !! t = Some (Some job) ->
  timers c !! t = Some (Some job) /\ forall k pr, In (k, pr) entries -> timer pr <> t.
Proof.
  revert c. induction entries as [|[k0 pr0] rest IH]; intros c H; simpl in *.
  - split; [assumption|tauto].
  - apply IH in H as [H Hrest]. rewrite settle_timers in H. simpl in H.
    apply lookup_cleared_Some in H as [Hne H]. split; [assumption|].
    intros k pr [Heq|Hin]; [inversion Heq; subst; congruence|eauto].
Qed.

Lemma reject_all_job entries c t job :
  timers c !! t = Some job ->
  exists job', timers (reject_all entries c) !! t = Some job' /\ (job' = job \/ job' = None).
Proof.
  revert c job. induction entries as [|[k0 pr0] rest IH]; intros c job H; simpl.
  - eauto.
  - destruct (lookup_cleared_job _ (timer pr0) _ _ H) as (j1 & Hj1 & Hor1).
    destruct (IH (settle (resolver pr0) (Rejected ConnectionClosed)
                    (clearTimeout (timer pr0) c)) j1) as (j2 & Hj2 & Hor2).
    { now rewrite settle_timers. }
    exists j2. split; [assumption|].
    destruct Hor2 as [->| ->]; [|now right]. destruct Hor1 as [->| ->]; auto.
Qed.

Lemma consistent_on_close s c : consistent c -> consistent (on_close s c).
Proof.
  intros Hc. unfold on_close.
  set (c1 := with_ws None (logDebug LogDisconnected (set_readyState s CLOSED c))).
  assert (H1 : consistent c1).
  { apply consistent_with_ws, consistent_logDebug, consistent_set_readyState, Hc. }
  clearbody c1. clear Hc c.
  destruct H1 as [I1 I2 I3 I4 I5 I6 I7 I8 I9 I10 I11].
  pose proof (reject_all_rest (pendingRequests c1) c1)
    as (E1 & E2 & E3 & E4 & E5 & E6 & E7 & E8 & E9).
  constructor; simpl; rewrite ?E2, ?E4, ?E5; try (intros; contradiction).
  - constructor.
  - intros t k m ms p H. apply reject_all_armed in H as [H Hnot].
    apply I5 in H. apply AssocFacts.get_In in H. apply Hnot in H. now simpl in H.
  - intros t s' p H. apply reject_all_armed in H as [H _]. eauto.
  - intros s' sock Hs. destruct (I7 s' sock Hs) as (job & Hj & Hnr).
    destruct (reject_all_job (pendingRequests c1) c1 _ _ Hj) as (job' & Hj' & Hor).
    exists job'. split; [assumption|].
    destruct Hor as [->| ->]; [assumption|discriminate].
  - intros s' sock Hs. rewrite E8. eauto.
  - intros p Hp. destruct (I10 p Hp) as (Hu & s' & sock & Hs & Ho). split; [|eauto].
    rewrite reject_all_other; [assumption|].
    intros k pr Hin E. apply (I9 s' sock k pr Hs Hin). congruence.
Qed.

(** An id that was not issued yet is not in the table. *)
Lemma later_id_fresh c n :
  consistent c -> (requestId c < n)%nat ->
  ~ In (pretty n) (Assoc.keys (pendingRequests c)).
Proof.
  intros Hc Hlt Hin. unfold Assoc.keys in Hin.
  apply in_map_iff in Hin as ([k pr] & Hk & Hin).
  simpl in Hk. subst k.
  destruct (ids_issued c Hc _ _ Hin) as (n' & Hn & Hle).
  apply (inj pretty) in Hn. lia.
Qed.

Lemma next_id_fresh c :
  consistent c -> ~ In (pretty (S (requestId c))) (Assoc.keys (pendingRequests c)).
Proof. intros Hc. apply later_id_fresh; [assumption|lia]. Qed.

Lemma request_send_state method params timeoutMs s c :
  consistent c ->
  let id := pretty (S (requestId c)) in
  let p := length (promises c) in
  let t := length (timers c) in
  let request := {| id := id; method := method; params := params |} in
  request_send method params timeoutMs s c =
  (p, {| ws := ws c; requestId := S (requestId c);
         pendingRequests := pendingRequests c ++ [(id, {| resolver := p; timer := t |})];
         connectPromise := connectPromise c; sockets := sockets c;
         promises := promises c ++ [Unsettled];
         timers := timers c ++ [Some (RequestTimer id method timeoutMs p)];
         wire := wire c ++ [(s, request)];
         debug := debug c ++ [LogSending request] |}).
Proof.
  intros Hc. unfold request_send. simpl.
  now rewrite (AssocFacts.set_fresh _ _ _ (next_id_fresh c Hc)).
Qed.

Lemma consistent_request_send method params timeoutMs s c :
  consistent c -> consistent (snd (request_send method params timeoutMs s c)).
Proof.
  intros Hc. rewrite request_send_state by assumption. simpl.
  pose proof (next_id_fresh c Hc) as Hfresh.
  destruct Hc as [I1 I2 I3 I4 I5 I6 I7 I8 I9 I10 I11].
  assert (Hres : forall k pr, In (k, pr) (pendingRequests c) ->
                 (resolver pr < length (promises c))%nat).
  { intros k pr Hin. eapply lookup_lt_Some, I3; eauto. }
  constructor; simpl.
  - unfold Assoc.keys. rewrite map_app. simpl.
    apply NoDup_snoc; assumption.
  - intros k pr Hin. apply in_app_iff in Hin as [Hin|[Heq|[]]].
    + destruct (I2 k pr Hin) as (n & -> & Hle). exists n. split; [reflexivity|lia].
    + inversion Heq; subst. eexists; split; [reflexivity|lia].
  - intros k pr Hin. apply in_app_iff in Hin as [Hin|[Heq|[]]].
    + apply lookup_snoc_old. eauto.
    + inversion Heq; subst. simpl. apply lookup_snoc_new.
  - intros k pr Hin. apply in_app_iff in Hin as [Hin|[Heq|[]]].
    + destruct (I4 k pr Hin) as (m & ms & Ht). exists m, ms. now apply lookup_snoc_old.
    + inversion Heq; subst. simpl. exists method, timeoutMs. apply lookup_snoc_new.
  - intros t k m ms p H.
    rewrite <- (AssocFacts.set_fresh _ _ _ Hfresh).
    apply lookup_snoc_Some in H as [H|[-> H]].
    + pose proof (I5 _ _ _ _ _ H) as Hk. rewrite AssocFacts.get_set_ne; [assumption|].
      intros <-. apply Hfresh. apply AssocFacts.get_In in Hk.
      apply (in_map fst) in Hk. exact Hk.
    + inversion H; subst. apply AssocFacts.get_set_eq.
  - intros t s' p H. apply lookup_snoc_Some in H as [H|[-> H]]; [eauto|discriminate].
  - intros s' sock Hs. destruct (I7 s' sock Hs) as (job & Hj & Hnr).
    exists job. split; [now apply lookup_snoc_old|assumption].
  - intros s' sock Hs. rewrite length_app. simpl. pose proof (I8 _ _ Hs). lia.
  - intros s' sock k pr Hs Hin. apply in_app_iff in Hin as [Hin|[Heq|[]]]; [eauto|].
    inversion Heq; subst. simpl. pose proof (I8 _ _ Hs). lia.
  - intros p Hp. destruct (I10 p Hp) as (Hu & Hs). split; [|assumption].
    now apply lookup_snoc_old.
  - intros k1 pr1 k2 pr2 H1 H2 E.
    apply in_app_iff in H1 as [H1|[H1|[]]]; apply in_app_iff in H2 as [H2|[H2|[]]].
    + eauto.
    + inversion H2; subst. simpl in E. apply Hres in H1. lia.
    + inversion H1; subst. simpl in E. apply Hres in H2. lia.
    + congruence.
Qed.

Lemma connect_state c :
  isConnected c = false -> connectPromise c = None ->
  let p := length (promises c) in
  let s := length (sockets c) in
  let t := length (timers c) in
  connect c =
  (Attempt p,
   {| ws := ws c; requestId := requestId c; pendingRequests := pendingRequests c;
      connectPromise := Some p;
      sockets := sockets c ++ [{| readyState := CONNECTING; opener := p; deadline := t |}];
      promises := promises c ++ [Unsettled];
      timers := timers c ++ [Some (ConnectTimer s p)];
      wire := wire c;
      debug := debug c ++ [LogConnecting] |}).
Proof. intros H1 H2. unfold connect. rewrite H1, H2. reflexivity. Qed.

Lemma consistent_connect c : consistent c -> consistent (snd (connect c)).
Proof.
  intros Hc. destruct (isConnected c) eqn:Econ.
  { unfold connect. now rewrite Econ. }
  destruct (connectPromise c) as [p0|] eqn:Ecp.
  { unfold connect. now rewrite Econ, Ecp. }
  rewrite connect_state by assumption. simpl.
  destruct Hc as [I1 I2 I3 I4 I5 I6 I7 I8 I9 I10 I11].
  constructor; simpl; auto.
  - intros k pr Hin. apply lookup_snoc_old. eauto.
  - intros k pr Hin. destruct (I4 k pr Hin) as (m & ms & Ht).
    exists m, ms. now apply lookup_snoc_old.
  - intros t k m ms p H. apply lookup_snoc_Some in H as [H|[-> H]]; [eauto|discriminate].
  - intros t s p H. apply lookup_snoc_Some in H as [H|[-> H]].
    + destruct (I6 _ _ _ H) as (sock & Hs & Ho). exists sock. split; [|assumption].
      now apply lookup_snoc_old.
    + inversion H; subst. eexists. split; [apply lookup_snoc_new|reflexivity].
  - intros s sock Hs. apply lookup_snoc_Some in Hs as [Hs|[-> ->]].
    + destruct (I7 s sock Hs) as (job & Hj & Hnr).
      exists job. split; [now apply lookup_snoc_old|assumption].
    + simpl. eexists. split; [apply lookup_snoc_new|discriminate].
  - intros s sock Hs. rewrite length_app. simpl.
    apply lookup_snoc_Some in Hs as [Hs|[-> ->]]; [pose proof (I8 _ _ Hs)|simpl]; lia.
  - intros s sock k pr Hs Hin. apply lookup_snoc_Some in Hs as [Hs|[-> ->]]; [eauto|].
    simpl. pose proof (I3 _ _ Hin) as Hu. apply lookup_lt_Some in Hu. lia.
  - intros p Hp. inversion Hp; subst. split; [apply lookup_snoc_new|].
    eexists _, _. split; [apply lookup_snoc_new|reflexivity].
Qed.

Lemma set_readyState_opener s r c i sock :
  sockets c !! i = Some sock ->
  exists sock', sockets (set_readyState s r c) !! i = Some sock'
                /\ opener sock' = opener sock /\ deadline sock' = deadline sock.
Proof.
  intros H. rewrite set_readyState_lookup, H.
  eexists; split; [reflexivity|]. now destruct (Nat.eqb s i).
Qed.

Lemma ws_close_opener s c i sock :
  sockets c !! i = Some sock ->
  exists sock', sockets (ws_close s c) !! i = Some sock' /\ opener sock' = opener sock.
Proof.
  intros H. unfold ws_close. destruct (sockets c !! s) as [sk|]; [|eauto].
  destruct (readyState sk); eauto;
    destruct (set_readyState_opener s CLOSING c i sock H) as (sock' & ? & ? & ?); eauto.
Qed.

Lemma consistent_on_open s c : consistent c -> consistent (on_open s c).
Proof.
  intros Hc. unfold on_open. destruct (sockets c !! s) as [sock|] eqn:Hs; [|assumption].
  pose proof (set_readyState_rest s OPEN c) as (_ & _ & _ & _ & _ & Et & _).
  apply consistent_settle_connect.
  - apply consistent_logDebug, consistent_with_ws, consistent_clearTimeout.
    + now apply consistent_set_readyState.
    + intros k m ms p. rewrite Et.
      destruct (deadline_connect c Hc s sock Hs) as (job & Hj & Hnr).
      rewrite Hj. intros E. inversion E. eapply Hnr; eauto.
  - simpl. destruct (set_readyState_opener s OPEN c s sock Hs) as (sock' & H1 & H2 & _).
    eauto.
Qed.

Lemma consistent_on_error s c : consistent c -> consistent (on_error s c).
Proof.
  intros Hc. unfold on_error. destruct (sockets c !! s) as [sock|] eqn:Hs; [|assumption].
  apply consistent_settle_connect.
  - apply consistent_with_ws, consistent_logDebug, consistent_clearTimeout; [assumption|].
    intros k m ms p.
    destruct (deadline_connect c Hc s sock Hs) as (job & Hj & Hnr).
    rewrite Hj. intros E. inversion E. eapply Hnr; eauto.
  - simpl. eauto.
Qed.

Lemma consistent_on_message parsed c : consistent c -> consistent (on_message parsed c).
Proof.
  intros Hc. unfold on_message.
  destruct parsed as [response|]; [|now apply consistent_logDebug].
  destruct response; try (now apply consistent_logDebug);
    try (simpl; assumption).
  destruct (prop (Obj props) "id"); try assumption.
  destruct (Assoc.get s (pendingRequests c)) as [pending|] eqn:Hget; [|assumption].
  destruct (truthy (prop (Obj props) "error"));
    exact (consistent_remove s pending _ c Hc Hget).
Qed.

Lemma consistent_on_timer t c : consistent c -> consistent (on_timer t c).
Proof.
  intros Hc. unfold on_timer.
  destruct (timers c !! t) as [[job|]|] eqn:Ht; try assumption.
  destruct job as [k m ms p|s p].
  - pose proof (timer_pending c Hc _ _ _ _ _ Ht) as Hget.
    exact (consistent_remove k {| resolver := p; timer := t |} _ c Hc Hget).
  - destruct (timer_socket c Hc _ _ _ Ht) as (sock & Hs & Ho).
    apply consistent_settle_connect.
    + apply consistent_ws_close, consistent_clearTimeout; [assumption|].
      intros k m ms p'. rewrite Ht. discriminate.
    + destruct (ws_close_opener s (clearTimeout t c) s sock Hs) as (sock' & H1 & H2).
      exists s, sock'. split; congruence.
Qed.

Lemma consistent_request method params timeoutMs c :
  consistent c -> consistent (snd (request method params timeoutMs c)).
Proof.
  intros Hc. unfold request. destruct (isConnected c).
  - destruct (ws c) as [s|]; [|assumption].
    pose proof (consistent_request_send method params timeoutMs s c Hc) as H.
    now destruct (request_send method params timeoutMs s c).
  - pose proof (consistent_connect c Hc) as H. now destruct (connect c).
Qed.

Lemma consistent_disconnect c : consistent c -> consistent (disconnect c).
Proof.
  intros Hc. unfold disconnect. destruct (ws c); [|assumption].
  now apply consistent_with_ws, consistent_ws_close.
Qed.

Lemma consistent_step e c : consistent c -> consistent (step e c).
Proof.
  intros Hc. destruct e; simpl;
    auto using consistent_connect, consistent_request, consistent_disconnect,
      consistent_on_open, consistent_on_message, consistent_on_close,
      consistent_on_error, consistent_on_timer.
Qed.

(** Every state a client reaches from [new BridgeClient()] is consistent. *)
Lemma consistent_run events c : consistent c -> consistent (run events c).
Proof.
  revert c. induction events as [|e events IH]; intros c Hc; simpl; [assumption|].
  apply IH, consistent_step, Hc.
Qed.

(** *** A response frame *)

(** The outcome a response gives to the call it answers. *)
Lemma on_message_found c response key pending :
  prop response "id" = Str key ->
  Assoc.get key (pendingRequests c) = Some pending ->
  on_message (Some response) c =
  settle (resolver pending)
    (if truthy (prop response "error")
     then Rejected (BridgeError (prop (prop response "error") "message"))
     else Fulfilled (prop response "result"))
    (with_pendingRequests (Assoc.delete key (pendingRequests c))
       (clearTimeout (timer pending) c)).
Proof.
  intros Hid Hget. destruct response; simpl in Hid; try discriminate.
  unfold on_message. simpl. rewrite Hid, Hget.
  now destruct (truthy _).
Qed.

Lemma on_message_not_found c response :
  response <> Null -> response <> Undefined ->
  (forall key, prop response "id" = Str key ->
               Assoc.get key (pendingRequests c) = None) ->
  on_message (Some response) c = c.
Proof.
  intros Hn Hu Hnone. unfold on_message.
  destruct response; try congruence; try reflexivity.
  destruct (prop (Obj props) "id") eqn:Hid; try reflexivity.
  now rewrite (Hnone s eq_refl).
Qed.

Lemma on_message_answers c response key pending :
  consistent c ->
  prop response "id" = Str key ->
  Assoc.get key (pendingRequests c) = Some pending ->
  let c' := on_message (Some response) c in
  pendingRequests c' = Assoc.delete key (pendingRequests c)
  /\ Assoc.get key (pendingRequests c') = None
  /\ promises c' !! resolver pending =
        Some (if truthy (prop response "error")
              then Rejected (BridgeError (prop (prop response "error") "message"))
              else Fulfilled (prop response "result"))
  /\ timers c' !! timer pending = Some None
  /\ (forall k' pr', k' <> key ->
         Assoc.get k' (pendingRequests c) = Some pr' ->
         Assoc.get k' (pendingRequests c') = Some pr'
         /\ promises c' !! resolver pr' = Some Unsettled
         /\ timers c' !! timer pr' = timers c !! timer pr')
  /\ (forall q, q <> resolver pending -> promises c' !! q = promises c !! q)
  /\ ws c' = ws c /\ wire c' = wire c /\ debug c' = debug c.
Proof.
  intros Hc Hid Hget c'. unfold c'. rewrite (on_message_found c response key pending Hid Hget).
  set (o := if truthy _ then _ else _).
  set (c1 := with_pendingRequests _ _).
  pose proof (AssocFacts.get_In _ _ _ Hget) as Hin.
  pose proof (settle_rest (resolver pending) o c1) as (E1 & E2 & E3 & E4 & E5 & E6 & E7 & E8).
  destruct (pending_timer c Hc _ _ Hin) as (m & ms & Ht).
  rewrite E1, E3, E6, E7, E8. simpl.
  split; [reflexivity|]. split; [apply AssocFacts.get_delete_eq|].
  split; [apply settle_lookup_eq; simpl; eapply pending_unsettled; eauto|].
  split; [apply list_lookup_insert_eq; eapply lookup_lt_Some; eauto|].
  split; [|split; [|auto]].
  - intros k' pr' Hne Hget'.
    pose proof (AssocFacts.get_In _ _ _ Hget') as Hin'.
    split; [now rewrite AssocFacts.get_delete_ne by congruence|]. split.
    + rewrite settle_lookup_ne; [simpl; eapply pending_unsettled; eauto|].
      intros E. apply Hne. symmetry. eapply (resolver_owner c Hc); eauto.
    + apply list_lookup_insert_ne. intros E.
      destruct (pending_timer c Hc _ _ Hin') as (m' & ms' & Ht').
      rewrite E in Ht. congruence.
  - intros q Hq. rewrite settle_lookup_ne by congruence. reflexivity.
Qed.





(** *** The connection closes *)

Lemma on_close_unfold s c :
  on_close s c =
  with_pendingRequests []
    (reject_all (pendingRequests c)
       (with_ws None (logDebug LogDisconnected (set_readyState s CLOSED c)))).
Proof.
  unfold on_close. cbn [pendingRequests with_ws logDebug].
  pose proof (set_readyState_rest s CLOSED c) as (_ & _ & F3 & _).
  now rewrite F3.
Qed.

Lemma reject_all_ext entries c1 c2 :
  promises c1 = promises c2 -> timers c1 = timers c2 ->
  promises (reject_all entries c1) = promises (reject_all entries c2)
  /\ timers (reject_all entries c1) = timers (reject_all entries c2).
Proof.
  revert c1 c2. induction entries as [|[k pr] rest IH]; intros c1 c2 Hp Ht; simpl; [auto|].
  apply IH.
  - unfold settle. simpl. rewrite Hp.
    destruct (promises c2 !! resolver pr) as [[| |]|]; simpl; congruence.
  - rewrite !settle_timers. simpl. congruence.
Qed.

Lemma on_close_rest s c :
  ws (on_close s c) = None
  /\ requestId (on_close s c) = requestId c
  /\ pendingRequests (on_close s c) = []
  /\ connectPromise (on_close s c) = connectPromise c
  /\ length (sockets (on_close s c)) = length (sockets c)
  /\ length (promises (on_close s c)) = length (promises c)
  /\ length (timers (on_close s c)) = length (timers c)
  /\ wire (on_close s c) = wire c.
Proof.
  rewrite on_close_unfold.
  set (c1 := with_ws None (logDebug LogDisconnected (set_readyState s CLOSED c))).
  pose proof (reject_all_rest (pendingRequests c) c1)
    as (E1 & E2 & E3 & E4 & E5 & E6 & E7 & E8 & E9).
  pose proof (set_readyState_rest s CLOSED c) as (F1 & F2 & F3 & F4 & F5 & F6 & F7 & F8).
  cbn [ws requestId pendingRequests connectPromise sockets promises timers wire
       with_pendingRequests].
  rewrite E1, E2, E4, E5, E6, E8, E9. unfold c1.
  cbn [ws requestId pendingRequests connectPromise sockets promises timers wire
       with_ws logDebug].
  rewrite F2, F4, F5, F6, F7.
  repeat split. unfold set_readyState.
  destruct (sockets c !! s); simpl; [apply length_insert|reflexivity].
Qed.

Lemma on_close_promises s c :
  promises (on_close s c) = promises (reject_all (pendingRequests c) c)
  /\ timers (on_close s c) = timers (reject_all (pendingRequests c) c).
Proof.
  rewrite on_close_unfold. cbn [promises timers with_pendingRequests].
  pose proof (set_readyState_rest s CLOSED c) as (F1 & F2 & F3 & F4 & F5 & F6 & F7 & F8).
  apply reject_all_ext; simpl; assumption.
Qed.

Lemma settle_connect_unsettled p o c :
  promises c !! p = Some Unsettled ->
  settle_connect p o c = with_connectPromise None (settle p o c).
Proof. intros H. unfold settle_connect. now rewrite H. Qed.

(** When the socket of an attempt opens, the client is connected. *)
Lemma on_open_connects s c sock :
  sockets c !! s = Some sock ->
  promises c !! opener sock = Some Unsettled ->
  isConnected (on_open s c) = true
  /\ ws (on_open s c) = Some s
  /\ promises (on_open s c) !! opener sock = Some (Fulfilled Undefined)
  /\ connectPromise (on_open s c) = None.
Proof.
  intros Hs Hu. unfold on_open. rewrite Hs.
  set (c1 := logDebug LogConnected _).
  pose proof (set_readyState_rest s OPEN c) as (F1 & F2 & F3 & F4 & F5 & F6 & F7 & F8).
  assert (Hp : promises c1 = promises c) by (unfold c1; simpl; exact F5).
  assert (Hw : ws c1 = Some s) by reflexivity.
  assert (Hso : sockets c1 !! s =
                Some {| readyState := OPEN; opener := opener sock; deadline := deadline sock |}).
  { unfold c1. cbn [sockets logDebug with_ws clearTimeout with_timers].
    rewrite set_readyState_lookup, Hs. now rewrite Nat.eqb_refl. }
  rewrite settle_connect_unsettled by (rewrite Hp; exact Hu).
  unfold isConnected.
  cbn [ws sockets promises connectPromise with_connectPromise].
  rewrite settle_ws, settle_sockets, Hw, Hso. simpl.
  repeat split. apply settle_lookup_eq. now rewrite Hp.
Qed.

(** C2. When the connection of a client whose pending table is
    consistent closes: every call that was pending, whichever its place
    in the table, has its promise rejected with the connection-closed
    error and its timer cleared; no other promise changes; the pending
    table is empty; the client has no socket and is not connected.
    With no attempt in flight, a later [connect()] starts a new attempt
    on a new socket, and when that socket opens the client is connected
    again and the attempt's promise is resolved; with an attempt in
    flight, [connect()] hands out that attempt. *)
Theorem close_rejects_every_pending_call (s : nat) (c : Client) :
  consistent c ->
  (forall k pr, In (k, pr) (pendingRequests c) ->
     promises (on_close s c) !! resolver pr = Some (Rejected ConnectionClosed)
     /\ timers (on_close s c) !! timer pr = Some None)
  /\ (forall q, (forall k pr, In (k, pr) (pendingRequests c) -> resolver pr <> q) ->
        promises (on_close s c) !! q = promises c !! q)
  /\ pendingRequests (on_close s c) = []
  /\ ws (on_close s c) = None
  /\ isConnected (on_close s c) = false
  /\ (connectPromise c = None ->
        let p := length (promises c) in
        let s' := length (sockets c) in
        exists c1,
          connect (on_close s c) = (Attempt p, c1)
          /\ isConnected (on_open s' c1) = true
          /\ ws (on_open s' c1) = Some s'
          /\ promises (on_open s' c1) !! p = Some (Fulfilled Undefined)
          /\ connectPromise (on_open s' c1) = None)
  /\ (forall p, connectPromise c = Some p ->
        connect (on_close s c) = (Attempt p, on_close s c)).
Proof.
  intros Hc.
  pose proof (on_close_rest s c) as (E1 & E2 & E3 & E4 & E5 & E6 & E7 & E8).
  pose proof (on_close_promises s c) as (Ep & Et).
  assert (Hdis : isConnected (on_close s c) = false).
  { unfold isConnected. now rewrite E1. }
  split; [|split; [|split; [|split; [|split; [|split]]]]]; auto.
  - intros k pr Hin. rewrite Ep, Et. split.
    + apply (reject_all_rejects _ _ k); [assumption|]. left.
      eapply pending_unsettled; eauto.
    + apply (reject_all_clears _ _ k); [assumption|].
      destruct (pending_timer c Hc _ _ Hin) as (m & ms & Ht).
      eapply lookup_lt_Some; eauto.
  - intros q Hq. rewrite Ep. now apply reject_all_other.
  - intros Hnone p s'.
    assert (Hcp : connectPromise (on_close s c) = None) by congruence.
    pose proof (connect_state (on_close s c) Hdis Hcp) as Hconn.
    cbv zeta in Hconn. rewrite E5, E6 in Hconn. fold p s' in Hconn.
    eexists. split; [exact Hconn|].
    set (sock := {| readyState := CONNECTING; opener := p;
                    deadline := length (timers (on_close s c)) |}).
    match goal with |- context [on_open s' ?x] => set (c1 := x) end.
    assert (Hs : sockets c1 !! s' = Some sock).
    { unfold c1, s'. cbn [sockets]. rewrite <- E5. apply lookup_snoc_new. }
    assert (Hu : promises c1 !! opener sock = Some Unsettled).
    { unfold c1, sock, p. cbn [promises opener]. rewrite <- E6. apply lookup_snoc_new. }
    exact (on_open_connects s' c1 sock Hs Hu).
  - intros p Hp. unfold connect. now rewrite Hdis, E4, Hp.
Qed.

Lemma close_rejects_every_pending_call_witness :
  let c := run [CallConnect; SocketOpen 0;
                CallRequest "ping" (Obj []) 30000;
                CallRequest "get_scene_tree" (Obj []) 30000;
                CallRequest "capture_screenshot" (Obj []) 30000] new_client in
  consistent c
  /\ promises (on_close 0 c) =
       [Fulfilled Undefined; Rejected ConnectionClosed; Rejected ConnectionClosed;
        Rejected ConnectionClosed]
  /\ pendingRequests (on_close 0 c) = []
  /\ isConnected (on_close 0 c) = false
  /\ (forall k pr, In (k, pr) (pendingRequests c) ->
        promises (on_close 0 c) !! resolver pr = Some (Rejected ConnectionClosed)).
Proof.
  intros c.
  assert (Hc : consistent c) by apply consistent_run, consistent_new_client.
  destruct (close_rejects_every_pending_call 0 c Hc) as (H1 & _ & H3 & _ & H5 & _ & _).
  split; [exact Hc|]. split; [reflexivity|]. split; [exact H3|]. split; [exact H5|].
  intros k pr Hin. exact (proj1 (H1 k pr Hin)).
Defined.

End BridgeClientFacts.

(** ** Typed values on the target side *)

Module TypedValuesFacts.
Import Godot TypedValues.

Section Facts.
Context {engine : Engine}.

(** *** The walk over a mapping without discriminator *)

Lemma convert_untagged entries :
  Assoc.has "_type" entries = false ->
  convert_typed_value (VDictionary entries) =
  (let* result := walk convert_typed_value entries [] in Ok (VDictionary result)).
Proof. intros H. simpl. now rewrite H. Qed.

Lemma live_untagged entries :
  Assoc.has "_type" entries = false ->
  _convert_typed_value (VDictionary entries) =
  (let* result := walk _convert_typed_value entries [] in Ok (VDictionary result)).
Proof. intros H. simpl. now rewrite H. Qed.

Lemma keys_app {V} (l1 l2 : list (string * V)) :
  Assoc.keys (l1 ++ l2) = Assoc.keys l1 ++ Assoc.keys l2.
Proof. apply map_app. Qed.

Lemma NoDup_app_not_in {A} (l1 l2 : list A) (x : A) :
  List.NoDup (l1 ++ x :: l2) -> ~ In x l1.
Proof.
  intros H Hin. apply NoDup_remove_2 in H. apply H. apply in_app_iff. now left.
Qed.

Lemma walk_converts f entries acc out :
  List.NoDup (Assoc.keys acc ++ Assoc.keys entries) ->
  List.Forall2 (converts f) entries out ->
  walk f entries acc = Ok (acc ++ out).
Proof.
  intros Hnd Hall. revert acc Hnd.
  induction Hall as [|[k v] [k' c] es os [Hk Hf] Hall IH]; intros acc Hnd; simpl.
  - now rewrite app_nil_r.
  - simpl in Hk, Hf. subst k'. rewrite Hf. simpl.
    simpl in Hnd. rewrite AssocFacts.set_fresh by (eapply NoDup_app_not_in; eauto).
    rewrite IH.
    + now rewrite <- app_assoc.
    + rewrite keys_app. simpl. now rewrite <- app_assoc.
Qed.


Lemma walk_identity f entries :
  List.NoDup (Assoc.keys entries) ->
  (forall k v, In (k, v) entries -> f v = Ok v) ->
  walk f entries [] = Ok entries.
Proof.
  intros Hnd Hid. apply (walk_converts f entries [] entries); [exact Hnd|].
  clear Hnd. induction entries as [|[k v] es IH]; constructor.
  - split; [reflexivity|]. apply (Hid k). now left.
  - apply IH. intros k' v' Hin. apply (Hid k'). now right.
Qed.



(** *** A mapping with a discriminator *)

Lemma has_get {V} key (l : list (string * V)) v :
  Assoc.get key l = Some v -> Assoc.has key l = true.
Proof. intros H. unfold Assoc.has. now rewrite H. Qed.


Ltac unknown_name Hnot :=
  repeat match goal with
  | |- context [String.eqb ?t ?name] =>
      destruct (String.eqb_spec t name) as [->|_];
      [exfalso; apply Hnot; simpl; tauto|]
  end.


Lemma live_unknown entries t :
  Assoc.get "_type" entries = Some (VString t) ->
  ~ In t live_types ->
  _convert_typed_value (VDictionary entries) = Ok (VDictionary entries).
Proof.
  intros Hget Hnot. simpl. rewrite (has_get _ _ _ Hget). simpl.
  unfold dict_get. rewrite Hget. simpl.
  unknown_name Hnot. reflexivity.
Qed.







(** *** Defaults and round trip *)











(** *** Nested typed fields *)





(** *** What an untagged mapping decodes to *)




End Facts.




End TypedValuesFacts.

(** ** Promotion to the 2D vector *)

Module AutoDetectFacts.
Import JS GodotTypes Godot TypedValues TypedValuesFacts.

Ltac step_result H :=
  match type of H with
  | Ok _ = Ok _ => inversion H; clear H
  | Raise _ = Ok _ => discriminate H
  | bind ?r _ = _ => let E := fresh "E" in destruct r eqn:E; cbn [bind] in H
  | (if ?c then _ else _) = _ => let E := fresh "E" in destruct c eqn:E
  | match ?r with _ => _ end = _ => let E := fresh "E" in destruct r eqn:E
  end.

Section Decode.
Context {engine : Engine}.

Lemma convert_Vector2_tagged v x y :
  convert_typed_value v = Ok (VVector2 x y) ->
  v = VVector2 x y
  \/ exists entries, v = VDictionary entries
                     /\ Assoc.get "_type" entries = Some (VString "Vector2").
Proof.
  destruct v; simpl; intros H; try discriminate; try (inversion H; subst; now left).
  right. exists entries. split; [reflexivity|].
  unfold Assoc.has, dict_get in H.
  destruct (Assoc.get "_type" entries) as [t|] eqn:Hget; simpl in H.
  - destruct t; simpl in H; try discriminate.
    destruct (String.eqb_spec s "Vector2") as [->|Hne]; [reflexivity|].
    exfalso.
    unfold make_Vector2i, make_Vector3, make_Vector3i, make_Color, make_Rect2,
      make_NodePath, make_Resource, when_present in H.
    repeat step_result H.
  - destruct (walk convert_typed_value entries []); simpl in H; discriminate.
Qed.

Lemma live_Vector2_tagged v x y :
  _convert_typed_value v = Ok (VVector2 x y) ->
  v = VVector2 x y
  \/ exists entries, v = VDictionary entries
                     /\ Assoc.get "_type" entries = Some (VString "Vector2").
Proof.
  destruct v; simpl; intros H; try discriminate; try (inversion H; subst; now left).
  right. exists entries. split; [reflexivity|].
  unfold Assoc.has, dict_get in H.
  destruct (Assoc.get "_type" entries) as [t|] eqn:Hget; simpl in H.
  - destruct t; simpl in H; try discriminate.
    destruct (String.eqb_spec s "Vector2") as [->|Hne]; [reflexivity|].
    exfalso.
    unfold make_Vector2i, make_Vector3, make_Vector3i, make_Color, make_Rect2,
      make_NodePath in H.
    repeat step_result H.
  - destruct (walk _convert_typed_value entries []); simpl in H; discriminate.
Qed.

Lemma untagged_stays_mapping decode entries result :
  decode = convert_typed_value \/ decode = _convert_typed_value ->
  Assoc.has "_type" entries = false ->
  decode (VDictionary entries) = Ok result ->
  exists out, result = VDictionary out.
Proof.
  intros Hd Hno H.
  assert (Hun : decode (VDictionary entries) =
                (let* result := walk decode entries [] in Ok (VDictionary result))).
  { destruct Hd as [-> | ->]; [now apply convert_untagged|now apply live_untagged]. }
  rewrite Hun in H. destruct (walk decode entries []) as [r|e]; simpl in H; [|discriminate].
  inversion H. eauto.
Qed.

End Decode.

Lemma looksLikeVector2_iff value :
  looksLikeVector2 value = true <->
  exists props x y,
    value = Obj props
    /\ Assoc.get "x" props = Some (Num x) /\ Assoc.get "y" props = Some (Num y)
    /\ Assoc.has "z" props = false /\ Assoc.has "_type" props = false.
Proof.
  split.
  - destruct value; simpl; try discriminate. unfold looksLikeVector2. simpl.
    destruct (Assoc.get "x" props) as [[]|] eqn:Hx; simpl; try discriminate.
    destruct (Assoc.get "y" props) as [[]|] eqn:Hy; simpl; try discriminate.
    destruct (Assoc.has "z" props) eqn:Hz; simpl; try discriminate.
    destruct (Assoc.has "_type" props) eqn:Ht; simpl; try discriminate.
    intros _. eauto 10.
  - intros (props & x & y & -> & Hx & Hy & Hz & Ht).
    unfold looksLikeVector2. simpl. now rewrite Hx, Hy, Hz, Ht.
Qed.

(** C8. The helper [autoDetectVector2] promotes a value exactly when it
    is a plain object whose [x] and [y] are numbers and which has
    neither [z] nor [_type]; the result is then
    [{_type: "Vector2", x, y}] with the same two numbers, and every other
    value is returned as it is. Neither decoder promotes: a mapping
    without [_type] decodes to a mapping, [{x, y}] decodes to itself,
    and a decoder returns a 2D vector only for a value that is one
    already or that carries the discriminator ["Vector2"]. *)
Theorem auto_detection_promotes_plain_xy {engine : Engine} :
  (forall value,
     (looksLikeVector2 value = true <->
      exists props x y,
        value = Obj props
        /\ Assoc.get "x" props = Some (Num x) /\ Assoc.get "y" props = Some (Num y)
        /\ Assoc.has "z" props = false /\ Assoc.has "_type" props = false)
     /\ (forall props x y,
           value = Obj props ->
           Assoc.get "x" props = Some (Num x) -> Assoc.get "y" props = Some (Num y) ->
           Assoc.has "z" props = false -> Assoc.has "_type" props = false ->
           autoDetectVector2 value =
           Obj [("_type", Str "Vector2"); ("x", Num x); ("y", Num y)])
     /\ (looksLikeVector2 value = false -> autoDetectVector2 value = value))
  /\ (forall decode,
        decode = convert_typed_value \/ decode = _convert_typed_value ->
        (forall entries result,
           Assoc.has "_type" entries = false ->
           decode (VDictionary entries) = Ok result ->
           exists out, result = VDictionary out)
        /\ (forall x y,
              decode (VDictionary [("x", VFloat x); ("y", VFloat y)])
              = Ok (VDictionary [("x", VFloat x); ("y", VFloat y)]))
        /\ (forall v x y,
              decode v = Ok (VVector2 x y) ->
              v = VVector2 x y
              \/ exists entries, v = VDictionary entries
                   /\ Assoc.get "_type" entries = Some (VString "Vector2"))).
Proof.
  split.
  - intros value. split; [apply looksLikeVector2_iff|]. split.
    + intros props x y -> Hx Hy Hz Ht.
      assert (Hl : looksLikeVector2 (Obj props) = true).
      { apply looksLikeVector2_iff. eauto 10. }
      unfold autoDetectVector2. rewrite Hl. simpl. now rewrite Hx, Hy.
    + intros Hl. unfold autoDetectVector2. now rewrite Hl.
  - intros decode Hd. split; [|split].
    + intros entries result. now apply untagged_stays_mapping.
    + intros x y. destruct Hd as [-> | ->]; reflexivity.
    + intros v x y. destruct Hd as [-> | ->];
        [apply convert_Vector2_tagged|apply live_Vector2_tagged].
Qed.

Lemma auto_detection_promotes_plain_xy_witness :
  autoDetectVector2 (Obj [("x", Num 100); ("y", Num 200)])
  = Obj [("_type", Str "Vector2"); ("x", Num 100); ("y", Num 200)]
  /\ autoDetectVector2 (Obj [("x", Num 1); ("y", Num 2); ("z", Num 3)])
     = Obj [("x", Num 1); ("y", Num 2); ("z", Num 3)]
  /\ autoDetectVector2 (Obj [("x", Str "1"); ("y", Num 2)])
     = Obj [("x", Str "1"); ("y", Num 2)].
Proof.
  destruct (auto_detection_promotes_plain_xy (engine := example_engine)) as (Hts & _).
  split; [|split].
  - destruct (Hts (Obj [("x", Num 100); ("y", Num 200)])) as (_ & Hyes & _).
    exact (Hyes _ 100%Q 200%Q eq_refl eq_refl eq_refl eq_refl eq_refl).
  - destruct (Hts (Obj [("x", Num 1); ("y", Num 2); ("z", Num 3)])) as (_ & _ & Hno).
    exact (Hno eq_refl).
  - destruct (Hts (Obj [("x", Str "1"); ("y", Num 2)])) as (_ & _ & Hno).
    exact (Hno eq_refl).
Defined.

End AutoDetectFacts.

(** ** The bridge server *)

Module BridgeServerFacts.
Import Godot BridgeServer.

Section Facts.
Context {engine : Engine}.

Implicit Types (s : Server) (p n g : nat).

(** *** One call of the dispatcher *)

(** A call sends one frame, or suspends, or is ended by a runtime
    error; it leaves the registry alone. *)
Lemma handle_message_outcome p parsed s :
  let s' := _handle_message p parsed s in
  _handlers s' = _handlers s
  /\ calls s' = S (calls s)
  /\ ((exists id rest,
         sent s' = sent s ++ [{| peer := p; call := calls s;
                                 response := VDictionary (("id", VString id) :: rest) |}]
         /\ suspended s' = suspended s /\ failed s' = failed s)
      \/ (exists id g,
            sent s' = sent s
            /\ suspended s' = suspended s ++ [{| awaiting_call := calls s; awaiting_peer := p;
                                                 awaiting_id := id; deferred_signal := g |}]
            /\ failed s' = failed s)
      \/ (exists e,
            sent s' = sent s /\ suspended s' = suspended s
            /\ failed s' = failed s ++ [(calls s, e)])).
Proof.
  unfold _handle_message.
  destruct parsed as [m|msg].
  { simpl. split; [reflexivity|]. split; [reflexivity|]. left. eauto 10. }
  destruct msg; try solve [simpl; split; [reflexivity|]; split; [reflexivity|]; left; eauto 10].
  destruct (typed_String "method" (dict_get "method" (VString "") entries)) as [method|e].
  2: { simpl. split; [reflexivity|]. split; [reflexivity|]. right. right. eauto. }
  destruct (String.eqb method "").
  { simpl. split; [reflexivity|]. split; [reflexivity|]. left. eauto 10. }
  cbn [_handlers count_call].
  destruct (Assoc.get method (_handlers s)) as [handler|].
  2: { simpl. split; [reflexivity|]. split; [reflexivity|]. left. eauto 10. }
  destruct (handler (dict_get "params" (VDictionary []) entries)) as
    [ | | | | | |fields| | | | | | | | | ];
    try solve [simpl; split; [reflexivity|]; split; [reflexivity|]; left; eauto 10].
  destruct (Assoc.has "_deferred" fields).
  2: { simpl. split; [reflexivity|]. split; [reflexivity|]. left. eauto 10. }
  destruct (dict_get "_deferred" Nil fields);
    try solve [simpl; split; [reflexivity|]; split; [reflexivity|]; right; right; eauto].
  simpl. split; [reflexivity|]. split; [reflexivity|]. right. left. eauto 10.
Qed.

Lemma well_numbered_start handlers : well_numbered (start handlers).
Proof. split; simpl; intros ? []. Qed.

Lemma well_numbered_handle_message p parsed s :
  well_numbered s -> well_numbered (_handle_message p parsed s).
Proof.
  intros [Hs Ha].
  destruct (handle_message_outcome p parsed s) as (_ & Hc & H).
  unfold well_numbered. rewrite Hc.
  destruct H as [(id & rest & E1 & E2 & _)|[(id & g & E1 & E2 & _)|(e & E1 & E2 & _)]];
    rewrite E1, E2; split.
  - intros f Hin. apply in_app_iff in Hin as [Hin|[<-|[]]]; [apply Hs in Hin; lia|simpl; lia].
  - intros a Hin. apply Ha in Hin. lia.
  - intros f Hin. apply Hs in Hin. lia.
  - intros a Hin. apply in_app_iff in Hin as [Hin|[<-|[]]]; [apply Ha in Hin; lia|simpl; lia].
  - intros f Hin. apply Hs in Hin. lia.
  - intros a Hin. apply Ha in Hin. lia.
Qed.

(** *** Resuming suspended calls *)

Lemma resume_sent g value waiting s :
  sent (resume g value waiting s) =
  sent s ++ map (resumed value) (List.filter (fun a => Nat.eqb (deferred_signal a) g) waiting).
Proof.
  revert s. induction waiting as [|a rest IH]; intros s; simpl.
  - now rewrite app_nil_r.
  - destruct (Nat.eqb (deferred_signal a) g).
    + rewrite IH. simpl. now rewrite <- app_assoc.
    + apply IH.
Qed.

Lemma resume_rest g value waiting s :
  _handlers (resume g value waiting s) = _handlers s
  /\ failed (resume g value waiting s) = failed s
  /\ calls (resume g value waiting s) = calls s.
Proof.
  revert s. induction waiting as [|a rest IH]; intros s; simpl; [auto|].
  destruct (Nat.eqb (deferred_signal a) g); [|apply IH].
  destruct (IH (_send_result (awaiting_peer a) (awaiting_call a) (awaiting_id a) value s))
    as (H1 & H2 & H3).
  now rewrite H1, H2, H3.
Qed.

Lemma emit_state g value s :
  sent (emit g value s) =
    sent s ++ map (resumed value)
                (List.filter (fun a => Nat.eqb (deferred_signal a) g) (suspended s))
  /\ suspended (emit g value s) =
      List.filter (fun a => negb (Nat.eqb (deferred_signal a) g)) (suspended s)
  /\ _handlers (emit g value s) = _handlers s
  /\ failed (emit g value s) = failed s
  /\ calls (emit g value s) = calls s.
Proof.
  unfold emit. simpl.
  destruct (resume_rest g value (suspended s) s) as (H1 & H2 & H3).
  rewrite resume_sent, H1, H2, H3. repeat split.
Qed.

Lemma well_numbered_emit g value s : well_numbered s -> well_numbered (emit g value s).
Proof.
  intros [Hs Ha]. destruct (emit_state g value s) as (E1 & E2 & _ & _ & E5).
  unfold well_numbered. rewrite E1, E2, E5. split.
  - intros f Hin. apply in_app_iff in Hin as [Hin|Hin]; [auto|].
    apply in_map_iff in Hin as (a & <- & Hin). apply filter_In in Hin as [Hin _].
    simpl. auto.
  - intros a Hin. apply filter_In in Hin as [Hin _]. auto.
Qed.

Lemma well_numbered_step e s : well_numbered s -> well_numbered (step e s).
Proof.
  destruct e; simpl; [apply well_numbered_handle_message|apply well_numbered_emit].
Qed.

Lemma well_numbered_run events s : well_numbered s -> well_numbered (run events s).
Proof.
  revert s. induction events as [|e events IH]; intros s H; simpl; [assumption|].
  apply IH, well_numbered_step, H.
Qed.

(** *** Calls suspended on a signal *)

Lemma filter_none {A} (f : A -> bool) (l : list A) :
  (forall x, In x l -> f x = false) -> List.filter f l = [].
Proof.
  induction l as [|a l IH]; simpl; intros H; [reflexivity|].
  rewrite (H a) by now left. apply IH. intros x Hx. apply H. now right.
Qed.

Lemma filter_filter_comm {A} (f g : A -> bool) (l : list A) :
  List.filter f (List.filter g l) = List.filter g (List.filter f l).
Proof.
  induction l as [|a l IH]; simpl; [reflexivity|].
  destruct (f a) eqn:Hf, (g a) eqn:Hg; simpl; rewrite ?Hf, ?Hg, IH; reflexivity.
Qed.

Lemma filter_resumed n value (l : list Awaiting) :
  List.filter (fun f => Nat.eqb (call f) n) (map (resumed value) l) =
  map (resumed value) (List.filter (fun a => Nat.eqb (awaiting_call a) n) l).
Proof.
  induction l as [|a l IH]; simpl; [reflexivity|].
  destruct (Nat.eqb (awaiting_call a) n); simpl; now rewrite IH.
Qed.

Lemma frames_of_emit n g value s :
  frames_of n (emit g value s) =
  frames_of n s ++
  map (resumed value)
    (List.filter (fun a => Nat.eqb (deferred_signal a) g)
       (List.filter (fun a => Nat.eqb (awaiting_call a) n) (suspended s))).
Proof.
  unfold frames_of. destruct (emit_state g value s) as (E1 & _).
  rewrite E1, List.filter_app, filter_resumed. f_equal. f_equal.
  apply filter_filter_comm.
Qed.

Lemma waiting_for_signal_step n a e s :
  waiting_for_signal n a s ->
  emits (deferred_signal a) e = false ->
  waiting_for_signal n a (step e s).
Proof.
  intros (Hw & Hf & Hlt) He. destruct e as [p parsed|g value]; simpl.
  - destruct (handle_message_outcome p parsed s) as (_ & Hc & H).
    unfold waiting_for_signal, frames_of. rewrite Hc.
    assert (Hn : Nat.eqb (calls s) n = false) by (apply Nat.eqb_neq; lia).
    destruct H as [(id & rest & E1 & E2 & _)|[(id & g & E1 & E2 & _)|(e & E1 & E2 & _)]];
      rewrite E1, E2, ?List.filter_app; simpl; rewrite ?Hn, ?app_nil_r;
      (split; [assumption|split; [assumption|lia]]).
  - simpl in He.
    destruct (emit_state g value s) as (_ & E2 & _ & _ & E5).
    unfold waiting_for_signal. rewrite frames_of_emit, E2, E5, Hw, Hf.
    rewrite filter_filter_comm, Hw. simpl.
    rewrite Nat.eqb_sym in He. rewrite He. simpl.
    repeat split; [assumption].
Qed.

Lemma waiting_for_signal_run n a events s :
  waiting_for_signal n a s ->
  forallb (fun e => negb (emits (deferred_signal a) e)) events = true ->
  waiting_for_signal n a (run events s).
Proof.
  revert s. induction events as [|e events IH]; intros s Hw Hall; simpl; [assumption|].
  simpl in Hall. apply andb_true_iff in Hall as [He Hall].
  apply IH; [|assumption]. apply waiting_for_signal_step; [assumption|].
  now apply negb_true_iff.
Qed.

Lemma waiting_for_signal_emit n a value s :
  waiting_for_signal n a s ->
  frames_of n (emit (deferred_signal a) value s) = [resumed value a]
  /\ ~ In a (suspended (emit (deferred_signal a) value s)).
Proof.
  intros (Hw & Hf & Hlt). split.
  - rewrite frames_of_emit, Hw, Hf. simpl. now rewrite Nat.eqb_refl.
  - destruct (emit_state (deferred_signal a) value s) as (_ & E2 & _).
    rewrite E2. intros Hin. apply filter_In in Hin as [_ Hin].
    now rewrite Nat.eqb_refl in Hin.
Qed.

(** What a call with a registered method does with the handler's result. *)
Lemma handle_message_registered p s msg method handler :
  Assoc.get "method" msg = Some (VString method) ->
  method <> "" ->
  Assoc.get method (_handlers s) = Some handler ->
  let id := str (dict_get "id" (VString "0") msg) in
  let result := handler (dict_get "params" (VDictionary []) msg) in
  let s' := _handle_message p (Data (VDictionary msg)) s in
  (forall fields g,
     result = VDictionary fields ->
     Assoc.get "_deferred" fields = Some (VSignal g) ->
     s' = suspend {| awaiting_call := calls s; awaiting_peer := p;
                     awaiting_id := id; deferred_signal := g |} (count_call s))
  /\ ((forall fields, result = VDictionary fields -> Assoc.has "_deferred" fields = false) ->
      s' = _send_result p (calls s) id result (count_call s)).
Proof.
  intros Hm Hne Hh id result s'. unfold s', _handle_message.
  assert (Hd : dict_get "method" (VString "") msg = VString method)
    by (unfold dict_get; now rewrite Hm).
  rewrite Hd. cbn [typed_String].
  apply String.eqb_neq in Hne. rewrite Hne. cbn [_handlers count_call]. rewrite Hh.
  fold result. split.
  - intros fields g Hr Hg. rewrite Hr.
    unfold Assoc.has, dict_get. now rewrite Hg.
  - intros Hnot. destruct result; try reflexivity.
    now rewrite (Hnot entries eq_refl).
Qed.

(** *** The reserved error codes *)


Lemma handle_message_unknown_method p s msg method :
  Assoc.get "method" msg = Some (VString method) ->
  method <> "" ->
  Assoc.get method (_handlers s) = None ->
  _handle_message p (Data (VDictionary msg)) s =
  _send_error p (calls s) (str (dict_get "id" (VString "0") msg)) (-32601)
    (String.append "Method not found: " method) (count_call s).
Proof.
  intros Hm Hne Hh. unfold _handle_message.
  assert (Hd : dict_get "method" (VString "") msg = VString method)
    by (unfold dict_get; now rewrite Hm).
  rewrite Hd. cbn [typed_String].
  apply String.eqb_neq in Hne. rewrite Hne. cbn [_handlers count_call]. now rewrite Hh.
Qed.


(** *** The id of a response *)





(** *** Deferred results *)

(** C4. A request with a registered method, given to a dispatcher whose
    frames and suspended calls are numbered by the calls that took
    place. When the handler returns a dictionary whose [_deferred] is a
    signal, the call sends nothing and is suspended; whatever packets
    arrive and whatever other signals are emitted afterwards, the call
    has still sent nothing; and when its signal is emitted with a value
    the call sends exactly [{id, result: value}]. When the handler's
    result is not a dictionary with the key [_deferred], the call sends
    exactly [{id, result}] at once and is not suspended. *)
Theorem deferred_result_waits_for_its_signal (p : nat) (s : Server)
    (msg : list (string * Variant)) (method : string) (handler : Callable) :
  well_numbered s ->
  Assoc.get "method" msg = Some (VString method) ->
  method <> "" ->
  Assoc.get method (_handlers s) = Some handler ->
  let id := str (dict_get "id" (VString "0") msg) in
  let result := handler (dict_get "params" (VDictionary []) msg) in
  let n := calls s in
  let s' := _handle_message p (Data (VDictionary msg)) s in
  (forall fields g,
     result = VDictionary fields ->
     Assoc.get "_deferred" fields = Some (VSignal g) ->
     sent s' = sent s
     /\ frames_of n s' = []
     /\ suspended s' = suspended s ++ [{| awaiting_call := n; awaiting_peer := p;
                                          awaiting_id := id; deferred_signal := g |}]
     /\ forall events,
          forallb (fun e => negb (emits g e)) events = true ->
          frames_of n (run events s') = []
          /\ forall value,
               frames_of n (emit g value (run events s')) =
               [{| peer := p; call := n; response := result_response id value |}])
  /\ ((forall fields, result = VDictionary fields -> Assoc.has "_deferred" fields = false) ->
      sent s' = sent s ++ [{| peer := p; call := n; response := result_response id result |}]
      /\ suspended s' = suspended s).
Proof.
  intros [Hs Ha] Hm Hne Hh id result n s'.
  destruct (handle_message_registered p s msg method handler Hm Hne Hh) as [Hdef Himm].
  fold id result s' in Hdef, Himm. split.
  - intros fields g Hr Hg.
    set (a := {| awaiting_call := n; awaiting_peer := p; awaiting_id := id;
                 deferred_signal := g |}).
    assert (Es : s' = suspend a (count_call s)) by (apply (Hdef fields g Hr Hg)).
    assert (Hf : frames_of n s' = []).
    { rewrite Es. unfold frames_of. simpl. apply filter_none.
      intros f Hin. apply Nat.eqb_neq. apply Hs in Hin. fold n in Hin. lia. }
    assert (Hw : waiting_for_signal n a s').
    { split; [|split; [exact Hf|]].
      - rewrite Es. simpl. rewrite List.filter_app. simpl. rewrite Nat.eqb_refl.
        rewrite filter_none; [reflexivity|].
        intros a' Hin. apply Nat.eqb_neq. apply Ha in Hin. fold n in Hin. lia.
      - rewrite Es. simpl. fold n. lia. }
    split; [now rewrite Es|]. split; [exact Hf|]. split; [now rewrite Es|].
    intros events Hev.
    pose proof (waiting_for_signal_run n a events s' Hw Hev) as Hw'.
    split; [apply Hw'|].
    intros value. apply (waiting_for_signal_emit n a value _ Hw').
  - intros Hnot. rewrite (Himm Hnot). split; reflexivity.
Qed.

(** *** A handler that reports a failure *)

Lemma handle_set_property_not_found tree params node_path property :
  Assoc.get "node_path" params = Some (VString node_path) ->
  Assoc.get "property" params = Some (VString property) ->
  node_path <> "" -> property <> "" -> node_path <> "/root" ->
  Handlers.get_node_or_null tree (Handlers.trim_prefix "/root" node_path) = None ->
  Handlers.handle_set_property (Some tree) (VDictionary params) =
  Ok (VDictionary [("error", VString (String.append "Node not found: " node_path))], None).
Proof.
  intros Hn Hp Hne1 Hne2 Hroot Hnode. unfold Handlers.handle_set_property.
  assert (H1 : dict_get "node_path" (VString "") params = VString node_path)
    by (unfold dict_get; now rewrite Hn).
  assert (H2 : dict_get "property" (VString "") params = VString property)
    by (unfold dict_get; now rewrite Hp).
  rewrite H1, H2. cbn [typed_String bind].
  apply String.eqb_neq in Hne1, Hne2, Hroot. rewrite Hne1, Hne2, Hroot. cbn [orb].
  now rewrite Hnode.
Qed.

(** C7, as the sources have it. When the handler of a request returns
    [{error: message}], the dispatcher sends exactly one frame, the
    success-shaped [{id, result: {error: message}}]: it has no [error]
    member and no code, so it is no error response; the registry, the
    suspended calls and the failed calls are as before, so the calls
    that follow are not affected. The property handler reports a node
    it does not find that way, with the message
    ["Node not found: <path>"]. A client that receives the frame
    resolves the call with [{error: message}]. *)
Theorem handler_failure_travels_in_a_result (p : nat) (s : Server)
    (msg : list (string * Variant)) (method : string) (handler : Callable)
    (message : string) :
  Assoc.get "method" msg = Some (VString method) ->
  method <> "" ->
  Assoc.get method (_handlers s) = Some handler ->
  handler (dict_get "params" (VDictionary []) msg) = VDictionary [("error", VString message)] ->
  let id := str (dict_get "id" (VString "0") msg) in
  let s' := _handle_message p (Data (VDictionary msg)) s in
  sent s' = sent s ++ [{| peer := p; call := calls s;
                          response := result_response id
                                        (VDictionary [("error", VString message)]) |}]
  /\ (forall code text,
        result_response id (VDictionary [("error", VString message)])
        <> error_response id code text)
  /\ _handlers s' = _handlers s /\ suspended s' = suspended s /\ failed s' = failed s
  /\ (forall tree params node_path property,
        Assoc.get "node_path" params = Some (VString node_path) ->
        Assoc.get "property" params = Some (VString property) ->
        node_path <> "" -> property <> "" -> node_path <> "/root" ->
        Handlers.get_node_or_null tree (Handlers.trim_prefix "/root" node_path) = None ->
        Handlers.set_node_property (Some tree) (VDictionary params) =
        VDictionary [("error", VString (String.append "Node not found: " node_path))])
  /\ (forall c pending,
        BridgeClient.consistent c ->
        Assoc.get id (BridgeClient.pendingRequests c) = Some pending ->
        BridgeClient.promises
          (BridgeClient.on_message
             (Some (JS.Obj [("id", JS.Str id);
                            ("result", JS.Obj [("error", JS.Str message)])])) c)
          !! BridgeClient.resolver pending
        = Some (BridgeClient.Fulfilled (JS.Obj [("error", JS.Str message)]))).
Proof.
  intros Hm Hne Hh Hr id s'.
  destruct (handle_message_registered p s msg method handler Hm Hne Hh) as [_ Himm].
  fold id s' in Himm. rewrite Hr in Himm.
  assert (Es : s' = _send_result p (calls s) id (VDictionary [("error", VString message)])
                      (count_call s)).
  { apply Himm. intros fields E. inversion E; subst. reflexivity. }
  rewrite Es. split; [reflexivity|]. split; [discriminate|].
  split; [reflexivity|]. split; [reflexivity|]. split; [reflexivity|]. split.
  - intros tree params node_path property Hn Hp H1 H2 H3 H4.
    unfold Handlers.set_node_property.
    now rewrite (handle_set_property_not_found tree params node_path property).
  - intros c pending Hc Hget.
    destruct (BridgeClientFacts.on_message_answers c
                (JS.Obj [("id", JS.Str id); ("result", JS.Obj [("error", JS.Str message)])])
                id pending Hc eq_refl Hget) as (_ & _ & H3 & _).
    exact H3.
Qed.

End Facts.




Lemma deferred_result_waits_for_its_signal_witness :
  let request := [("id", VString "9"); ("method", VString "capture_screenshot")] in
  let ping := Packet 1 (Data (VDictionary [("id", VString "10"); ("method", VString "ping")])) in
  let shot := VDictionary [("image_base64", VString "iVBOR")] in
  let s' := _handle_message (engine := example_engine) 0 (Data (VDictionary request))
              (start example_registry) in
  well_numbered (start example_registry)
  /\ sent s' = []
  /\ frames_of 0 (run (engine := example_engine) [ping] s') = []
  /\ frames_of 0 (emit Handlers.screenshot_ready shot (run (engine := example_engine) [ping] s'))
     = [{| peer := 0; call := 0; response := result_response "9" shot |}].
Proof.
  intros request ping shot s'.
  pose proof (well_numbered_start example_registry) as Hw.
  destruct (deferred_result_waits_for_its_signal (engine := example_engine) 0
              (start example_registry) request "capture_screenshot" Handlers.handle
              Hw eq_refl ltac:(discriminate) eq_refl) as (Hdef & _).
  destruct (Hdef [("_deferred", VSignal Handlers.screenshot_ready)] Handlers.screenshot_ready
              eq_refl eq_refl) as (H1 & _ & _ & Hlater).
  destruct (Hlater [ping] eq_refl) as (H2 & H3).
  split; [exact Hw|]. split; [exact H1|]. split; [exact H2|exact (H3 shot)].
Defined.

Lemma handler_failure_travels_in_a_result_witness :
  let request := [("id", VString "7"); ("method", VString "set_node_property");
                  ("params", VDictionary [("node_path", VString "/root/Missing");
                                          ("property", VString "position");
                                          ("value", VInt 1)])] in
  sent (_handle_message (engine := example_engine) 0 (Data (VDictionary request))
          (start example_registry))
  = [{| peer := 0; call := 0;
        response := result_response "7"
                      (VDictionary [("error", VString "Node not found: /root/Missing")]) |}].
Proof.
  intros request.
  destruct (handler_failure_travels_in_a_result (engine := example_engine) 0
              (start example_registry) request "set_node_property"
              (Handlers.set_node_property (engine := example_engine)
                 (Some Handlers.example_tree))
              "Node not found: /root/Missing"
              eq_refl ltac:(discriminate) eq_refl eq_refl) as (H1 & _).
  exact H1.
Defined.

(** C7, as the specification states it, fails: for a node that is not in
    the scene the frame the dispatcher sends is
    [{"id":"7","result":{"error":"Node not found: /root/Missing"}}],
    which has no [error] member, so no code and no message of its own. *)
Lemma node_not_found_is_sent_as_result :
  let request := Data (VDictionary
                         [("id", VString "7"); ("method", VString "set_node_property");
                          ("params", VDictionary [("node_path", VString "/root/Missing");
                                                  ("property", VString "position");
                                                  ("value", VInt 1)])]) in
  let s' := _handle_message (engine := example_engine) 0 request (start example_registry) in
  map response (sent s')
  = [VDictionary [("id", VString "7");
                  ("result", VDictionary [("error",
                                           VString "Node not found: /root/Missing")])]]
  /\ (forall f, In f (sent s') ->
        forall fields, response f = VDictionary fields -> Assoc.get "error" fields = None)
  /\ (forall f code message, In f (sent s') -> response f <> error_response "7" code message).
Proof.
  intros request s'. split; [reflexivity|]. split.
  - intros f [<-|[]] fields E. inversion E. reflexivity.
  - intros f code message [<-|[]]. discriminate.
Qed.

End BridgeServerFacts.

(** ** More on the bridge client *)

Module BridgeClientMore.
Import JS BridgeClient BridgeClientFacts.

Implicit Types (c : Client) (p q t s : nat).

(** Taking the call [k] out of the table, as the message listener and
    the timeout callback both do. *)
Lemma removal_effect c k pending outcome :
  consistent c ->
  Assoc.get k (pendingRequests c) = Some pending ->
  let c' := settle (resolver pending) outcome
              (with_pendingRequests (Assoc.delete k (pendingRequests c))
                 (clearTimeout (timer pending) c)) in
  pendingRequests c' = Assoc.delete k (pendingRequests c)
  /\ Assoc.get k (pendingRequests c') = None
  /\ promises c' !! resolver pending = Some outcome
  /\ timers c' !! timer pending = Some None
  /\ (forall k' pr', k' <> k ->
        Assoc.get k' (pendingRequests c) = Some pr' ->
        Assoc.get k' (pendingRequests c') = Some pr'
        /\ promises c' !! resolver pr' = Some Unsettled
        /\ timers c' !! timer pr' = timers c !! timer pr')
  /\ (forall q, q <> resolver pending -> promises c' !! q = promises c !! q).
Proof.
  intros Hc Hget c'. unfold c'.
  set (c1 := with_pendingRequests _ _).
  pose proof (AssocFacts.get_In _ _ _ Hget) as Hin.
  pose proof (settle_rest (resolver pending) outcome c1)
    as (E1 & E2 & E3 & E4 & E5 & E6 & E7 & E8).
  destruct (pending_timer c Hc _ _ Hin) as (m & ms & Ht).
  rewrite E3, E6. simpl.
  split; [reflexivity|]. split; [apply AssocFacts.get_delete_eq|].
  split; [apply settle_lookup_eq; simpl; eapply pending_unsettled; eauto|].
  split; [apply list_lookup_insert_eq; eapply lookup_lt_Some; eauto|].
  split.
  - intros k' pr' Hne Hget'.
    pose proof (AssocFacts.get_In _ _ _ Hget') as Hin'.
    split; [now rewrite AssocFacts.get_delete_ne by congruence|]. split.
    + rewrite settle_lookup_ne; [simpl; eapply pending_unsettled; eauto|].
      intros E. apply Hne. symmetry. eapply (resolver_owner c Hc); eauto.
    + apply list_lookup_insert_ne. intros E.
      destruct (pending_timer c Hc _ _ Hin') as (m' & ms' & Ht').
      rewrite E in Ht. congruence.
  - intros q Hq. rewrite settle_lookup_ne by congruence. reflexivity.
Qed.

Lemma on_timer_request c t k method ms p :
  timers c !! t = Some (Some (RequestTimer k method ms p)) ->
  on_timer t c =
  settle p (Rejected (RequestTimedOut method ms))
    (with_pendingRequests (Assoc.delete k (pendingRequests c)) (clearTimeout t c)).
Proof. intros H. unfold on_timer. now rewrite H. Qed.

(** X1. When the deadline of a pending request passes, in a client whose
    pending table is consistent: that request's promise is rejected with
    the timeout error naming its method and its timeout, its entry leaves
    the table and its timer is spent; every other pending request keeps
    its entry, its unsettled promise and its timer, and no other promise
    changes. A response that arrives for the id afterwards leaves the
    client exactly as it is, and so does a second firing of the timer. *)
Theorem timeout_rejects_only_its_request (c : Client) (t : nat) (k method : string)
    (ms : N) (p : nat) :
  consistent c ->
  timers c !! t = Some (Some (RequestTimer k method ms p)) ->
  let c' := on_timer t c in
  promises c' !! p = Some (Rejected (RequestTimedOut method ms))
  /\ pendingRequests c' = Assoc.delete k (pendingRequests c)
  /\ Assoc.get k (pendingRequests c') = None
  /\ timers c' !! t = Some None
  /\ (forall k' pr', k' <> k ->
        Assoc.get k' (pendingRequests c) = Some pr' ->
        Assoc.get k' (pendingRequests c') = Some pr'
        /\ promises c' !! resolver pr' = Some Unsettled
        /\ timers c' !! timer pr' = timers c !! timer pr')
  /\ (forall q, q <> p -> promises c' !! q = promises c !! q)
  /\ (forall response, prop response "id" = Str k -> on_message (Some response) c' = c')
  /\ on_timer t c' = c'.
Proof.
  intros Hc Ht c'.
  pose proof (timer_pending c Hc _ _ _ _ _ Ht) as Hget.
  assert (E : c' = settle p (Rejected (RequestTimedOut method ms))
                     (with_pendingRequests (Assoc.delete k (pendingRequests c))
                        (clearTimeout t c)))
    by (apply on_timer_request; exact Ht).
  destruct (removal_effect c k {| resolver := p; timer := t |}
              (Rejected (RequestTimedOut method ms)) Hc Hget)
    as (H1 & H2 & H3 & H4 & H5 & H6).
  simpl in H1, H2, H3, H4, H5, H6. rewrite <- E in H1, H2, H3, H4, H5, H6.
  split; [exact H3|]. split; [exact H1|]. split; [exact H2|]. split; [exact H4|].
  split; [exact H5|]. split; [exact H6|]. split.
  - intros response Hid. apply on_message_not_found.
    + intros ->. discriminate.
    + intros ->. discriminate.
    + intros key Hkey. rewrite Hid in Hkey. inversion Hkey; subst. exact H2.
  - unfold on_timer. now rewrite H4.
Qed.

Lemma timeout_rejects_only_its_request_witness :
  let c := run [CallConnect; SocketOpen 0;
                CallRequest "ping" (Obj []) 30000;
                CallRequest "get_scene_tree" (Obj []) 500] new_client in
  consistent c
  /\ promises (on_timer 2 c) !! 2%nat = Some (Rejected (RequestTimedOut "get_scene_tree" 500))
  /\ pendingRequests (on_timer 2 c) = [("1", {| resolver := 1; timer := 1 |})]
  /\ on_message (Some (Obj [("id", Str "2"); ("result", Num 7)])) (on_timer 2 c)
     = on_timer 2 c.
Proof.
  intros c.
  assert (Hc : consistent c) by apply consistent_run, consistent_new_client.
  destruct (timeout_rejects_only_its_request c 2 "2" "get_scene_tree" 500 2 Hc eq_refl)
    as (H1 & H2 & _ & _ & _ & _ & H7 & _).
  split; [exact Hc|]. split; [exact H1|]. split; [exact H2|].
  exact (H7 (Obj [("id", Str "2"); ("result", Num 7)]) eq_refl).
Defined.

(** *** Connecting *)

(** A change that opens no socket leaves a client that was not connected
    not connected. *)
Lemma stays_disconnected c c' :
  ws c' = ws c ->
  (forall i sock', sockets c' !! i = Some sock' -> readyState sock' = OPEN ->
     exists sock, sockets c !! i = Some sock /\ readyState sock = OPEN) ->
  isConnected c = false -> isConnected c' = false.
Proof.
  intros Hws Hopen Hc. unfold isConnected in *. rewrite Hws.
  destruct (ws c) as [s|]; [|reflexivity].
  destruct (sockets c' !! s) as [sock'|] eqn:Hs'; [|reflexivity].
  destruct (readyState sock') eqn:Hr; try reflexivity.
  destruct (Hopen s sock' Hs' Hr) as (sock & Hs & Hro).
  now rewrite Hs, Hro in Hc.
Qed.




(** *** Disconnecting *)

Lemma ws_close_rest s c :
  ws (ws_close s c) = ws c
  /\ requestId (ws_close s c) = requestId c
  /\ pendingRequests (ws_close s c) = pendingRequests c
  /\ connectPromise (ws_close s c) = connectPromise c
  /\ promises (ws_close s c) = promises c
  /\ timers (ws_close s c) = timers c
  /\ wire (ws_close s c) = wire c
  /\ debug (ws_close s c) = debug c.
Proof.
  unfold ws_close. destruct (sockets c !! s) as [sock|]; [|repeat split].
  destruct (readyState sock); try (repeat split; fail); apply set_readyState_rest.
Qed.

Lemma ws_close_lookup s c i sock' :
  sockets (ws_close s c) !! i = Some sock' ->
  exists sock, sockets c !! i = Some sock
    /\ (sock' = sock \/ (i = s /\ readyState sock' = CLOSING)).
Proof.
  unfold ws_close. destruct (sockets c !! s) as [sk|] eqn:Hs; [|eauto].
  destruct (readyState sk) eqn:Hr; eauto;
    rewrite set_readyState_lookup;
    (destruct (sockets c !! i) as [sock|] eqn:Hi; [|discriminate]);
    intros H; inversion H; subst; exists sock; split; try reflexivity;
    (destruct (Nat.eqb_spec s i) as [->|Hne]; [right; split; reflexivity|now left]).
Qed.



(** *** Correlation ids *)




Lemma run_snoc events e c : run (events ++ [e]) c = step e (run events c).
Proof. unfold run. now rewrite fold_left_app. Qed.



(** *** A socket that was replaced *)

(** X6. The close listener does not look at which socket closed. When a
    client is connected through socket [s] and another socket of the
    client closes (one that [disconnect()] or a timed-out attempt left
    closing), the client forgets [s] although [s] is still open: it is
    no longer connected, every pending request is rejected with the
    connection-closed error and the pending table is emptied. *)
Theorem close_of_another_socket_drops_the_connection (c : Client) (s s' : nat)
    (sock : Socket) :
  consistent c ->
  ws c = Some s -> sockets c !! s = Some sock -> readyState sock = OPEN ->
  s' <> s ->
  isConnected c = true
  /\ sockets (on_close s' c) !! s = Some sock
  /\ ws (on_close s' c) = None
  /\ isConnected (on_close s' c) = false
  /\ pendingRequests (on_close s' c) = []
  /\ (forall k pr, In (k, pr) (pendingRequests c) ->
        promises (on_close s' c) !! resolver pr = Some (Rejected ConnectionClosed)).
Proof.
  intros Hc Hws Hs Hopen Hne.
  pose proof (on_close_rest s' c) as (E1 & _ & E3 & _).
  pose proof (on_close_promises s' c) as (Ep & _).
  split; [unfold isConnected; now rewrite Hws, Hs, Hopen|].
  split.
  { rewrite on_close_unfold. cbn [sockets with_pendingRequests].
    destruct (reject_all_rest (pendingRequests c)
                (with_ws None (logDebug LogDisconnected (set_readyState s' CLOSED c))))
      as (_ & _ & _ & _ & E5 & _).
    rewrite E5. cbn [sockets with_ws logDebug].
    rewrite set_readyState_lookup, Hs.
    destruct (Nat.eqb_spec s' s); [contradiction|reflexivity]. }
  split; [exact E1|]. split; [unfold isConnected; now rewrite E1|].
  split; [exact E3|].
  intros k pr Hin. rewrite Ep.
  apply (reject_all_rejects _ _ k); [assumption|]. left.
  eapply pending_unsettled; eauto.
Qed.

Lemma close_of_another_socket_drops_the_connection_witness :
  let c := run [CallConnect; SocketOpen 0; CallDisconnect; CallConnect; SocketOpen 1;
                CallRequest "ping" (Obj []) 30000] new_client in
  consistent c
  /\ isConnected c = true
  /\ isConnected (on_close 0 c) = false
  /\ promises (on_close 0 c) !! 2%nat = Some (Rejected ConnectionClosed).
Proof.
  intros c.
  assert (Hc : consistent c) by apply consistent_run, consistent_new_client.
  destruct (close_of_another_socket_drops_the_connection c 1 0
              {| readyState := OPEN; opener := 1; deadline := 1 |}
              Hc eq_refl eq_refl eq_refl ltac:(discriminate))
    as (H1 & _ & _ & H4 & _ & H6).
  split; [exact Hc|]. split; [exact H1|]. split; [exact H4|].
  apply (H6 "1" {| resolver := 2; timer := 2 |}). simpl. now left.
Defined.

End BridgeClientMore.

(** ** The polling loop *)

Module BridgeLoopFacts.
Import Godot BridgeServer BridgeLoop BridgeServerFacts.

Section Facts.
Context {engine : Engine}.
Variable poll : nat -> Polled.

Lemma accept_accepted incoming peers : accept incoming peers = peers ++ accepted incoming.
Proof.
  revert peers. induction incoming as [|[ws_peer|] incoming IH]; intros peers; simpl.
  - now rewrite app_nil_r.
  - unfold accept in *. simpl. rewrite IH. now rewrite <- app_assoc.
  - unfold accept in *. simpl. apply IH.
Qed.

Lemma drain_run peer data s : drain peer data s = run (map (Packet peer) data) s.
Proof.
  revert s. induction data as [|d data IH]; intros s; [reflexivity|].
  simpl. apply IH.
Qed.

Lemma run_app events1 events2 s : run (events1 ++ events2) s = run events2 (run events1 s).
Proof. unfold run. apply fold_left_app. Qed.

(** The indices the loop collects, from index [i] on. *)
Lemma poll_peers_state i peers to_remove s :
  snd (poll_peers poll i peers to_remove s) = run (dispatched poll peers) s
  /\ exists more,
       fst (poll_peers poll i peers to_remove s) = to_remove ++ more
       /\ forall pre, length pre = i ->
            remove_all more (pre ++ peers) =
            pre ++ List.filter (fun p => negb (is_closed (get_ready_state (poll p)))) peers.
Proof.
  revert i to_remove s. induction peers as [|peer rest IH]; intros i to_remove s.
  - split; [reflexivity|]. exists []. split; [now rewrite app_nil_r|]. reflexivity.
  - cbn [poll_peers dispatched flat_map].
    destruct (get_ready_state (poll peer)) eqn:Hst.
    + destruct (IH (S i) to_remove s) as (Hs & more & Hfst & Hrem).
      split; [exact Hs|]. exists more. split; [exact Hfst|].
      intros pre Hlen. cbn [List.filter]. rewrite Hst. cbn [is_closed negb].
      specialize (Hrem (pre ++ [peer])). rewrite <- !app_assoc in Hrem. apply Hrem.
      rewrite length_app. simpl. lia.
    + destruct (IH (S i) to_remove (drain peer (packets (poll peer)) s))
        as (Hs & more & Hfst & Hrem).
      split.
      { rewrite Hs, drain_run. fold (dispatched poll rest). now rewrite run_app. }
      exists more. split; [exact Hfst|].
      intros pre Hlen. cbn [List.filter]. rewrite Hst. cbn [is_closed negb].
      specialize (Hrem (pre ++ [peer])). rewrite <- !app_assoc in Hrem. apply Hrem.
      rewrite length_app. simpl. lia.
    + destruct (IH (S i) to_remove s) as (Hs & more & Hfst & Hrem).
      split; [exact Hs|]. exists more. split; [exact Hfst|].
      intros pre Hlen. cbn [List.filter]. rewrite Hst. cbn [is_closed negb].
      specialize (Hrem (pre ++ [peer])). rewrite <- !app_assoc in Hrem. apply Hrem.
      rewrite length_app. simpl. lia.
    + destruct (IH (S i) (to_remove ++ [i]) s) as (Hs & more & Hfst & Hrem).
      split; [exact Hs|]. exists (i :: more). split.
      { rewrite Hfst. now rewrite <- app_assoc. }
      intros pre Hlen. cbn [List.filter]. rewrite Hst. cbn [is_closed negb].
      unfold remove_all in *. cbn [rev]. rewrite fold_left_app. cbn [fold_left].
      specialize (Hrem (pre ++ [peer])). rewrite <- !app_assoc in Hrem.
      cbn [app] in Hrem. rewrite Hrem by (rewrite length_app; simpl; lia).
      unfold remove_at.
      subst i. clear. induction pre as [|x pre IHpre]; [reflexivity|].
      simpl. now rewrite IHpre.
Qed.

(** X7. One frame of the server's polling loop. Without a TCP server
    nothing happens. With one, the peers kept are the earlier peers and
    the newly accepted ones, in that order, minus exactly those that
    [poll] left closed (removing the collected indices from the last to
    the first removes the right peers); and the dispatcher has handled
    the packets of the peers that are open, peer after peer and packet
    after packet, and none of a peer that is connecting, closing or
    closed. After [stop_server], which closes every peer and forgets
    them, a frame of the loop changes nothing. *)
Theorem process_keeps_live_peers_and_dispatches_in_order
    (incoming : list (option nat)) (b : Bridge) :
  (_process poll incoming b =
  if _tcp_server b
  then {| _tcp_server := true;
          _peers := List.filter (fun p => negb (is_closed (get_ready_state (poll p))))
                      (_peers b ++ accepted incoming);
          closed := closed b;
          dispatcher := run (dispatched poll (_peers b ++ accepted incoming))
                          (dispatcher b) |}
  else b)
  /\ _process poll incoming (stop_server b) = stop_server b
  /\ closed (stop_server b) = closed b ++ _peers b.
Proof.
  split; [|split; reflexivity].
  unfold _process. destruct (_tcp_server b); [|reflexivity]. cbn [negb].
  rewrite accept_accepted.
  destruct (poll_peers_state 0 (_peers b ++ accepted incoming) [] (dispatcher b))
    as (Hs & more & Hfst & Hrem).
  destruct (poll_peers poll 0 (_peers b ++ accepted incoming) [] (dispatcher b))
    as [to_remove s].
  cbn [fst snd] in *. subst s to_remove. cbn [app].
  specialize (Hrem [] eq_refl). cbn [app] in Hrem. now rewrite Hrem.
Qed.

End Facts.

End BridgeLoopFacts.

(** ** The calls of the dispatcher, one by one *)

Module CallsFacts.
Import Godot BridgeServer Calls BridgeServerFacts.

Section Facts.
Context {engine : Engine}.

Implicit Types (s : Server) (p n g : nat).

Lemma filter_split_length {A} (f : A -> bool) (l : list A) :
  length (List.filter f l) + length (List.filter (fun x => negb (f x)) l) = length l.
Proof.
  induction l as [|a l IH]; simpl; [reflexivity|].
  destruct (f a); simpl; lia.
Qed.

Lemma outcomes_handle_message p parsed s n :
  outcomes n (_handle_message p parsed s) =
  outcomes n s + (if Nat.eqb (calls s) n then 1 else 0).
Proof.
  destruct (handle_message_outcome p parsed s) as (_ & _ & H).
  unfold outcomes, frames_of, suspended_of, failed_of.
  destruct H as [(id & rest & E1 & E2 & E3)|[(id & g & E1 & E2 & E3)|(e & E1 & E2 & E3)]];
    rewrite E1, E2, E3, List.filter_app; cbn [List.filter call awaiting_call fst];
    destruct (Nat.eqb (calls s) n); rewrite length_app; simpl; lia.
Qed.

Lemma outcomes_emit g value s n : outcomes n (emit g value s) = outcomes n s.
Proof.
  unfold outcomes. rewrite frames_of_emit.
  destruct (emit_state g value s) as (_ & E2 & _ & E4 & _).
  unfold suspended_of, failed_of. rewrite E2, E4.
  rewrite length_app, length_map.
  rewrite (filter_filter_comm (fun a => Nat.eqb (awaiting_call a) n)).
  pose proof (filter_split_length (fun a => Nat.eqb (deferred_signal a) g)
                (List.filter (fun a => Nat.eqb (awaiting_call a) n) (suspended s))).
  lia.
Qed.

Lemma run_events_snoc events e s : run (events ++ [e]) s = step e (run events s).
Proof. unfold run. now rewrite fold_left_app. Qed.

Lemma run_cons e events s : run (e :: events) s = run events (step e s).
Proof. reflexivity. Qed.

Lemma calls_step e s : calls (step e s) = calls s + (if e is Packet _ _ then 1 else 0).
Proof.
  destruct e as [p parsed|g value]; cbn [step].
  - destruct (handle_message_outcome p parsed s) as (_ & Hc & _). lia.
  - destruct (emit_state g value s) as (_ & _ & _ & _ & Hc). lia.
Qed.

(** X8. Whatever packets and signals a dispatcher has met since it
    started, every call of [_handle_message] that took place has exactly
    one outcome: it has sent one frame, or it is suspended on a signal,
    or a runtime error ended it. No request is answered twice, and none
    is answered while it still waits. *)
Theorem every_call_has_one_outcome (handlers : list (string * Callable))
    (events : list Event) (n : nat) :
  let s := run events (start handlers) in
  length (frames_of n s) + length (suspended_of n s) + length (failed_of n s)
  = (if n <? calls s then 1 else 0)%nat.
Proof.
  intros s. subst s. fold (outcomes n (run events (start handlers))).
  induction events as [|e events IH] using rev_ind; [reflexivity|].
  rewrite run_events_snoc. set (s := run events (start handlers)) in *.
  destruct e as [p parsed|g value]; cbn [step].
  - rewrite outcomes_handle_message, IH.
    destruct (handle_message_outcome p parsed s) as (_ & Hc & _). rewrite Hc.
    destruct (Nat.eqb_spec (calls s) n) as [<-|Hne].
    + rewrite Nat.ltb_irrefl. now rewrite (proj2 (Nat.ltb_lt _ _)) by lia.
    + destruct (Nat.ltb_spec n (calls s)).
      * now rewrite (proj2 (Nat.ltb_lt _ _)) by lia.
      * now rewrite (proj2 (Nat.ltb_ge _ _)) by lia.
  - rewrite outcomes_emit, IH.
    destruct (emit_state g value s) as (_ & _ & _ & _ & Hc). now rewrite Hc.
Qed.

(** *** Requests that wait for the same signal *)

Lemma capture_suspends p id params s :
  Assoc.get "capture_screenshot" (_handlers s) = Some Handlers.handle ->
  step (capture_request p id params) s =
  suspend {| awaiting_call := calls s; awaiting_peer := p; awaiting_id := id;
             deferred_signal := Handlers.screenshot_ready |} (count_call s).
Proof.
  intros Hh. unfold capture_request. cbn [step].
  destruct (handle_message_registered p s
              [("id", VString id); ("method", VString "capture_screenshot");
               ("params", params)] "capture_screenshot" Handlers.handle
              eq_refl ltac:(discriminate) Hh) as [H _].
  exact (H _ Handlers.screenshot_ready eq_refl eq_refl).
Qed.

Lemma captures_suspend (requests : list (nat * string * Variant)) s :
  Assoc.get "capture_screenshot" (_handlers s) = Some Handlers.handle ->
  let s' := run (map (fun r => capture_request (fst (fst r)) (snd (fst r)) (snd r))
                   requests) s in
  sent s' = sent s
  /\ exists waiting,
       suspended s' = suspended s ++ waiting
       /\ map (fun a => (awaiting_peer a, awaiting_id a)) waiting = map fst requests
       /\ List.filter (fun a => Nat.eqb (deferred_signal a) Handlers.screenshot_ready)
            waiting = waiting.
Proof.
  revert s. induction requests as [|[[p id] params] requests IH]; intros s Hh.
  - simpl. split; [reflexivity|]. exists []. now rewrite app_nil_r.
  - cbn [map fst snd]. rewrite run_cons, (capture_suspends p id params s Hh).
    match goal with |- context [run _ ?x] => specialize (IH x) end.
    cbn [_handlers suspend count_call] in IH. specialize (IH Hh).
    destruct IH as (Hsent & waiting & Hsusp & Hmap & Hfil).
    cbv zeta. rewrite Hsent. split; [reflexivity|].
    eexists (_ :: waiting). rewrite Hsusp. cbn [suspended suspend count_call].
    split; [now rewrite <- app_assoc|].
    split; [cbn [map awaiting_peer awaiting_id]; now rewrite Hmap|].
    cbn [List.filter deferred_signal]. rewrite Nat.eqb_refl. now rewrite Hfil.
Qed.

(** X9. The screenshot handler hands every call the same signal. So
    when several [capture_screenshot] requests are waiting (whatever
    their parameters), the first emission of [screenshot_ready]
    answers all of them, in the order they came, each under its own id
    and to its own peer, with the one value that emission carries; an
    emission that follows answers none of them. *)
Theorem one_emission_answers_every_waiting_capture (s : Server)
    (requests : list (nat * string * Variant)) (value later : Variant) :
  Assoc.get "capture_screenshot" (_handlers s) = Some Handlers.handle ->
  (forall a, In a (suspended s) -> deferred_signal a <> Handlers.screenshot_ready) ->
  let asked := run (map (fun r => capture_request (fst (fst r)) (snd (fst r)) (snd r))
                      requests) s in
  let answered := emit Handlers.screenshot_ready value asked in
  sent asked = sent s
  /\ (exists frames,
        sent answered = sent s ++ frames
        /\ map addressed frames =
           map (fun r => (fst (fst r), result_response (snd (fst r)) value)) requests)
  /\ sent (emit Handlers.screenshot_ready later answered) = sent answered.
Proof.
  intros Hh Hfree asked answered.
  destruct (captures_suspend requests s Hh) as (Hsent & waiting & Hsusp & Hmap & Hfil).
  fold asked in Hsent, Hsusp.
  assert (Hnone : List.filter
                    (fun a => Nat.eqb (deferred_signal a) Handlers.screenshot_ready)
                    (suspended s) = []).
  { apply filter_none. intros a Hin. apply Nat.eqb_neq. now apply Hfree. }
  destruct (emit_state Handlers.screenshot_ready value asked) as (E1 & E2 & _).
  fold answered in E1, E2.
  split; [exact Hsent|]. split.
  - exists (map (resumed value) waiting). split.
    + rewrite E1, Hsent, Hsusp, List.filter_app, Hnone, Hfil. reflexivity.
    + transitivity (map (fun pi : nat * string => (fst pi, result_response (snd pi) value))
                      (map fst requests)).
      * rewrite <- Hmap, !map_map. apply map_ext. reflexivity.
      * rewrite map_map. apply map_ext. reflexivity.
  - destruct (emit_state Handlers.screenshot_ready later answered) as (F1 & _).
    rewrite F1, E2.
    rewrite filter_none; [now rewrite app_nil_r|].
    intros a Hin. apply filter_In in Hin as [_ Hin].
    now apply negb_true_iff in Hin.
Qed.

(** *** The registry *)

Lemma ready_names (capture_screenshot send_input_event send_action get_scene_tree
    get_node_properties set_node_property delete_node set_tiles reparent_node : Callable) :
  Assoc.keys (_ready capture_screenshot send_input_event send_action get_scene_tree
                get_node_properties set_node_property delete_node set_tiles reparent_node)
  = method_names.
Proof. reflexivity. Qed.

(** X10. The registry [_ready] builds holds the ten method names, and
    the dispatcher that runs on it answers [Method not found] (code
    -32601) to a request exactly when its method, a non-empty string, is
    none of the ten. *)
Theorem method_not_found_outside_the_ten_names
    (capture_screenshot send_input_event send_action get_scene_tree get_node_properties
       set_node_property delete_node set_tiles reparent_node : Callable)
    (p : nat) (s : Server) (msg : list (string * Variant)) (method : string) :
  _handlers s = _ready capture_screenshot send_input_event send_action get_scene_tree
                  get_node_properties set_node_property delete_node set_tiles
                  reparent_node ->
  Assoc.get "method" msg = Some (VString method) ->
  method <> "" ->
  Assoc.keys (_handlers s) = method_names
  /\ (sent (_handle_message p (Data (VDictionary msg)) s) =
        sent s ++ [{| peer := p; call := calls s;
                      response := error_response (str (dict_get "id" (VString "0") msg))
                                    (-32601)
                                    (String.append "Method not found: " method) |}]
      <-> ~ In method method_names).
Proof.
  intros Hreg Hm Hne.
  assert (Hkeys : Assoc.keys (_handlers s) = method_names) by (rewrite Hreg; apply ready_names).
  split; [exact Hkeys|]. split.
  - intros Hsent Hin. rewrite <- Hkeys in Hin.
    destruct (Assoc.get method (_handlers s)) as [handler|] eqn:Hget.
    2: { now apply AssocFacts.get_None_not_key in Hget. }
    unfold _handle_message in Hsent.
    assert (Hd : dict_get "method" (VString "") msg = VString method)
      by (unfold dict_get; now rewrite Hm).
    rewrite Hd in Hsent. cbn [typed_String] in Hsent.
    apply String.eqb_neq in Hne. rewrite Hne in Hsent.
    cbn [_handlers count_call] in Hsent. rewrite Hget in Hsent.
    assert (Hno : forall x : Frame, sent s <> sent s ++ [x]).
    { intros x E. apply (f_equal (@length _)) in E. rewrite length_app in E. simpl in E. lia. }
    destruct (handler (dict_get "params" (VDictionary []) msg)) as
      [ | | | | | |fields| | | | | | | | | ];
      try (cbn in Hsent; apply app_inv_head in Hsent; discriminate).
    destruct (Assoc.has "_deferred" fields).
    + destruct (dict_get "_deferred" Nil fields); cbn in Hsent; now apply Hno in Hsent.
    + cbn in Hsent. apply app_inv_head in Hsent. discriminate.
  - intros Hnot. rewrite <- Hkeys in Hnot. apply AssocFacts.not_key_get_None in Hnot.
    now rewrite (handle_message_unknown_method p s msg method Hm Hne Hnot).
Qed.

End Facts.

Lemma one_emission_answers_every_waiting_capture_witness :
  let s := start example_registry in
  let requests := [ (1%nat, "7", VDictionary []);
                    (2%nat, "8", VDictionary [("source", VString "editor")]) ] in
  let value := VDictionary [("image_base64", VString "iVBORw0KGgo=")] in
  let asked := run (engine := example_engine)
                 (map (fun r => capture_request (fst (fst r)) (snd (fst r)) (snd r))
                    requests) s in
  let answered := emit Handlers.screenshot_ready value asked in
  sent asked = sent s
  /\ (exists frames,
        sent answered = sent s ++ frames
        /\ map addressed frames =
           map (fun r => (fst (fst r), result_response (snd (fst r)) value)) requests)
  /\ sent (emit Handlers.screenshot_ready Nil answered) = sent answered.
Proof.
  apply (one_emission_answers_every_waiting_capture (engine := example_engine)).
  - reflexivity.
  - intros a [].
Defined.

Lemma method_not_found_outside_the_ten_names_witness :
  let done := fun _ : Variant => VDictionary [("status", VString "ok")] in
  let s := start example_registry in
  let msg := [("id", VString "5"); ("method", VString "does_not_exist")] in
  Assoc.keys (_handlers s) = method_names
  /\ (sent (_handle_message (engine := example_engine) 0 (Data (VDictionary msg)) s) =
        sent s ++ [{| peer := 0; call := calls s;
                      response := error_response "5" (-32601)
                                    "Method not found: does_not_exist" |}]
      <-> ~ In "does_not_exist" method_names).
Proof.
  intros done s msg.
  apply (method_not_found_outside_the_ten_names (engine := example_engine)
           Handlers.handle done done done done
           (Handlers.set_node_property (engine := example_engine)
              (Some Handlers.example_tree))
           done done done 0 s msg "does_not_exist").
  - reflexivity.
  - reflexivity.
  - discriminate.
Defined.

End CallsFacts.

(** ** The level handler *)

Module LevelHandlerFacts.
Import Godot TypedValues Handlers LevelHandler.

Section Facts.
Context {engine : Engine}.
Variable nodes : Nodes.


Lemma dict_get_found key default (d : list (string * Variant)) v :
  Assoc.get key d = Some v -> dict_get key default d = v.
Proof. intros H. unfold dict_get. now rewrite H. Qed.


(** *** Tiles *)




(** *** The root *)

(** X13. The root addressed as ["/root"], whatever the scene's lookup
    answers for the rest of the path: the delete handler and the
    reparent handler refuse it and touch nothing; the property handler
    assigns to the root; and a node reparented to ["/root"] is moved
    under the root. *)
Theorem root_is_known_by_its_path (tree : SceneTree) (params : list (string * Variant)) :
  (Assoc.get "node_path" params = Some (VString "/root") ->
   handle_delete_node nodes (Some tree) (VDictionary params) =
     ([], Returned (error "Cannot delete root node"))
   /\ (forall new_parent_path,
         Assoc.get "new_parent_path" params = Some (VString new_parent_path) ->
         new_parent_path <> "" ->
         handle_reparent_node nodes (Some tree) (VDictionary params) =
           ([], Returned (error "Cannot reparent root node")))
   /\ (forall property converted,
         Assoc.get "property" params = Some (VString property) ->
         property <> "" ->
         _convert_typed_value (dict_get "value" Nil params) = Ok converted ->
         handle_set_property (Some tree) (VDictionary params) =
           Ok (VDictionary [("status", VString "ok"); ("node", VString "/root");
                            ("property", VString property)],
               Some {| target := root tree; property := property;
                       assigned := converted |})))
  /\ (forall node_path node,
        Assoc.get "node_path" params = Some (VString node_path) ->
        node_path <> "" -> node_path <> "/root" ->
        get_node_or_null tree (trim_prefix "/root" node_path) = Some node ->
        Assoc.get "new_parent_path" params = Some (VString "/root") ->
        handle_reparent_node nodes (Some tree) (VDictionary params) =
          ([Reparent node (root tree)],
           Returned (VDictionary [("status", VString "ok"); ("node", VString node_path);
                                  ("new_parent", VString "/root");
                                  ("new_path",
                                   VString (path_under nodes node (root tree)))]))).
Proof.
  split.
  - intros Hpath. split; [|split].
    + unfold handle_delete_node.
      now rewrite (dict_get_found "node_path" _ params _ Hpath).
    + intros new_parent_path Hnew Hne. unfold handle_reparent_node.
      rewrite (dict_get_found "node_path" _ params _ Hpath),
              (dict_get_found "new_parent_path" _ params _ Hnew).
      cbn [typed_String]. apply String.eqb_neq in Hne. now rewrite Hne.
    + intros property converted Hprop Hne Hconv. unfold handle_set_property.
      rewrite (dict_get_found "node_path" _ params _ Hpath),
              (dict_get_found "property" _ params _ Hprop).
      cbn [typed_String bind]. apply String.eqb_neq in Hne. rewrite Hne.
      cbn [String.eqb Ascii.eqb Bool.eqb orb]. rewrite Hconv. reflexivity.
  - intros node_path node Hpath Hne Hroot Hnode Hnew. unfold handle_reparent_node.
    rewrite (dict_get_found "node_path" _ params _ Hpath),
            (dict_get_found "new_parent_path" _ params _ Hnew).
    cbn [typed_String]. apply String.eqb_neq in Hne, Hroot. rewrite Hne, Hroot, Hnode.
    reflexivity.
Qed.

End Facts.



Lemma root_is_known_by_its_path_witness :
  handle_delete_node example_nodes (Some example_level)
    (VDictionary [("node_path", VString "/root")])
  = ([], Returned (error "Cannot delete root node"))
  /\ handle_reparent_node example_nodes (Some example_level)
       (VDictionary [("node_path", VString "/root/Player");
                     ("new_parent_path", VString "/root")])
     = ([Reparent 1 0],
        Returned (VDictionary [("status", VString "ok"); ("node", VString "/root/Player");
                               ("new_parent", VString "/root");
                               ("new_path", VString "/root/Player")])).
Proof.
  split.
  - destruct (root_is_known_by_its_path (engine := example_engine) example_nodes
                example_level [("node_path", VString "/root")]) as [H _].
    destruct (H eq_refl) as [Hdelete _]. exact Hdelete.
  - destruct (root_is_known_by_its_path (engine := example_engine) example_nodes
                example_level
                [("node_path", VString "/root/Player");
                 ("new_parent_path", VString "/root")]) as [_ H].
    apply (H "/root/Player" 1%nat eq_refl); [discriminate|discriminate|reflexivity|reflexivity].
Defined.

End LevelHandlerFacts.

(** ** Shape names and the two decoders *)

Module ShapesFacts.
Import JS GodotTypes Godot TypedValues Shapes TypedValuesFacts.

Ltac step_result H :=
  match type of H with
  | Ok _ = Ok _ => inversion H; clear H
  | Raise _ = Ok _ => discriminate H
  | bind ?r _ = _ => let E := fresh "E" in destruct r eqn:E; cbn [bind] in H
  | (if ?c then _ else _) = _ => let E := fresh "E" in destruct c eqn:E
  | match ?r with _ => _ end = _ => let E := fresh "E" in destruct r eqn:E
  end.

Lemma Variant_deep_ind (P : Variant -> Prop) :
  (forall entries, (forall k v, In (k, v) entries -> P v) -> P (VDictionary entries)) ->
  (forall v, match v with VDictionary _ => False | _ => True end -> P v) ->
  forall v, P v.
Proof.
  intros Hd Ho. fix IH 1. intros v.
  destruct v; try (apply Ho; exact I).
  apply Hd. revert entries. fix IHl 1. intros [|[k0 v0] rest] k v Hin.
  - destruct Hin.
  - destruct Hin as [E|Hin].
    + injection E as _ <-. apply IH.
    + exact (IHl rest k v Hin).
Qed.

Section Decode.
Context {engine : Engine}.

(** *** The headless decoder and the live one *)

Lemma walk_agree f g entries :
  (forall k v, In (k, v) entries -> forall r, f v = Ok r <-> g v = Ok r) ->
  forall acc r, walk f entries acc = Ok r <-> walk g entries acc = Ok r.
Proof.
  induction entries as [|[k v] rest IH]; intros Hfg acc r; [reflexivity|].
  cbn [walk].
  assert (Hrest : forall k' v', In (k', v') rest ->
                    forall r', f v' = Ok r' <-> g v' = Ok r').
  { intros k' v' Hin. apply (Hfg k' v'). now right. }
  pose proof (Hfg k v (or_introl eq_refl)) as Hv.
  destruct (f v) as [c|e] eqn:Hf.
  - rewrite (proj1 (Hv c) eq_refl). cbn [bind]. now apply IH.
  - destruct (g v) as [c|e'] eqn:Hg.
    + discriminate (proj2 (Hv c) eq_refl).
    + cbn [bind]. split; discriminate.
Qed.

Lemma not_shape_name t :
  isShape2DType (Str t) = false ->
  String.eqb t "RectangleShape2D" = false /\ String.eqb t "CircleShape2D" = false
  /\ String.eqb t "CapsuleShape2D" = false /\ String.eqb t "WorldBoundaryShape2D" = false
  /\ String.eqb t "SegmentShape2D" = false /\ String.eqb t "ConvexPolygonShape2D" = false.
Proof.
  cbn [isShape2DType SHAPE_2D_TYPES existsb]. intros H.
  repeat (apply orb_false_iff in H as [? H]). auto 10.
Qed.

Lemma tagged_agree entries :
  Assoc.has "_type" entries = true ->
  (forall t, Assoc.get "_type" entries = Some (VString t) -> isShape2DType (Str t) = false) ->
  forall r, convert_typed_value (VDictionary entries) = Ok r
            <-> _convert_typed_value (VDictionary entries) = Ok r.
Proof.
  intros Hhas Hfree r. cbn [convert_typed_value _convert_typed_value].
  rewrite Hhas. cbn [negb]. unfold dict_get.
  unfold Assoc.has in Hhas.
  destruct (Assoc.get "_type" entries) as [tag|] eqn:Hget; [|discriminate].
  destruct tag; cbn [typed_String concat bind]; try (split; discriminate).
  destruct (not_shape_name s (Hfree s eq_refl)) as (H1 & H2 & H3 & H4 & H5 & H6).
  rewrite H1, H2, H3, H4, H5, H6.
  repeat match goal with
         | |- context [if String.eqb s ?name then _ else _] =>
             destruct (String.eqb s name); [reflexivity|]
         end.
  destruct (String.eqb s "Resource"); [|reflexivity].
  unfold make_Resource, dict_get.
  destruct (Assoc.get "path" entries) as [[]|]; cbn [to_String typed_String bind];
    try reflexivity; split; discriminate.
Qed.

(** X14. The decoder of the headless script and the decoder of the live
    level handler are two copies of one function, the first with six
    shape branches more. On every value in which they meet no shape
    discriminator they agree: one returns a value exactly when the other
    returns it, and so one ends in a runtime error exactly when the
    other does. *)
Theorem decoders_agree_without_shapes (v : Variant) :
  shape_free v ->
  (forall r, convert_typed_value v = Ok r <-> _convert_typed_value v = Ok r)
  /\ ((exists e, convert_typed_value v = Raise e)
      <-> (exists e, _convert_typed_value v = Raise e)).
Proof.
  intros Hfree.
  assert (H : forall r, convert_typed_value v = Ok r <-> _convert_typed_value v = Ok r).
  { induction Hfree as [entries Hno Hvalues IH|entries Hhas Hshape|v Hv].
    - intros r. rewrite convert_untagged, live_untagged by assumption.
      pose proof (walk_agree convert_typed_value _convert_typed_value entries IH [])
        as Hwalk.
      destruct (walk convert_typed_value entries []) as [out|e] eqn:Hc.
      + rewrite (proj1 (Hwalk out) eq_refl). reflexivity.
      + destruct (walk _convert_typed_value entries []) as [out|e'] eqn:Hl.
        * discriminate (proj2 (Hwalk out) eq_refl).
        * cbn [bind]. split; discriminate.
    - now apply tagged_agree.
    - intros r. destruct v; try reflexivity. contradiction. }
  split; [exact H|].
  destruct (convert_typed_value v) as [r|e] eqn:Hc.
  - rewrite (proj1 (H r) eq_refl). split; intros [e He]; discriminate.
  - destruct (_convert_typed_value v) as [r|e'] eqn:Hl.
    + discriminate (proj2 (H r) eq_refl).
    + split; eauto.
Qed.

(** *** What a decoder returns *)

Lemma set_In {V} k v (l : list (string * V)) k' v' :
  In (k', v') (Assoc.set k v l) -> (k' = k /\ v' = v) \/ In (k', v') l.
Proof.
  induction l as [|[k0 v0] rest IH]; cbn [Assoc.set].
  - intros [E|[]]. inversion E. auto.
  - destruct (String.eqb_spec k k0) as [->|Hne].
    + intros [E|Hin]; [inversion E; auto|right; now right].
    + intros [E|Hin]; [right; now left|].
      destruct (IH Hin) as [?|?]; [auto|right; now right].
Qed.

Lemma set_keys {V} k v (l : list (string * V)) :
  Assoc.keys (Assoc.set k v l) = Assoc.keys l
  \/ (~ In k (Assoc.keys l) /\ Assoc.keys (Assoc.set k v l) = Assoc.keys l ++ [k]).
Proof.
  induction l as [|[k0 v0] rest IH]; cbn [Assoc.set].
  - right. split; [intros []|reflexivity].
  - destruct (String.eqb_spec k k0) as [->|Hne]; [now left|].
    unfold Assoc.keys in *. cbn [map fst].
    destruct IH as [E|[Hnot E]]; [left; now rewrite E|right].
    split; [intros [?|?]; [congruence|contradiction]|now rewrite E].
Qed.

Lemma NoDup_snoc_fresh {A} (l : list A) x : List.NoDup l -> ~ In x l -> List.NoDup (l ++ [x]).
Proof.
  intros Hnd Hnot. induction Hnd as [|a l Ha Hnd IH]; cbn [app].
  - constructor; [intros []|constructor].
  - constructor.
    + intros Hin. apply in_app_iff in Hin as [Hin|[E|[]]]; [contradiction|].
      apply Hnot. now left.
    + apply IH. intros Hin. apply Hnot. now right.
Qed.

(** The mapping the loop over an untagged mapping builds. *)
Lemma walk_result f entries acc out :
  walk f entries acc = Ok out ->
  (List.NoDup (Assoc.keys acc) -> List.NoDup (Assoc.keys out))
  /\ (forall k, In k (Assoc.keys out) -> In k (Assoc.keys acc) \/ In k (Assoc.keys entries))
  /\ (forall k c, In (k, c) out ->
        In (k, c) acc \/ exists v, In (k, v) entries /\ f v = Ok c).
Proof.
  revert acc. induction entries as [|[k v] rest IH]; intros acc H; cbn [walk] in H.
  - inversion H; subst. split; [auto|]. split; [auto|]. auto.
  - destruct (f v) as [c|e] eqn:Hf; cbn [bind] in H; [|discriminate].
    destruct (IH _ H) as (Hnd & Hkeys & Hvals). split; [|split].
    + intros Hacc. apply Hnd.
      destruct (set_keys k c acc) as [E|[Hnot E]]; rewrite E; [assumption|].
      now apply NoDup_snoc_fresh.
    + intros k' Hin. destruct (Hkeys k' Hin) as [Hin'|Hin'].
      * destruct (set_keys k c acc) as [E|[Hnot E]]; rewrite E in Hin'; [now left|].
        apply in_app_iff in Hin' as [?|[<-|[]]]; [now left|right; now left].
      * right. now right.
    + intros k' c' Hin. destruct (Hvals k' c' Hin) as [Hin'|(v' & Hin' & Hv')].
      * apply set_In in Hin' as [[-> ->]|Hin']; [|now left].
        right. exists v. split; [now left|assumption].
      * right. exists v'. split; [now right|assumption].
Qed.

Lemma has_false_not_key {V} key (l : list (string * V)) :
  Assoc.has key l = false <-> ~ In key (Assoc.keys l).
Proof.
  unfold Assoc.has. split.
  - intros H. apply AssocFacts.get_None_not_key. now destruct (Assoc.get key l).
  - intros H. now rewrite (AssocFacts.not_key_get_None _ _ H).
Qed.

(** A tagged mapping decodes to itself or to a value that is no
    mapping. *)
Lemma tagged_result decode entries r :
  decode = convert_typed_value \/ decode = _convert_typed_value ->
  Assoc.has "_type" entries = true ->
  decode (VDictionary entries) = Ok r ->
  r = VDictionary entries \/ match r with VDictionary _ => False | _ => True end.
Proof.
  intros Hd Hhas H.
  destruct Hd as [-> | ->]; cbn [convert_typed_value _convert_typed_value] in H;
    rewrite Hhas in H; cbn [negb] in H;
    destruct (dict_get "_type" _ entries) as [ | | | |t| | | | | | | | | | | ];
    cbn [typed_String concat bind] in H; try discriminate;
    unfold make_Vector2, make_Vector2i, make_Vector3, make_Vector3i, make_Color,
      make_Rect2, make_NodePath, make_Resource, when_present, load in H;
    repeat step_result H; subst; cbn; auto.
Qed.

(** X15. Decoding is idempotent, for each of the two decoders: a value
    a decoder returns is decoded to itself, so decoding twice gives what
    decoding once gives. *)
Theorem decoded_value_is_a_fixed_point (decode : Variant -> Result Variant)
    (v r : Variant) :
  decode = convert_typed_value \/ decode = _convert_typed_value ->
  decode v = Ok r ->
  decode r = Ok r.
Proof.
  intros Hd. revert r. induction v as [entries IH|v Hv] using Variant_deep_ind; intros r H.
  - destruct (Assoc.has "_type" entries) eqn:Hhas.
    + destruct (tagged_result decode entries r Hd Hhas H) as [->|Hr]; [exact H|].
      destruct r; try contradiction; destruct Hd as [-> | ->]; reflexivity.
    + assert (Hun : forall es, Assoc.has "_type" es = false ->
                decode (VDictionary es) =
                (let* result := walk decode es [] in Ok (VDictionary result))).
      { intros es Hes.
        destruct Hd as [-> | ->]; [now apply convert_untagged|now apply live_untagged]. }
      rewrite (Hun entries Hhas) in H.
      destruct (walk decode entries []) as [out|e] eqn:Hwalk; cbn [bind] in H;
        [|discriminate].
      inversion H; subst r; clear H.
      destruct (walk_result decode entries [] out Hwalk) as (Hnd & Hkeys & Hvals).
      assert (Hout : Assoc.has "_type" out = false).
      { apply has_false_not_key. intros Hin.
        destruct (Hkeys _ Hin) as [[]|Hin'].
        now apply has_false_not_key in Hhas. }
      rewrite (Hun out Hout).
      rewrite (walk_identity decode out); [reflexivity|apply Hnd; constructor|].
      intros k c Hin. destruct (Hvals k c Hin) as [[]|(v' & Hin' & Hv')].
      exact (IH k v' Hin' c Hv').
  - assert (r = v) as ->.
    { destruct v; try contradiction; destruct Hd as [-> | ->];
        cbn in H; now inversion H. }
    exact H.
Qed.

(** *** The shape names *)

(** X16. The controller's list of shape names says what the target
    does with them. Each is a known type name; it is a discriminator of
    the headless decoder and none of the live one. A mapping tagged with
    a shape name is decoded by the headless decoder to a shape whenever
    it is decoded, and is left as it is by the live decoder; and the
    headless decoder returns a shape only for a mapping tagged with a
    shape name. *)
Theorem shape_names_are_what_the_headless_decoder_builds :
  (forall type, isShape2DType type = true ->
     exists t, type = Str t
               /\ Set_has t KNOWN_TYPES = true
               /\ In t headless_types /\ ~ In t live_types)
  /\ (forall entries t,
        Assoc.get "_type" entries = Some (VString t) ->
        (isShape2DType (Str t) = true ->
         _convert_typed_value (VDictionary entries) = Ok (VDictionary entries)
         /\ forall r, convert_typed_value (VDictionary entries) = Ok r ->
                      exists o, r = VObject o /\ is_shape o = true)
        /\ (forall o, convert_typed_value (VDictionary entries) = Ok (VObject o) ->
                      is_shape o = true -> isShape2DType (Str t) = true)).
Proof.
  split.
  - intros [ | | | |t| | ] H; try discriminate. exists t. split; [reflexivity|].
    cbn [isShape2DType SHAPE_2D_TYPES existsb] in H.
    repeat (apply orb_true_iff in H as [H|H];
            [apply String.eqb_eq in H; subst t;
             split; [reflexivity|split; [cbn; tauto|]];
             intros Hin; cbn in Hin; intuition discriminate|]).
    discriminate.
  - intros entries t Hget. split.
    + intros Hshape. split.
      * apply (live_unknown entries t Hget).
        cbn [isShape2DType SHAPE_2D_TYPES existsb] in Hshape.
        repeat (apply orb_true_iff in Hshape as [Hshape|Hshape];
                [apply String.eqb_eq in Hshape; subst t;
                 intros Hin; cbn in Hin; intuition discriminate|]).
        discriminate.
      * intros r H. cbn [convert_typed_value] in H.
        rewrite (has_get _ _ _ Hget) in H. cbn [negb] in H.
        unfold dict_get in H at 1. rewrite Hget in H.
        cbn [isShape2DType SHAPE_2D_TYPES existsb] in Hshape.
        repeat (apply orb_true_iff in Hshape as [Hshape|Hshape];
                [apply String.eqb_eq in Hshape; subst t;
                 cbn [String.eqb Ascii.eqb Bool.eqb] in H;
                 repeat step_result H; subst; eauto|]).
        discriminate.
    + intros o H Ho.
      destruct (isShape2DType (Str t)) eqn:Hshape; [reflexivity|exfalso].
      destruct (not_shape_name t Hshape) as (H1 & H2 & H3 & H4 & H5 & H6).
      cbn [convert_typed_value] in H.
      rewrite (has_get _ _ _ Hget) in H. cbn [negb] in H.
      unfold dict_get in H at 1. rewrite Hget in H.
      rewrite H1, H2, H3, H4, H5, H6 in H.
      unfold make_Vector2, make_Vector2i, make_Vector3, make_Vector3i, make_Color,
        make_Rect2, make_NodePath, make_Resource, load in H.
      repeat step_result H; subst; discriminate.
Qed.

End Decode.

Lemma decoders_agree_without_shapes_witness :
  let v := VDictionary [("position", VDictionary [("_type", VString "Vector2");
                                                  ("x", VFloat 3)]);
                        ("icon", VDictionary [("_type", VString "Resource");
                                              ("path", VString "res://icon.svg")])] in
  let r := VDictionary [("position", VVector2 3 0);
                        ("icon", VObject (Resource "res://icon.svg"))] in
  convert_typed_value (engine := example_engine) v = Ok r
  <-> _convert_typed_value (engine := example_engine) v = Ok r.
Proof.
  intros v r.
  apply (decoders_agree_without_shapes (engine := example_engine) v).
  apply shape_free_mapping; [reflexivity|].
  intros k x [E|[E|[]]]; inversion E; subst;
    (apply shape_free_tagged; [reflexivity|]);
    intros t Ht; inversion Ht; reflexivity.
Defined.

Lemma decoded_value_is_a_fixed_point_witness :
  let v := VDictionary [("tint", VDictionary [("_type", VString "Color"); ("r", VInt 1)]);
                        ("note", VDictionary [("_type", VString "Quaternion")])] in
  let r := VDictionary [("tint", VColor 1 0 0 1);
                        ("note", VDictionary [("_type", VString "Quaternion")])] in
  _convert_typed_value (engine := example_engine) v = Ok r
  /\ _convert_typed_value (engine := example_engine) r = Ok r.
Proof.
  intros v r. split; [reflexivity|].
  apply (decoded_value_is_a_fixed_point (engine := example_engine) _convert_typed_value v r);
    [now right|reflexivity].
Defined.

Lemma shape_names_are_what_the_headless_decoder_builds_witness :
  let entries := [("_type", VString "CircleShape2D"); ("radius", VFloat 16)] in
  _convert_typed_value (engine := example_engine) (VDictionary entries)
  = Ok (VDictionary entries)
  /\ exists o, convert_typed_value (engine := example_engine) (VDictionary entries)
               = Ok (VObject o) /\ is_shape o = true.
Proof.
  intros entries.
  destruct (shape_names_are_what_the_headless_decoder_builds (engine := example_engine))
    as [_ H].
  destruct (H entries "CircleShape2D" eq_refl) as [Hshape _].
  destruct (Hshape eq_refl) as [Hlive Hheadless]. split; [exact Hlive|].
  destruct (Hheadless _ eq_refl) as (o & Ho & Hs).
  exists o. split; [now rewrite <- Ho|exact Hs].
Defined.

End ShapesFacts.

(** ** Parameter naming on whole objects *)

Module NamingFacts.
Import JS Parameters Naming ParametersFacts.


(** The two converters on an object, as one loop over its properties. *)
Lemma normalizeParameters_object props :
  normalizeParameters (Obj props) =
  Obj (fold_left (fun result '(key, v) =>
                    Assoc.set (normalizedKey key) (nested normalizeParameters v) result)
                 props []).
Proof.
  cbn [normalizeParameters]. f_equal.
  generalize (@nil (string * Value)).
  induction props as [|[k v] rest IH]; intros acc; [reflexivity|].
  cbn [fold_left]. rewrite <- IH. destruct v; reflexivity.
Qed.



(** *** The loop that writes a renamed object *)

Section Loop.
Variables (rename : string -> string) (value : Value -> Value).


Lemma loop_get props key :
  forall acc found,
    Assoc.get key acc = option_map value found ->
    Assoc.get key (fold_left (fun result '(key, v) => Assoc.set (rename key) (value v) result)
                     props acc) =
    option_map value
      (fold_left (fun found '(k, v) => if String.eqb (rename k) key then Some v else found)
                 props found).
Proof.
  induction props as [|[k v] rest IH]; intros acc found Hacc; [exact Hacc|].
  cbn [fold_left]. apply IH.
  destruct (String.eqb_spec (rename k) key) as [<-|Hne].
  - apply AssocFacts.get_set_eq.
  - now rewrite AssocFacts.get_set_ne.
Qed.


End Loop.

(** *** Keys on the wire *)





(** *** There and back *)







End NamingFacts.

(** ** Connection attempts that fail *)

Module BridgeClientAttempts.
Import JS BridgeClient BridgeClientFacts BridgeClientMore.

Implicit Types (c : Client) (p q t s : nat).

Lemma retry_opens_a_socket c :
  isConnected c = false -> connectPromise c = None ->
  fst (connect c) = Attempt (length (promises c))
  /\ length (sockets (snd (connect c))) = S (length (sockets c))
  /\ connectPromise (snd (connect c)) = Some (length (promises c)).
Proof.
  intros Hcon Hcp. rewrite (connect_state c Hcon Hcp). cbn.
  rewrite length_app. cbn. split; [reflexivity|]. split; [lia|reflexivity].
Qed.

(** X20. A connection attempt that fails is forgotten, so the next call
    of [connect()] starts a new one. When the socket of the current
    attempt reports an error, the attempt's promise is rejected with the
    cannot-connect error, its timeout is disarmed (firing it later
    changes nothing), [connectPromise] is cleared and the client is not
    connected; the pending table is left as it is. When instead the
    attempt's timeout fires on a client that is not connected, the
    promise is rejected with the timed-out error, the socket, if it was
    still connecting, is closing, and [connectPromise] is cleared. After
    either, [connect()] creates a new promise and a new socket. *)
Theorem failed_attempt_is_forgotten (c : Client) (s : nat) (sock : Socket) :
  consistent c ->
  sockets c !! s = Some sock ->
  connectPromise c = Some (opener sock) ->
  (let c' := on_error s c in
   promises c' !! opener sock = Some (Rejected CannotConnect)
   /\ connectPromise c' = None
   /\ isConnected c' = false
   /\ pendingRequests c' = pendingRequests c
   /\ timers c' !! deadline sock = Some None
   /\ on_timer (deadline sock) c' = c'
   /\ fst (connect c') = Attempt (length (promises c))
   /\ length (sockets (snd (connect c'))) = S (length (sockets c)))
  /\ (forall t,
        timers c !! t = Some (Some (ConnectTimer s (opener sock))) ->
        isConnected c = false ->
        let c' := on_timer t c in
        promises c' !! opener sock = Some (Rejected ConnectTimedOut)
        /\ connectPromise c' = None
        /\ isConnected c' = false
        /\ pendingRequests c' = pendingRequests c
        /\ (readyState sock = CONNECTING ->
            exists sock', sockets c' !! s = Some sock' /\ readyState sock' = CLOSING)
        /\ fst (connect c') = Attempt (length (promises c))
        /\ length (sockets (snd (connect c'))) = S (length (sockets c))).
Proof.
  intros Hc Hs Hcp.
  destruct (attempt_open c Hc _ Hcp) as [Hun _].
  split.
  - intros c'. subst c'. unfold on_error. rewrite Hs.
    set (c3 := with_ws None (logDebug LogConnectionError (clearTimeout (deadline sock) c))).
    assert (Hp3 : promises c3 !! opener sock = Some Unsettled) by exact Hun.
    rewrite (settle_connect_unsettled _ _ c3 Hp3).
    pose proof (settle_rest (opener sock) (Rejected CannotConnect) c3)
      as (E1 & E2 & E3 & E4 & E5 & E6 & E7 & E8).
    set (c4 := settle (opener sock) (Rejected CannotConnect) c3) in *.
    assert (Hcon : isConnected (with_connectPromise None c4) = false).
    { unfold isConnected. cbn [ws with_connectPromise]. now rewrite E1. }
    assert (Ht : timers (with_connectPromise None c4) !! deadline sock = Some None).
    { cbn [timers with_connectPromise]. rewrite E6.
      cbn [c3 timers with_ws logDebug clearTimeout with_timers].
      destruct (deadline_connect c Hc s sock Hs) as (job & Hj & _).
      apply list_lookup_insert_eq. eapply lookup_lt_Some; eauto. }
    destruct (retry_opens_a_socket (with_connectPromise None c4) Hcon eq_refl)
      as (R1 & R2 & _).
    cbn [promises sockets with_connectPromise] in R1, R2.
    assert (Hlen : length (promises c4) = length (promises c))
      by (unfold c4; now rewrite settle_length).
    split; [cbn [promises with_connectPromise]; now apply settle_lookup_eq|].
    split; [reflexivity|]. split; [exact Hcon|].
    split; [cbn [pendingRequests with_connectPromise]; now rewrite E3|].
    split; [exact Ht|].
    split; [unfold on_timer; now rewrite Ht|].
    split; [now rewrite R1, Hlen|].
    now rewrite R2, E5.
  - intros t Ht Hcon c'. subst c'. unfold on_timer. rewrite Ht.
    set (c2 := ws_close s (clearTimeout t c)).
    pose proof (ws_close_rest s (clearTimeout t c))
      as (W1 & W2 & W3 & W4 & W5 & W6 & W7 & W8).
    fold c2 in W1, W2, W3, W4, W5, W6, W7, W8.
    assert (Hp2 : promises c2 !! opener sock = Some Unsettled) by (now rewrite W5).
    rewrite (settle_connect_unsettled _ _ c2 Hp2).
    pose proof (settle_rest (opener sock) (Rejected ConnectTimedOut) c2)
      as (E1 & E2 & E3 & E4 & E5 & E6 & E7 & E8).
    set (c4 := settle (opener sock) (Rejected ConnectTimedOut) c2) in *.
    assert (Hcon' : isConnected (with_connectPromise None c4) = false).
    { apply (stays_disconnected c); [cbn [ws with_connectPromise]; now rewrite E1, W1| |exact Hcon].
      intros i sock' Hi Hopen. cbn [sockets with_connectPromise] in Hi. rewrite E5 in Hi.
      apply ws_close_lookup in Hi as (sock0 & Hi0 & [->|[_ Hclosing]]).
      - eauto.
      - rewrite Hclosing in Hopen. discriminate. }
    destruct (retry_opens_a_socket (with_connectPromise None c4) Hcon' eq_refl)
      as (R1 & R2 & _).
    cbn [promises sockets with_connectPromise] in R1, R2.
    assert (Hlen : length (promises c4) = length (promises c)).
    { unfold c4. rewrite settle_length. now rewrite W5. }
    assert (Hslen : length (sockets c2) = length (sockets c)).
    { unfold c2, ws_close. cbn [sockets clearTimeout with_timers]. rewrite Hs.
      destruct (readyState sock); try reflexivity;
        unfold set_readyState; cbn [sockets clearTimeout with_timers]; rewrite Hs;
        cbn [sockets with_sockets]; apply length_insert. }
    split; [cbn [promises with_connectPromise]; now apply settle_lookup_eq|].
    split; [reflexivity|]. split; [exact Hcon'|].
    split; [cbn [pendingRequests with_connectPromise]; now rewrite E3, W3|].
    split.
    { intros Hr. cbn [sockets with_connectPromise]. rewrite E5.
      unfold c2, ws_close. cbn [sockets clearTimeout with_timers]. rewrite Hs, Hr.
      rewrite set_readyState_lookup. cbn [sockets clearTimeout with_timers].
      rewrite Hs, Nat.eqb_refl.
      eexists. split; reflexivity. }
    split; [now rewrite R1, Hlen|].
    now rewrite R2, E5, Hslen.
Qed.

Lemma failed_attempt_is_forgotten_witness :
  let c := run [CallConnect] new_client in
  promises (on_error 0 c) !! 0%nat = Some (Rejected CannotConnect)
  /\ connectPromise (on_error 0 c) = None
  /\ fst (connect (on_error 0 c)) = Attempt 1
  /\ promises (on_timer 0 c) !! 0%nat = Some (Rejected ConnectTimedOut)
  /\ fst (connect (on_timer 0 c)) = Attempt 1.
Proof.
  intros c.
  assert (Hc : consistent c) by apply consistent_run, consistent_new_client.
  destruct (failed_attempt_is_forgotten c 0
              {| readyState := CONNECTING; opener := 0; deadline := 0 |}
              Hc eq_refl eq_refl) as [Herror Htimer].
  destruct Herror as (H1 & H2 & _ & _ & _ & _ & H7 & _).
  destruct (Htimer 0%nat eq_refl eq_refl) as (T1 & _ & _ & _ & _ & T6 & _).
  exact (conj H1 (conj H2 (conj H7 (conj T1 T6)))).
Defined.

End BridgeClientAttempts.

(** ** The live tools of the controller *)

Module LiveToolsFacts.
Import JS Parameters Naming BridgeClient BridgeClientFacts LiveTools ParametersFacts NamingFacts.

Section Facts.
Variable JSON_stringify : Value -> Value.
Variable Error_message : Failure -> string.
Variable template : list Value -> Value.
Variable Buffer_length : Value -> Value.

(** X21. A failure that a handler of the target reports in its result,
    as [{error: message}], reaches the caller of a live tool as an
    ordinary text response. The client resolves the request with that
    mapping; each of the four live level tools then answers with the
    mapping as text and without [isError], while the screenshot tool
    answers with an error that does not carry the handler's message. An
    error response of the dispatcher for the same request rejects the
    promise instead, and the tools answer with [isError]. *)
Theorem handler_failure_reaches_the_caller_as_text
    (c : Client) (id : string) (pending : PendingRequest) (message : string)
    (tool : Value -> Called) (rawArgs : Value)
    (method : string) (params : Value) (settled : Promise -> option ToolResponse) :
  consistent c ->
  Assoc.get id (pendingRequests c) = Some pending ->
  In tool [ set_node_property JSON_stringify Error_message;
            delete_node_live JSON_stringify Error_message;
            set_tiles_live JSON_stringify Error_message;
            reparent_node_live JSON_stringify Error_message ] ->
  tool rawArgs = Requests method params settled ->
  let failure := Obj [("error", Str message)] in
  (let c' := on_message (Some (Obj [("id", Str id); ("result", failure)])) c in
   promises c' !! resolver pending = Some (Fulfilled failure)
   /\ settled (Fulfilled failure) = Some (createTextResponse (JSON_stringify failure))
   /\ forall args,
        capture_settled Error_message template Buffer_length args (Fulfilled failure)
        = Some (createErrorResponse "No screenshot data received from the engine" [],
                None))
  /\ (forall code,
        let c' := on_message
                    (Some (Obj [("id", Str id);
                                ("error", Obj [("code", code); ("message", Str message)])]))
                    c in
        promises c' !! resolver pending = Some (Rejected (BridgeError (Str message)))
        /\ (exists response,
              settled (Rejected (BridgeError (Str message))) = Some response
              /\ isError response = true)
        /\ exists response,
             capture_settled Error_message template Buffer_length Undefined
               (Rejected (BridgeError (Str message))) = Some (response, None)
             /\ isError response = true).
Proof.
  intros Hc Hget Htool Hcall failure.
  assert (Hsettled : exists prefix, settled = text_or_failure JSON_stringify Error_message prefix).
  { destruct Htool as [<-|[<-|[<-|[<-|[]]]]];
      [unfold set_node_property in Hcall|unfold delete_node_live in Hcall
      |unfold set_tiles_live in Hcall|unfold reparent_node_live in Hcall];
      match type of Hcall with
      | (if ?b then _ else _) = _ => destruct b; [discriminate|]
      end; inversion Hcall; eauto. }
  destruct Hsettled as [prefix ->].
  split.
  - destruct (on_message_answers c (Obj [("id", Str id); ("result", failure)]) id pending
                Hc eq_refl Hget) as (_ & _ & H3 & _).
    split; [exact H3|]. split; reflexivity.
  - intros code.
    destruct (on_message_answers c
                (Obj [("id", Str id);
                      ("error", Obj [("code", code); ("message", Str message)])])
                id pending Hc eq_refl Hget) as (_ & _ & H3 & _).
    split; [exact H3|]. split; eexists; split; reflexivity.
Qed.

(** *** The spelling of the arguments *)

Lemma arguments_object props key :
  prop (arguments (Obj props)) key =
  match last_under normalizedKey key props with
  | Some v => nested normalizeParameters v
  | None => Undefined
  end.
Proof.
  unfold arguments. cbn [truthy].
  rewrite normalizeParameters_object. cbn [prop].
  rewrite (loop_get normalizedKey (nested normalizeParameters) props key [] None eq_refl).
  fold (last_under normalizedKey key props).
  now destruct (last_under normalizedKey key props).
Qed.

Lemma last_under_none rename key (props : list (string * Value)) :
  (forall k v, In (k, v) props -> rename k <> key) ->
  last_under rename key props = None.
Proof.
  intros Hnone. unfold last_under. generalize (@None Value) as found.
  induction props as [|[k v] rest IH]; intros found; [reflexivity|].
  cbn [fold_left].
  destruct (String.eqb_spec (rename k) key) as [E|_].
  - exfalso. exact (Hnone k v (or_introl eq_refl) E).
  - rewrite IH; [|intros k' v' Hin; apply (Hnone k' v'); now right].
    reflexivity.
Qed.

Lemma normalizedKey_newParentPath key :
  normalizedKey key = "newParentPath" -> key = "newParentPath".
Proof.
  unfold normalizedKey. destruct (includes_underscore key); [|auto].
  destruct (lookup_truthy parameterMappings key) as [camel|] eqn:E; [|auto].
  apply lookup_truthy_In in E. intros ->. exfalso.
  cbn in E. repeat (destruct E as [E|E]; [discriminate|]). exact E.
Qed.

(** X22. Which spelling of an argument a live tool reads. The delete
    tool sends as [node_path] the value of the last of the keys
    [node_path] and [nodePath] of its arguments, so either spelling
    works; with neither, or with a falsy value, it answers
    [nodePath is required] and sends nothing. The reparent tool reads
    its second argument only as [newParentPath]: when the arguments have
    no key of that name, even if they have [new_parent_path], it answers
    [nodePath and newParentPath are required] and sends nothing. *)
Theorem tools_read_the_normalized_spelling (props : list (string * Value)) :
  (forall v,
     last_under normalizedKey "nodePath" props = Some v ->
     truthy (nested normalizeParameters v) = true ->
     delete_node_live JSON_stringify Error_message (Obj props) =
     Requests "delete_node" (Obj [("node_path", nested normalizeParameters v)])
       (text_or_failure JSON_stringify Error_message "Failed to delete node: "))
  /\ (last_under normalizedKey "nodePath" props = None ->
      delete_node_live JSON_stringify Error_message (Obj props) =
      Answered (createErrorResponse "nodePath is required" []))
  /\ ((forall k v, In (k, v) props -> k <> "newParentPath") ->
      reparent_node_live JSON_stringify Error_message (Obj props) =
      Answered (createErrorResponse "nodePath and newParentPath are required" [])).
Proof.
  split; [|split].
  - intros v Hlast Htruthy. unfold delete_node_live.
    rewrite arguments_object, Hlast, Htruthy. reflexivity.
  - intros Hlast. unfold delete_node_live. rewrite arguments_object, Hlast. reflexivity.
  - intros Hnone. unfold reparent_node_live.
    rewrite (arguments_object props "newParentPath").
    rewrite (last_under_none normalizedKey "newParentPath" props).
    + cbn [truthy negb]. now rewrite orb_true_r.
    + intros k v Hin E. apply (Hnone k v Hin). now apply normalizedKey_newParentPath.
Qed.

End Facts.

Lemma handler_failure_reaches_the_caller_as_text_witness :
  let c := run [CallConnect; SocketOpen 0; CallRequest "delete_node" (Obj []) 30000]
               new_client in
  let failure := Obj [("error", Str "Node not found: /root/Enemy")] in
  let c' := on_message (Some (Obj [("id", Str "1"); ("result", failure)])) c in
  promises c' !! 1%nat = Some (Fulfilled failure)
  /\ text_or_failure example_stringify example_message "Failed to delete node: "
       (Fulfilled failure)
     = Some {| content := [TextContent (Str "<json>")]; isError := false |}.
Proof.
  intros c failure c'.
  assert (Hc : consistent c) by apply consistent_run, consistent_new_client.
  destruct (handler_failure_reaches_the_caller_as_text example_stringify example_message
              (fun _ => Undefined) (fun _ => Undefined)
              c "1" {| resolver := 1; timer := 1 |} "Node not found: /root/Enemy"
              (delete_node_live example_stringify example_message)
              (Obj [("node_path", Str "/root/Enemy")])
              "delete_node" (Obj [("node_path", Str "/root/Enemy")])
              (text_or_failure example_stringify example_message "Failed to delete node: ")
              Hc eq_refl ltac:(right; left; reflexivity) eq_refl)
    as [(H1 & H2 & _) _].
  split; [exact H1|exact H2].
Defined.

Lemma tools_read_the_normalized_spelling_witness :
  delete_node_live example_stringify example_message
    (Obj [("node_path", Str "/root/Enemy")])
  = Requests "delete_node" (Obj [("node_path", Str "/root/Enemy")])
      (text_or_failure example_stringify example_message "Failed to delete node: ")
  /\ reparent_node_live example_stringify example_message
       (Obj [("node_path", Str "/root/Enemy"); ("new_parent_path", Str "/root")])
     = Answered (createErrorResponse "nodePath and newParentPath are required" []).
Proof.
  split.
  - destruct (tools_read_the_normalized_spelling example_stringify example_message
                [("node_path", Str "/root/Enemy")]) as [H _].
    exact (H (Str "/root/Enemy") eq_refl eq_refl).
  - destruct (tools_read_the_normalized_spelling example_stringify example_message
                [("node_path", Str "/root/Enemy"); ("new_parent_path", Str "/root")])
      as (_ & _ & H).
    apply H. intros k v [E|[E|[]]]; inversion E; discriminate.
Defined.

End LiveToolsFacts.

(** ** Typed-value helpers of the controller, once more *)

Module GodotTypesFacts.
Import JS GodotTypes.

(** X23. The three helpers fit together. A value is a typed value
    exactly when it is a plain object whose [_type] is one of the known
    type names. No value is both a typed value and a candidate for
    auto-detection, so a typed value is never wrapped again; what
    auto-detection wraps is a typed value afterwards; and detecting
    twice is detecting once. *)
Theorem auto_detection_is_idempotent (value : Value) :
  (isTypedValue value = true <->
   exists props t, value = Obj props
                   /\ Assoc.get "_type" props = Some (Str t) /\ In t KNOWN_TYPES)
  /\ (isTypedValue value = true ->
      looksLikeVector2 value = false /\ autoDetectVector2 value = value)
  /\ (looksLikeVector2 value = true -> isTypedValue (autoDetectVector2 value) = true)
  /\ autoDetectVector2 (autoDetectVector2 value) = autoDetectVector2 value.
Proof.
  assert (Htyped : isTypedValue value = true ->
            exists props t, value = Obj props
                            /\ Assoc.get "_type" props = Some (Str t)
                            /\ Set_has t KNOWN_TYPES = true).
  { unfold isTypedValue. destruct value; cbn; try discriminate.
    destruct (Assoc.get "_type" props) as [[]|] eqn:Hget; cbn; try discriminate.
    intros H. exists props, s. split; [reflexivity|]. split; [exact Hget|exact H]. }
  assert (Hknown : forall t, Set_has t KNOWN_TYPES = true <-> In t KNOWN_TYPES).
  { intros t. unfold Set_has. rewrite existsb_exists. split.
    - intros (x & Hin & Hx). apply String.eqb_eq in Hx. now subst.
    - intros Hin. exists t. split; [assumption|apply String.eqb_refl]. }
  split; [|split; [|split]].
  - split.
    + intros H. destruct (Htyped H) as (props & t & -> & Hget & Hset).
      exists props, t. split; [reflexivity|]. split; [assumption|now apply Hknown].
    + intros (props & t & -> & Hget & Hin). unfold isTypedValue. cbn.
      rewrite Hget. cbn. now apply Hknown.
  - intros H. destruct (Htyped H) as (props & t & -> & Hget & _).
    assert (Hl : looksLikeVector2 (Obj props) = false).
    { unfold looksLikeVector2. cbn [has_in]. unfold Assoc.has. rewrite Hget.
      cbn [negb]. now rewrite andb_false_r. }
    split; [exact Hl|]. unfold autoDetectVector2. now rewrite Hl.
  - intros H. unfold autoDetectVector2. rewrite H. reflexivity.
  - assert (Hwrapped : forall rest,
              looksLikeVector2 (Obj (("_type", Str "Vector2") :: rest)) = false).
    { intros rest. unfold looksLikeVector2. cbn [has_in]. unfold Assoc.has.
      cbn [Assoc.get String.eqb Ascii.eqb Bool.eqb negb]. apply andb_false_r. }
    unfold autoDetectVector2 at 2 3.
    destruct (looksLikeVector2 value) eqn:Hl.
    + unfold autoDetectVector2. now rewrite Hwrapped.
    + unfold autoDetectVector2. now rewrite Hl.
Qed.

Lemma auto_detection_is_idempotent_witness :
  isTypedValue (Obj [("_type", Str "Color"); ("r", Num 1)]) = true
  /\ autoDetectVector2 (Obj [("_type", Str "Color"); ("r", Num 1)])
     = Obj [("_type", Str "Color"); ("r", Num 1)]
  /\ isTypedValue (autoDetectVector2 (Obj [("x", Num 3); ("y", Num 4)])) = true.
Proof.
  destruct (auto_detection_is_idempotent (Obj [("_type", Str "Color"); ("r", Num 1)]))
    as (_ & H2 & _).
  destruct (auto_detection_is_idempotent (Obj [("x", Num 3); ("y", Num 4)]))
    as (_ & _ & H3 & _).
  split; [reflexivity|]. split; [exact (proj2 (H2 eq_refl))|exact (H3 eq_refl)].
Defined.

End GodotTypesFacts.

(** ** Path validation *)

Module PathValidationFacts.
Import PathValidation.

Lemma append_cons c (a b : string) :
  String.append (String c a) b = String c (String.append a b).
Proof. reflexivity. Qed.

Lemma append_empty (a : string) : String.append EmptyString a = a.
Proof. reflexivity. Qed.

Lemma append_assoc (a b c : string) :
  String.append (String.append a b) c = String.append a (String.append b c).
Proof.
  induction a as [|x a IH]; [reflexivity|]. rewrite !append_cons. now rewrite IH.
Qed.

Lemma prefix_app needle haystack :
  String.prefix needle haystack = true <-> exists rest, haystack = String.append needle rest.
Proof.
  revert haystack. induction needle as [|a needle IH]; intros haystack.
  - split; [intros _; now exists haystack|now destruct haystack].
  - destruct haystack as [|b haystack]; cbn [String.prefix].
    + split; [discriminate|intros [rest E]; rewrite append_cons in E; discriminate].
    + destruct (Ascii.ascii_dec a b) as [->|Hne].
      * rewrite IH. split; intros [rest E]; exists rest.
        -- rewrite append_cons. now rewrite E.
        -- rewrite append_cons in E. now inversion E.
      * split; [discriminate|].
        intros [rest E]. rewrite append_cons in E. inversion E. congruence.
Qed.

Lemma includes_app needle haystack :
  includes needle haystack = true <->
  exists before after, haystack = String.append before (String.append needle after).
Proof.
  induction haystack as [|c rest IH]; cbn [includes].
  - rewrite orb_false_r, prefix_app. split.
    + intros [after E]. now exists EmptyString, after.
    + intros (before & after & E). destruct before as [|b before].
      * now exists after.
      * rewrite append_cons in E. discriminate.
  - rewrite orb_true_iff, prefix_app, IH. split.
    + intros [[after E]|(before & after & E)].
      * now exists EmptyString, after.
      * exists (String c before), after. rewrite append_cons. now rewrite E.
    + intros (before & after & E). destruct before as [|b before].
      * left. now exists after.
      * right. rewrite append_cons in E. inversion E. now exists before, after.
Qed.

Lemma segments_within current path segment :
  In segment (segments current path) ->
  exists before after,
    String.append current path = String.append before (String.append segment after).
Proof.
  revert current. induction path as [|c rest IH]; intros current; cbn [segments].
  - intros [<-|[]]. exists EmptyString, EmptyString. reflexivity.
  - destruct (Ascii.eqb c "/" || Ascii.eqb c (ascii_of_nat 92)).
    + intros [<-|Hin].
      * exists EmptyString, (String c rest). reflexivity.
      * destruct (IH EmptyString Hin) as (before & after & E).
        rewrite append_empty in E.
        exists (String.append current (String c before)), after.
        rewrite append_assoc, append_cons. now rewrite E.
    + intros Hin. destruct (IH _ Hin) as (before & after & E).
      exists before, after. rewrite <- E, append_assoc. reflexivity.
Qed.

(** X24. [validatePath] accepts a path exactly when it is not empty and
    the two characters [..] occur nowhere in it. So no segment of an
    accepted path (between [/] or [\]) is [..], or even contains it: an
    accepted path never steps to a parent directory. *)
Theorem accepted_path_has_no_parent_segment (path : string) :
  (validatePath path = true <->
   path <> ""
   /\ forall before after,
        path <> String.append before (String.append ".." after))
  /\ (validatePath path = true ->
      forall segment, In segment (segments "" path) ->
        segment <> ".." /\ includes ".." segment = false).
Proof.
  assert (Hiff : validatePath path = true <->
            path <> ""
            /\ forall before after,
                 path <> String.append before (String.append ".." after)).
  { unfold validatePath. destruct (String.eqb_spec path "") as [->|Hne]; cbn [orb].
    - split; [discriminate|intros [H _]; contradiction].
    - destruct (includes ".." path) eqn:Hinc.
      + apply includes_app in Hinc as (before & after & E).
        split; [discriminate|intros [_ H]; exfalso; exact (H before after E)].
      + split; [|reflexivity]. intros _. split; [assumption|].
        intros before after E.
        assert (includes ".." path = true) by (apply includes_app; eauto).
        congruence. }
  split; [exact Hiff|].
  intros Hvalid segment Hin. apply Hiff in Hvalid as [_ Hnone].
  apply segments_within in Hin as (before & after & E). rewrite append_empty in E.
  assert (Hinc : includes ".." segment = false).
  { destruct (includes ".." segment) eqn:Hinc; [|reflexivity].
    apply includes_app in Hinc as (b & a & ->). exfalso.
    apply (Hnone (String.append before b) (String.append a after)).
    rewrite E, !append_assoc. reflexivity. }
  split; [|exact Hinc]. intros ->. discriminate.
Qed.

Lemma accepted_path_has_no_parent_segment_witness :
  validatePath "scenes/level_1.tscn" = true
  /\ forall segment, In segment (segments "" "scenes/level_1.tscn") -> segment <> "..".
Proof.
  destruct (accepted_path_has_no_parent_segment "scenes/level_1.tscn") as [_ H].
  split; [reflexivity|]. intros segment Hin. exact (proj1 (H eq_refl segment Hin)).
Defined.

End PathValidationFacts.

(** ** What stays as it is *)

Module OutcomesFacts.
Import JS BridgeClient BridgeClientFacts BridgeClientMore Outcomes.

Implicit Types (c : Client) (p q t s : nat).

Lemma keeps_refl c : keeps_outcomes c c.
Proof. split; auto. Qed.

Lemma keeps_trans c1 c2 c3 :
  keeps_outcomes c1 c2 -> keeps_outcomes c2 c3 -> keeps_outcomes c1 c3.
Proof. intros [H1 H2] [H3 H4]. split; auto. Qed.

Lemma keeps_same c c' :
  promises c' = promises c -> timers c' = timers c -> keeps_outcomes c c'.
Proof. intros Hp Ht. split; intros; [rewrite Hp|rewrite Ht]; assumption. Qed.

Lemma keeps_settle p o c : keeps_outcomes c (settle p o c).
Proof.
  split.
  - intros q x Hq Hx. now apply settle_keeps.
  - intros t Ht. now rewrite settle_timers.
Qed.

Lemma keeps_settle_connect p o c : keeps_outcomes c (settle_connect p o c).
Proof.
  unfold settle_connect. destruct (promises c !! p) as [[| |]|]; try apply keeps_refl.
  apply (keeps_trans _ (settle p o c)); [apply keeps_settle|now apply keeps_same].
Qed.

Lemma keeps_clearTimeout t c : keeps_outcomes c (clearTimeout t c).
Proof.
  split; [auto|]. intros i Hi. cbn [timers clearTimeout with_timers].
  destruct (lookup_cleared_job (timers c) t i None Hi) as (job & Hjob & [->| ->]);
    exact Hjob.
Qed.

Lemma keeps_grow c c' x y :
  promises c' = promises c ++ [x] -> timers c' = timers c ++ [y] -> keeps_outcomes c c'.
Proof.
  intros Hp Ht. split; intros; [rewrite Hp|rewrite Ht]; now apply lookup_snoc_old.
Qed.

Lemma keeps_connect c : keeps_outcomes c (snd (connect c)).
Proof.
  unfold connect. destruct (isConnected c); [apply keeps_refl|].
  destruct (connectPromise c); [apply keeps_refl|].
  eapply keeps_grow; reflexivity.
Qed.

Lemma keeps_ws_close s c : keeps_outcomes c (ws_close s c).
Proof.
  pose proof (ws_close_rest s c) as (_ & _ & _ & _ & E5 & E6 & _).
  now apply keeps_same.
Qed.

Lemma keeps_reject_all entries c : keeps_outcomes c (reject_all entries c).
Proof.
  split.
  - intros q x Hq Hx. now apply reject_all_keeps.
  - intros t Ht. now apply reject_all_cleared.
Qed.

Lemma keeps_step e c : keeps_outcomes c (step e c).
Proof.
  destruct e as [|method params timeoutMs| |s|parsed|s|s|t]; cbn [step].
  - apply keeps_connect.
  - unfold request. destruct (isConnected c).
    + destruct (ws c) as [s|]; [|apply keeps_refl].
      eapply keeps_grow; reflexivity.
    + destruct (connect c) as [a c'] eqn:E.
      change c' with (snd (a, c')). rewrite <- E. apply keeps_connect.
  - unfold disconnect. destruct (ws c) as [s|]; [|apply keeps_refl].
    apply (keeps_trans _ (ws_close s c)); [apply keeps_ws_close|now apply keeps_same].
  - unfold on_open. destruct (sockets c !! s) as [sock|]; [|apply keeps_refl].
    eapply keeps_trans; [|apply keeps_settle_connect].
    apply (keeps_trans _ (clearTimeout (deadline sock) (set_readyState s OPEN c))).
    + eapply keeps_trans; [|apply keeps_clearTimeout].
      pose proof (set_readyState_rest s OPEN c) as (_ & _ & _ & _ & E5 & E6 & _).
      now apply keeps_same.
    + now apply keeps_same.
  - unfold on_message.
    destruct parsed as [response|]; [|now apply keeps_same].
    destruct response; try (now apply keeps_same); try apply keeps_refl.
    destruct (prop (Obj props) "id"); try apply keeps_refl.
    destruct (Assoc.get s (pendingRequests c)) as [pending|]; [|apply keeps_refl].
    apply (keeps_trans _ (with_pendingRequests (Assoc.delete s (pendingRequests c))
                            (clearTimeout (timer pending) c))).
    + apply (keeps_trans _ (clearTimeout (timer pending) c));
        [apply keeps_clearTimeout|now apply keeps_same].
    + destruct (truthy (prop (Obj props) "error")); apply keeps_settle.
  - pose proof (on_close_promises s c) as [Ep Et].
    apply (keeps_trans _ (reject_all (pendingRequests c) c));
      [apply keeps_reject_all|now apply keeps_same].
  - unfold on_error. destruct (sockets c !! s) as [sock|]; [|apply keeps_refl].
    eapply keeps_trans; [|apply keeps_settle_connect].
    apply (keeps_trans _ (clearTimeout (deadline sock) c));
      [apply keeps_clearTimeout|now apply keeps_same].
  - unfold on_timer. destruct (timers c !! t) as [[job|]|]; try apply keeps_refl.
    destruct job as [k method ms p|s p].
    + eapply keeps_trans; [|apply keeps_settle].
      apply (keeps_trans _ (clearTimeout t c));
        [apply keeps_clearTimeout|now apply keeps_same].
    + eapply keeps_trans; [|apply keeps_settle_connect].
      apply (keeps_trans _ (clearTimeout t c));
        [apply keeps_clearTimeout|apply keeps_ws_close].
Qed.

(** X25. On the client nothing is undone. Over any sequence of calls,
    socket events and timers, from any state: a promise that is
    fulfilled or rejected keeps its outcome (a late response, a close or
    a timeout does not settle it again), and a timer that was cleared or
    has fired stays so. *)
Theorem settled_promises_and_spent_timers_are_final (events : list Event) (c : Client) :
  (forall p x, promises c !! p = Some x -> x <> Unsettled ->
               promises (run events c) !! p = Some x)
  /\ (forall t, timers c !! t = Some None -> timers (run events c) !! t = Some None).
Proof.
  change (keeps_outcomes c (run events c)).
  induction events as [|e events IH] using rev_ind; [apply keeps_refl|].
  rewrite run_snoc. eapply keeps_trans; [exact IH|apply keeps_step].
Qed.

Lemma settled_promises_and_spent_timers_are_final_witness :
  let c := run [CallConnect; SocketOpen 0; CallRequest "ping" (Obj []) 30000;
                TimerFires 1] new_client in
  promises c !! 1%nat = Some (Rejected (RequestTimedOut "ping" 30000))
  /\ promises (run [SocketMessage (Some (Obj [("id", Str "1"); ("result", Obj [])]));
                    SocketClose 0] c) !! 1%nat
     = Some (Rejected (RequestTimedOut "ping" 30000)).
Proof.
  intros c. split; [reflexivity|].
  apply (settled_promises_and_spent_timers_are_final
           [SocketMessage (Some (Obj [("id", Str "1"); ("result", Obj [])])); SocketClose 0]
           c); [reflexivity|discriminate].
Defined.

End OutcomesFacts.

Module ResponsesFacts.
Import Godot BridgeServer Outcomes BridgeServerFacts.

Section Facts.
Context {engine : Engine}.

Lemma handle_message_frames p parsed s :
  List.Forall result_or_reserved_error (sent s) ->
  List.Forall result_or_reserved_error (sent (_handle_message p parsed s)).
Proof.
  intros Hs.
  assert (Hresult : forall n id result s',
            sent s' = sent s ->
            List.Forall result_or_reserved_error (sent (_send_result p n id result s'))).
  { intros n id result s' E. cbn. rewrite E. apply Forall_app. split; [exact Hs|].
    constructor; [|constructor]. left. now exists id, result. }
  assert (Herror : forall n id code message s',
            sent s' = sent s -> In code reserved_codes ->
            List.Forall result_or_reserved_error
              (sent (_send_error p n id code message s'))).
  { intros n id code message s' E Hin. cbn. rewrite E. apply Forall_app.
    split; [exact Hs|]. constructor; [|constructor]. right. now exists id, code, message. }
  unfold _handle_message.
  destruct parsed as [m|msg]; [apply Herror; cbn; auto|].
  destruct msg; try (apply Herror; cbn; auto; fail).
  destruct (typed_String "method" (dict_get "method" (VString "") entries)) as [method|e];
    [|exact Hs].
  destruct (String.eqb method ""); [apply Herror; cbn; auto|].
  cbn [_handlers count_call].
  destruct (Assoc.get method (_handlers s)) as [handler|]; [|apply Herror; cbn; auto].
  destruct (handler (dict_get "params" (VDictionary []) entries));
    try (apply Hresult; reflexivity).
  destruct (Assoc.has "_deferred" entries0); [|apply Hresult; reflexivity].
  destruct (dict_get "_deferred" Nil entries0); exact Hs.
Qed.

(** X26. Whatever a dispatcher has met since it started, every frame it
    has sent is a result response [{id, result}] or an error response
    [{id, error: {code, message}}] whose code is -32700, -32600 or
    -32601: it sends no other code, whatever the handlers return. *)
Theorem dispatcher_sends_results_and_reserved_errors_only
    (handlers : list (string * Callable)) (events : list Event) :
  List.Forall result_or_reserved_error (sent (run events (start handlers))).
Proof.
  induction events as [|e events IH] using rev_ind; [constructor|].
  unfold run in *. rewrite fold_left_app. cbn [fold_left].
  destruct e as [p parsed|g value]; cbn [step].
  - now apply handle_message_frames.
  - destruct (emit_state g value (fold_left (fun s e => step e s) events (start handlers)))
      as (E1 & _).
    rewrite E1. apply Forall_app. split; [exact IH|].
    apply List.Forall_forall. intros f Hin.
    apply in_map_iff in Hin as (a & <- & _). left.
    now exists (awaiting_id a), value.
Qed.

End Facts.

End ResponsesFacts.
